(** * CompressedVectorWriterImpl: a shallow embedding and its properties

    The writer of libE57Format's compressed-vector binary section
    (src/CompressedVectorWriterImpl.cpp), embedded as pure functions over an
    explicit world (writer, image file, buffers), with the exceptions of the
    C++ code as outcomes of an exception-and-state monad. *)

From Stdlib Require Import String DecimalString ZArith QArith Qround Qabs Qpower Lia Lqa Bool List.
From Stdlib Require Import Floats.SpecFloat.
From Stdlib Require Import Sorting.Permutation Sorting.Sorted.
Import ListNotations.

Local Open Scope Z_scope.

(* ===================================================================== *)
(** * Machine integers *)
(* ===================================================================== *)

Definition wrap (w : Z) (x : Z) : Z := x mod 2 ^ w.

(** [size_t] and [uint64_t] (LP64), [unsigned], [uint16_t]. *)
Definition wrap64 (x : Z) : Z := wrap 64 x.
Definition wrap32 (x : Z) : Z := wrap 32 x.
Definition wrap16 (x : Z) : Z := wrap 16 x.

(* ===================================================================== *)
(** * Single-precision arithmetic

    [float] is IEEE-754 binary32: a correctly rounded operation returns the
    exact result rounded to 24 significant bits, ties to even.  Every value
    the writer computes is zero or lies in [2^-64, 2^129), inside the normal
    range of binary32, so the exponent range plays no role and rounding is
    defined on the non-negative rationals. *)
(* ===================================================================== *)

Module F32.

Definition prec : Z := 24.

Definition pow2 (e : Z) : Q := Qpower 2 e.

(** [ilog2 q] is the exponent [k] with [2^k <= q < 2^(k+1)], for [0 < q]. *)
Definition ilog2 (q : Q) : Z :=
  let k := (Z.log2 (Qnum q) - Z.log2 (Zpos (Qden q)))%Z in
  if Qle_bool (pow2 k) q then k else (k - 1)%Z.

(** Round a rational to the nearest integer, ties to even. *)
Definition rint (s : Q) : Z :=
  let f := Qfloor s in
  let r := (s - inject_Z f)%Q in
  match Qcompare r (1 # 2) with
  | Lt => f
  | Gt => (f + 1)%Z
  | Eq => if Z.even f then f else (f + 1)%Z
  end.

(** Round to nearest binary32 value. *)
Definition rnd (q : Q) : Q :=
  if Qle_bool q 0 then 0%Q
  else
    let e := (ilog2 q - (prec - 1))%Z in
    Qred (inject_Z (rint (q / pow2 e)) * pow2 e)%Q.

(** [static_cast<float>] of an unsigned integer. *)
Definition of_Z (z : Z) : Q := rnd (inject_Z z).

Definition div (x y : Q) : Q := rnd (x / y).
Definition mul (x y : Q) : Q := rnd (x * y).

(** [std::floor] is exact on floats. *)
Definition floor (x : Q) : Z := Qfloor x.

(** [static_cast<unsigned>] of a float: the truncated value must be
    representable in [unsigned], anything else is undefined behaviour. *)
Definition to_unsigned (x : Z) : option Z :=
  if (0 <=? x)%Z && (x <? 2 ^ 32)%Z then Some x else None.

(** The value of a finite non-negative [spec_float], to compare [rnd]
    with the reference model of the Standard Library on examples. *)
Definition of_spec_float (x : spec_float) : option Q :=
  match x with
  | S754_zero _ => Some 0%Q
  | S754_finite false m e => Some (Qred (inject_Z (Zpos m) * pow2 e)%Q)
  | _ => None
  end.

Definition b32_of_Z (z : Z) : spec_float := binary_normalize 24 128 z 0 false.
Definition b32_div : spec_float -> spec_float -> spec_float := SFdiv 24 128.
Definition b32_mul : spec_float -> spec_float -> spec_float := SFmul 24 128.

End F32.


(* ===================================================================== *)
(** * Outcomes and the exception-and-state monad *)
(* ===================================================================== *)

(** The error kinds the writer raises ([std::out_of_range] is what
    [vector::at] throws). *)
Inductive ErrorCode : Type :=
| ErrorBadAPIArgument
| ErrorBuffersNotCompatible
| ErrorWriterNotOpen
| ErrorInternal
| ErrorBadCVHeader
| StdOutOfRange.

(** A call returns, throws, runs into behaviour the language leaves
    undefined, or is still running when the fuel of a loop is spent. *)
Inductive Outcome (A : Type) : Type :=
| Returns (a : A)
| Throws (e : ErrorCode)
| Undefined
| Diverges.

Arguments Returns {A} a.
Arguments Throws {A} e.
Arguments Undefined {A}.
Arguments Diverges {A}.

(** A C++ exception leaves the mutations made before the throw in place:
    the state is threaded through every outcome. *)
Definition M (S A : Type) : Type := S -> Outcome A * S.

Definition ret {S A} (a : A) : M S A := fun s => (Returns a, s).
Definition throw {S A} (e : ErrorCode) : M S A := fun s => (Throws e, s).
Definition undefined {S A} : M S A := fun s => (Undefined, s).
Definition diverge {S A} : M S A := fun s => (Diverges, s).

Definition bind {S A B} (m : M S A) (f : A -> M S B) : M S B :=
  fun s =>
    match m s with
    | (Returns a, s') => f a s'
    | (Throws e, s') => (Throws e, s')
    | (Undefined, s') => (Undefined, s')
    | (Diverges, s') => (Diverges, s')
    end.

Definition get {S} : M S S := fun s => (Returns s, s).
Definition gets {S A} (f : S -> A) : M S A := fun s => (Returns (f s), s).
Definition modify {S} (f : S -> S) : M S unit := fun s => (Returns tt, f s).

Declare Scope monad_scope.
Delimit Scope monad_scope with monad.
Notation "x <- m ;; k" := (bind m (fun x => k))
  (at level 61, m at next level, right associativity) : monad_scope.
Notation "m ;; k" := (bind m (fun _ => k))
  (at level 61, right associativity) : monad_scope.
Local Open Scope monad_scope.

Definition when {S} (c : bool) (m : M S unit) : M S unit :=
  if c then m else ret tt.

(* ===================================================================== *)
(** * Sizes and constants of the packet layout *)
(* ===================================================================== *)

(** Modelled from the spec: the constants of Packet.h and SectionHeaders.h
    (section 6 of the specification); these headers are not part of the
    sources at hand. *)
Definition DATA_PACKET_MAX : Z := 65536.
Definition sizeof_DataPacketHeader : Z := 6.
Definition sizeof_IndexPacketHeader : Z := 16.
Definition sizeof_IndexPacketEntry : Z := 16.
Definition sizeof_CompressedVectorSectionHeader : Z := 32.
Definition sizeof_uint16_t : Z := 2.
Definition DATA_PACKET : Z := 1.
Definition INDEX_PACKET : Z := 0.
Definition COMPRESSED_VECTOR_SECTION : Z := 1.

(* ===================================================================== *)
(** * Data model *)
(* ===================================================================== *)

Definition byte : Type := Z.

Record DataPacketHeader : Type := {
  packetType : Z;
  packetFlags : Z;
  packetLogicalLengthMinus1 : Z;
  bytestreamCount : Z
}.

(** The scratch packet as far as it has been laid out: header, the table
    [bytestreamBufferLength], the bytes drained from the encoders, and the
    number of zero bytes of padding. *)
Record DataPacket : Type := {
  header : DataPacketHeader;
  bsbLength : list Z;
  payload : list byte;
  padding : Z
}.

Record IndexPacketEntry : Type := {
  chunkRecordNumber : Z;
  chunkPhysicalOffset : Z
}.

Record IndexPacket : Type := {
  ip_packetType : Z;
  ip_packetLogicalLengthMinus1 : Z;
  ip_entryCount : Z;
  entries : list IndexPacketEntry
}.

Record CompressedVectorSectionHeader : Type := {
  sectionId : Z;
  sectionLogicalLength : Z;
  dataPhysicalOffset : Z;
  indexPhysicalOffset : Z
}.

(** What [CheckedFile::write] is handed. *)
Inductive Blob : Type :=
| BDataPacket (p : DataPacket)
| BIndexPacket (p : IndexPacket)
| BSectionHeader (h : CompressedVectorSectionHeader).

(** The file keeps its seek position and the history of what was done to
    it, newest first. *)
Inductive FileEvent : Type :=
| EvExtend (newLogicalLength : Z)
| EvWrite (logicalOffset : Z) (b : Blob) (len : Z).

Record CheckedFile : Type := {
  position : Z;
  events : list FileEvent
}.

Record ImageFileImpl : Type := {
  unusedLogicalStart_ : Z;
  writerCount_ : Z;
  file_ : CheckedFile
}.

(** A [SourceDestBuffer] is a handle on a shared [SourceDestBufferImpl]:
    the writer's [sbufs_] and the encoders alias the same objects, kept in
    a store indexed by handle. *)
Record SourceDestBufferImpl : Type := {
  pathName : string;
  memoryRepresentation : Z;
  stride : Z;
  capacity : Z;
  nextIndex : Z;
  contents : list Z
}.

Definition SourceDestBuffer : Type := nat.
Definition Store : Type := list SourceDestBufferImpl.

(** The prototype, as far as the writer looks at it: its terminal fields
    in depth-first order, each with the bit width of its values. *)
Record Prototype : Type := {
  terminals : list (string * Z)
}.

Record CompressedVectorNodeImpl : Type := {
  prototype : Prototype;
  recordCount : Z;
  binarySectionLogicalStart : Z
}.

(* ===================================================================== *)
(** * Collaborators of the writer *)
(* ===================================================================== *)

(** The virtual interface of [Encoder] the writer calls.  [processRecords]
    reads from the encoder's source buffer, which lives in the store. *)
Class Encoder (E : Type) : Type := {
  bytestreamNumber : E -> Z;
  currentRecordIndex : E -> Z;
  processRecords : E -> Z -> Store -> Outcome unit * E * Store;
  outputAvailable : E -> Z;
  outputRead : E -> Z -> Outcome (list byte) * E;
  registerFlushToOutput : E -> E;
  EncoderFactory : Z -> Prototype -> SourceDestBuffer -> string -> E
}.

(** What the build and the host file decide: the validation macros, the
    page layout behind [CheckedFile::logicalToPhysical], and
    [CompressedVectorSectionHeader::verify]. *)
Class Host : Type := {
  VALIDATE_BASIC : bool;
  VALIDATION_DEEP : bool;
  E57_WRITE_CRAZY_PACKET_MODE : bool;
  logicalToPhysical : Z -> Z;
  sectionHeaderVerify : CompressedVectorSectionHeader -> ImageFileImpl -> bool
}.

(* ===================================================================== *)
(** * The writer and its world *)
(* ===================================================================== *)

Record Writer (E : Type) : Type := {
  isOpen_ : bool;
  sbufs_ : list SourceDestBuffer;
  bytestreams_ : list E;
  proto_ : Prototype;
  dataPacket_ : DataPacket;
  sectionHeaderLogicalStart_ : Z;
  sectionLogicalLength_ : Z;
  dataPhysicalOffset_ : Z;
  topIndexPhysicalOffset_ : Z;
  recordCount_ : Z;
  dataPacketsCount_ : Z;
  indexPacketsCount_ : Z
}.

Arguments isOpen_ {E} _.
Arguments sbufs_ {E} _.
Arguments bytestreams_ {E} _.
Arguments proto_ {E} _.
Arguments dataPacket_ {E} _.
Arguments sectionHeaderLogicalStart_ {E} _.
Arguments sectionLogicalLength_ {E} _.
Arguments dataPhysicalOffset_ {E} _.
Arguments topIndexPhysicalOffset_ {E} _.
Arguments recordCount_ {E} _.
Arguments dataPacketsCount_ {E} _.
Arguments indexPacketsCount_ {E} _.

(** The writer, the node [cVector_] it shares, the image file
    [cVector_->destImageFile_], and the store of buffer objects. *)
Record World (E : Type) : Type := {
  writer : Writer E;
  cVector_ : CompressedVectorNodeImpl;
  imf : ImageFileImpl;
  store : Store
}.

Arguments writer {E} _.
Arguments cVector_ {E} _.
Arguments imf {E} _.
Arguments store {E} _.
Arguments Build_World {E} _ _ _ _.
Arguments Build_Writer {E} _ _ _ _ _ _ _ _ _ _ _ _.

Section Updates.
Context {E : Type}.

Definition set_writer (f : Writer E -> Writer E) (w : World E) : World E :=
  Build_World (f (writer w)) (cVector_ w) (imf w) (store w).
Definition set_cVector (f : CompressedVectorNodeImpl -> CompressedVectorNodeImpl)
  (w : World E) : World E :=
  Build_World (writer w) (f (cVector_ w)) (imf w) (store w).
Definition set_imf (f : ImageFileImpl -> ImageFileImpl) (w : World E) : World E :=
  Build_World (writer w) (cVector_ w) (f (imf w)) (store w).
Definition set_store (f : Store -> Store) (w : World E) : World E :=
  Build_World (writer w) (cVector_ w) (imf w) (f (store w)).

Definition set_isOpen (v : bool) (x : Writer E) : Writer E :=
  Build_Writer v (sbufs_ x) (bytestreams_ x) (proto_ x) (dataPacket_ x)
    (sectionHeaderLogicalStart_ x) (sectionLogicalLength_ x) (dataPhysicalOffset_ x)
    (topIndexPhysicalOffset_ x) (recordCount_ x) (dataPacketsCount_ x)
    (indexPacketsCount_ x).
Definition set_sbufs (v : list SourceDestBuffer) (x : Writer E) : Writer E :=
  Build_Writer (isOpen_ x) v (bytestreams_ x) (proto_ x) (dataPacket_ x)
    (sectionHeaderLogicalStart_ x) (sectionLogicalLength_ x) (dataPhysicalOffset_ x)
    (topIndexPhysicalOffset_ x) (recordCount_ x) (dataPacketsCount_ x)
    (indexPacketsCount_ x).
Definition set_bytestreams (v : list E) (x : Writer E) : Writer E :=
  Build_Writer (isOpen_ x) (sbufs_ x) v (proto_ x) (dataPacket_ x)
    (sectionHeaderLogicalStart_ x) (sectionLogicalLength_ x) (dataPhysicalOffset_ x)
    (topIndexPhysicalOffset_ x) (recordCount_ x) (dataPacketsCount_ x)
    (indexPacketsCount_ x).
Definition set_proto (v : Prototype) (x : Writer E) : Writer E :=
  Build_Writer (isOpen_ x) (sbufs_ x) (bytestreams_ x) v (dataPacket_ x)
    (sectionHeaderLogicalStart_ x) (sectionLogicalLength_ x) (dataPhysicalOffset_ x)
    (topIndexPhysicalOffset_ x) (recordCount_ x) (dataPacketsCount_ x)
    (indexPacketsCount_ x).
Definition set_dataPacket (v : DataPacket) (x : Writer E) : Writer E :=
  Build_Writer (isOpen_ x) (sbufs_ x) (bytestreams_ x) (proto_ x) v
    (sectionHeaderLogicalStart_ x) (sectionLogicalLength_ x) (dataPhysicalOffset_ x)
    (topIndexPhysicalOffset_ x) (recordCount_ x) (dataPacketsCount_ x)
    (indexPacketsCount_ x).
Definition set_sectionHeaderLogicalStart (v : Z) (x : Writer E) : Writer E :=
  Build_Writer (isOpen_ x) (sbufs_ x) (bytestreams_ x) (proto_ x) (dataPacket_ x)
    v (sectionLogicalLength_ x) (dataPhysicalOffset_ x)
    (topIndexPhysicalOffset_ x) (recordCount_ x) (dataPacketsCount_ x)
    (indexPacketsCount_ x).
Definition set_sectionLogicalLength (v : Z) (x : Writer E) : Writer E :=
  Build_Writer (isOpen_ x) (sbufs_ x) (bytestreams_ x) (proto_ x) (dataPacket_ x)
    (sectionHeaderLogicalStart_ x) v (dataPhysicalOffset_ x)
    (topIndexPhysicalOffset_ x) (recordCount_ x) (dataPacketsCount_ x)
    (indexPacketsCount_ x).
Definition set_dataPhysicalOffset (v : Z) (x : Writer E) : Writer E :=
  Build_Writer (isOpen_ x) (sbufs_ x) (bytestreams_ x) (proto_ x) (dataPacket_ x)
    (sectionHeaderLogicalStart_ x) (sectionLogicalLength_ x) v
    (topIndexPhysicalOffset_ x) (recordCount_ x) (dataPacketsCount_ x)
    (indexPacketsCount_ x).
Definition set_topIndexPhysicalOffset (v : Z) (x : Writer E) : Writer E :=
  Build_Writer (isOpen_ x) (sbufs_ x) (bytestreams_ x) (proto_ x) (dataPacket_ x)
    (sectionHeaderLogicalStart_ x) (sectionLogicalLength_ x) (dataPhysicalOffset_ x)
    v (recordCount_ x) (dataPacketsCount_ x) (indexPacketsCount_ x).
Definition set_recordCount (v : Z) (x : Writer E) : Writer E :=
  Build_Writer (isOpen_ x) (sbufs_ x) (bytestreams_ x) (proto_ x) (dataPacket_ x)
    (sectionHeaderLogicalStart_ x) (sectionLogicalLength_ x) (dataPhysicalOffset_ x)
    (topIndexPhysicalOffset_ x) v (dataPacketsCount_ x) (indexPacketsCount_ x).
Definition set_dataPacketsCount (v : Z) (x : Writer E) : Writer E :=
  Build_Writer (isOpen_ x) (sbufs_ x) (bytestreams_ x) (proto_ x) (dataPacket_ x)
    (sectionHeaderLogicalStart_ x) (sectionLogicalLength_ x) (dataPhysicalOffset_ x)
    (topIndexPhysicalOffset_ x) (recordCount_ x) v (indexPacketsCount_ x).
Definition set_indexPacketsCount (v : Z) (x : Writer E) : Writer E :=
  Build_Writer (isOpen_ x) (sbufs_ x) (bytestreams_ x) (proto_ x) (dataPacket_ x)
    (sectionHeaderLogicalStart_ x) (sectionLogicalLength_ x) (dataPhysicalOffset_ x)
    (topIndexPhysicalOffset_ x) (recordCount_ x) (dataPacketsCount_ x) v.

End Updates.

(* ===================================================================== *)
(** * The host file and the buffers *)
(* ===================================================================== *)

Section HostFile.
Context {E : Type}.

Definition set_file (f : CheckedFile -> CheckedFile) (i : ImageFileImpl) : ImageFileImpl :=
  {| unusedLogicalStart_ := unusedLogicalStart_ i;
     writerCount_ := writerCount_ i;
     file_ := f (file_ i) |}.

(** Modelled from the spec: [CheckedFile::extend], [seek] and [write] (the
    host file contract, section 6): a write lands at the seek position and
    moves it past the bytes written. *)
Definition extend (newLogicalLength : Z) (f : CheckedFile) : CheckedFile :=
  {| position := position f; events := EvExtend newLogicalLength :: events f |}.

Definition seek (offset : Z) : M (World E) unit :=
  modify (set_imf (set_file (fun f => {| position := offset; events := events f |}))).

Definition file_write (b : Blob) (len : Z) : M (World E) unit :=
  modify (set_imf (set_file (fun f =>
    {| position := wrap64 (position f + len);
       events := EvWrite (position f) b len :: events f |}))).

(** Modelled from the spec: [ImageFileImpl::allocateSpace] reserves
    [byteCount] contiguous logical bytes at the frontier
    [unusedLogicalStart_], advances the frontier and returns where the
    range starts; it extends the file with zeros on request. *)
Definition allocateSpace (byteCount : Z) (doExtendFile : bool) : M (World E) Z :=
  fun w =>
    let oldLogicalStart := unusedLogicalStart_ (imf w) in
    let newLogicalStart := wrap64 (oldLogicalStart + byteCount) in
    (Returns oldLogicalStart,
     set_imf (fun i =>
       {| unusedLogicalStart_ := newLogicalStart;
          writerCount_ := writerCount_ i;
          file_ := if doExtendFile then extend newLogicalStart (file_ i) else file_ i |}) w).

(** Modelled from the spec: the live-writer counter of the image file. *)
Definition incrWriterCount : M (World E) unit :=
  modify (set_imf (fun i =>
    {| unusedLogicalStart_ := unusedLogicalStart_ i;
       writerCount_ := writerCount_ i + 1;
       file_ := file_ i |})).

Definition decrWriterCount : M (World E) unit :=
  modify (set_imf (fun i =>
    {| unusedLogicalStart_ := unusedLogicalStart_ i;
       writerCount_ := writerCount_ i - 1;
       file_ := file_ i |})).

(** [sbuf.impl()]: a handle always refers to a live object. *)
Definition impl (sbuf : SourceDestBuffer) : M (World E) SourceDestBufferImpl :=
  fun w =>
    match nth_error (store w) sbuf with
    | Some b => (Returns b, w)
    | None => (Undefined, w)
    end.

Definition set_nextIndex (v : Z) (b : SourceDestBufferImpl) : SourceDestBufferImpl :=
  {| pathName := pathName b; memoryRepresentation := memoryRepresentation b;
     stride := stride b; capacity := capacity b; nextIndex := v;
     contents := contents b |}.

Fixpoint update_nth {A} (n : nat) (f : A -> A) (l : list A) : list A :=
  match l, n with
  | [], _ => []
  | x :: l', O => f x :: l'
  | x :: l', S n' => x :: update_nth n' f l'
  end.

(** Modelled from the spec: [SourceDestBufferImpl::rewind] puts the read
    position of the buffer back to 0. *)
Definition rewind (sbuf : SourceDestBuffer) : M (World E) unit :=
  _ <- impl sbuf ;;
  modify (set_store (update_nth sbuf (set_nextIndex 0))).

(** Modelled from the spec: [SourceDestBufferImpl::checkCompatible] accepts
    a new buffer of the same type and the same stride as the old one. *)
Definition checkCompatible (oldbuf newBuf : SourceDestBufferImpl) : bool :=
  (memoryRepresentation oldbuf =? memoryRepresentation newBuf)
  && (stride oldbuf =? stride newBuf).

Definition occurrences (s : string) (l : list string) : nat :=
  length (filter (String.eqb s) l).

(** Modelled from the spec: [NodeImpl::checkBuffers] with [allowMissing]
    false accepts the buffers when every terminal field of the prototype
    has exactly one buffer and no buffer names anything else. *)
Definition checkBuffers (proto : Prototype) (paths : list string) : bool :=
  forallb (fun t => Nat.eqb (occurrences (fst t) paths) 1) (terminals proto)
  && forallb (fun p => existsb (fun t => String.eqb p (fst t)) (terminals proto)) paths.

(** Modelled from the spec: [proto_->get] followed by
    [findTerminalPosition]: the position of the path among the terminal
    fields of the prototype, in depth-first order. *)
Fixpoint findTerminalPosition (ts : list (string * Z)) (path : string) (pos : Z) : option Z :=
  match ts with
  | [] => None
  | t :: ts' => if String.eqb path (fst t) then Some pos
                else findTerminalPosition ts' path (pos + 1)
  end.

End HostFile.

(* ===================================================================== *)
(** * Packet assembly: the pure parts *)
(* ===================================================================== *)

(** Modelled from the spec: [DataPacketHeader::reset] sets the packet type
    and zeroes the other fields. *)
Definition DataPacketHeader_reset : DataPacketHeader :=
  {| packetType := DATA_PACKET; packetFlags := 0;
     packetLogicalLengthMinus1 := 0; bytestreamCount := 0 |}.

Definition roundUp4 (n : Z) : Z := (n + 3) / 4 * 4.

Definition sumZ (l : list Z) : Z := fold_left Z.add l 0.

(** Modelled from the spec: [DataPacket::verify] recomputes the length the
    packet must have from its header and its table of stream lengths and
    aborts on a mismatch. *)
Definition DataPacket_verify (p : DataPacket) (bufferLength : Z) : bool :=
  let needed := sizeof_DataPacketHeader
                + sizeof_uint16_t * bytestreamCount (header p)
                + sumZ (bsbLength p) in
  (packetType (header p) =? DATA_PACKET)
  && (packetLogicalLengthMinus1 (header p) + 1 =? roundUp4 needed)
  && (roundUp4 needed =? bufferLength).

(** [std::accumulate] over [size_t]. *)
Definition accumulate (l : list Z) : Z :=
  fold_left (fun total c => wrap64 (total + c)) l 0.

(** One element of [count] in the branch that sends a fraction. *)
Definition countAt (cFractionToSend : Q) (available : Z) : option Z :=
  F32.to_unsigned (F32.floor (F32.mul cFractionToSend (F32.of_Z available))).

Fixpoint mapOption {A B} (f : A -> option B) (l : list A) : option (list B) :=
  match l with
  | [] => Some []
  | x :: l' =>
      match f x, mapOption f l' with
      | Some y, Some ys => Some (y :: ys)
      | _, _ => None
      end
  end.

(** The vector [count] of [packetWrite] (lines 451-475), from the total
    and the per-stream output available; [None] when a conversion to
    [unsigned] is undefined. *)
Definition computeCount (cPacketMaxPayloadBytes cTotalOutput : Z)
  (available : list Z) : option (list Z) :=
  if cTotalOutput <? cPacketMaxPayloadBytes then Some available
  else
    let cFractionToSend :=
      F32.div (F32.of_Z (wrap64 (cPacketMaxPayloadBytes - 1))) (F32.of_Z cTotalOutput) in
    mapOption (countAt cFractionToSend) available.

(** The padding loop of [packetWrite] (lines 565-580): [p] is the offset
    of the write pointer in the scratch packet. *)
Fixpoint padPacket (fuel : nat) (p packetLength pad : Z) : Outcome (Z * Z) :=
  if packetLength mod 4 =? 0 then Returns (packetLength, pad)
  else
    match fuel with
    | O => Diverges
    | S fuel' =>
        if DATA_PACKET_MAX - 1 <=? p then Throws ErrorInternal
        else padPacket fuel' (p + 1) (wrap32 (packetLength + 1)) (pad + 1)
    end.

(** The padding loop of [packetWriteZeroRecords] (lines 636-641). *)
Fixpoint padZeroRecords (fuel : nat) (packetLength pad : Z) : Outcome (Z * Z) :=
  if packetLength mod 4 =? 0 then Returns (packetLength, pad)
  else
    match fuel with
    | O => Diverges
    | S fuel' => padZeroRecords fuel' (wrap32 (packetLength + 1)) (pad + 1)
    end.

Definition lift {S A} (o : Outcome A) : M S A := fun s => (o, s).

Definition outcome_map {A B} (f : A -> B) (o : Outcome A) : Outcome B :=
  match o with
  | Returns a => Returns (f a)
  | Throws e => Throws e
  | Undefined => Undefined
  | Diverges => Diverges
  end.

(* ===================================================================== *)
(** * CompressedVectorWriterImpl *)
(* ===================================================================== *)

Section WriterImpl.
Context {E : Type} `{Encoder E} `{Host}.

Definition modify_writer (f : Writer E -> Writer E) : M (World E) unit :=
  modify (set_writer f).

(** [checkImageFileOpen] is unimplemented in the source. *)
Definition checkImageFileOpen : M (World E) unit := ret tt.

Definition checkWriterOpen : M (World E) unit :=
  w <- get ;;
  if negb (isOpen_ (writer w)) then throw ErrorWriterNotOpen else ret tt.

Definition totalOutputAvailable (wr : Writer E) : Z :=
  fold_left (fun total bytestream => wrap64 (total + outputAvailable bytestream))
    (bytestreams_ wr) 0.

Definition size {A} (l : list A) : Z := Z.of_nat (length l).

Definition currentPacketSize (wr : Writer E) : Z :=
  wrap64 (sizeof_DataPacketHeader
          + wrap64 (size (bytestreams_ wr) * sizeof_uint16_t)
          + totalOutputAvailable wr).

Definition flush : M (World E) unit :=
  modify_writer (fun wr => set_bytestreams (map registerFlushToOutput (bytestreams_ wr)) wr).

(** The loop over the streams that drains [count.at(i)] bytes of each
    into the scratch packet at offset [p] (lines 528-545).  Writing past
    the end of the scratch packet is undefined. *)
Fixpoint outputReadAll (cStreams : list E) (count : list Z) (p : Z)
  : Outcome (list byte * Z) * list E :=
  match cStreams, count with
  | bytestream :: rest, n :: count' =>
      if VALIDATE_BASIC && (DATA_PACKET_MAX <? p + n)
      then (Throws ErrorInternal, cStreams)
      else
        match outputRead bytestream n with
        | (Returns bytes, bytestream') =>
            if DATA_PACKET_MAX <? p + n then (Undefined, bytestream' :: rest)
            else
              let '(o, rest') := outputReadAll rest count' (p + n) in
              (outcome_map (fun r => (bytes ++ fst r, snd r)) o, bytestream' :: rest')
        | (o, bytestream') => (outcome_map (fun _ => ([], p)) o, bytestream' :: rest)
        end
  | _, _ => (Returns ([], p), cStreams)
  end.

(** Lines 591-613, shared by both kinds of data packet: put the packet at
    the frontier of the file and note the first one of the section. *)
Definition commitDataPacket (packetLength : Z) : M (World E) Z :=
  packetLogicalOffset <- allocateSpace packetLength false ;;
  let packetPhysicalOffset := logicalToPhysical packetLogicalOffset in
  seek packetLogicalOffset ;;
  w <- get ;;
  file_write (BDataPacket (dataPacket_ (writer w))) packetLength ;;
  w <- get ;;
  when (dataPacketsCount_ (writer w) =? 0)
    (modify_writer (set_dataPhysicalOffset packetPhysicalOffset)) ;;
  modify_writer (fun wr => set_dataPacketsCount (wrap64 (dataPacketsCount_ wr + 1)) wr) ;;
  ret packetPhysicalOffset.

(** [cPacketMaxPayloadBytes] (lines 441-442), in [size_t]. *)
Definition packetMaxPayloadBytes (cNumByteStreams : Z) : Z :=
  wrap64 (DATA_PACKET_MAX - sizeof_DataPacketHeader - cNumByteStreams * sizeof_uint16_t).

(** The vector [count] for the streams of the writer. *)
Definition countOf (wr : Writer E) : option (list Z) :=
  computeCount (packetMaxPayloadBytes (size (bytestreams_ wr)))
    (totalOutputAvailable wr) (map outputAvailable (bytestreams_ wr)).

(** Lines 497-589: lay the packet out in [dataPacket_] and return its
    length. *)
Definition assembleDataPacket (count : list Z) : M (World E) Z :=
  w <- get ;;
  let cStreams := bytestreams_ (writer w) in
  let cNumByteStreams := size cStreams in
  let cTotalByteCount := accumulate count in
  modify_writer (fun wr =>
    set_dataPacket {| header := DataPacketHeader_reset;
                      bsbLength := bsbLength (dataPacket_ wr);
                      payload := payload (dataPacket_ wr);
                      padding := padding (dataPacket_ wr) |} wr) ;;
  (* bsbLength[i] = static_cast<uint16_t>( count.at( i ) ): the table
     has to lie inside the scratch packet *)
  (if DATA_PACKET_MAX <? sizeof_DataPacketHeader + cNumByteStreams * sizeof_uint16_t
   then undefined else ret tt) ;;
  let bsb := map wrap16 count in
  let p0 := sizeof_DataPacketHeader + cNumByteStreams * sizeof_uint16_t in
  r <- (fun w => let '(o, streams') := outputReadAll cStreams count p0 in
                 (o, set_writer (set_bytestreams streams') w)) ;;
  let packetLength := wrap32 (snd r) in
  (if VALIDATE_BASIC
      && negb (packetLength =?
               wrap64 (sizeof_DataPacketHeader
                       + wrap64 (cNumByteStreams * sizeof_uint16_t)
                       + cTotalByteCount))
   then throw ErrorInternal else ret tt) ;;
  padded <- lift (padPacket 4 (snd r) packetLength 0) ;;
  modify_writer (set_dataPacket
    {| header := {| packetType := DATA_PACKET; packetFlags := 0;
                    packetLogicalLengthMinus1 := wrap16 (wrap32 (fst padded - 1));
                    bytestreamCount := wrap16 cNumByteStreams |};
       bsbLength := bsb; payload := fst r; padding := snd padded |}) ;;
  w <- get ;;
  (if DataPacket_verify (dataPacket_ (writer w)) (fst padded)
   then ret tt else throw ErrorInternal) ;;
  ret (fst padded).

Definition packetWrite : M (World E) Z :=
  w <- get ;;
  let cTotalOutput := totalOutputAvailable (writer w) in
  if cTotalOutput =? 0 then ret 0
  else
    match countOf (writer w) with
    | None => undefined
    | Some count =>
        if VALIDATE_BASIC
           && (packetMaxPayloadBytes (size (bytestreams_ (writer w))) <? accumulate count)
        then throw ErrorInternal
        else
          packetLength <- assembleDataPacket count ;;
          commitDataPacket packetLength
    end.

Definition packetWriteZeroRecords : M (World E) unit :=
  let packetLength := wrap32 sizeof_DataPacketHeader in
  padded <- lift (padZeroRecords 4 packetLength 0) ;;
  modify_writer (set_dataPacket
    {| header := {| packetType := DATA_PACKET; packetFlags := 0;
                    packetLogicalLengthMinus1 := wrap16 (wrap32 (fst padded - 1));
                    bytestreamCount := 0 |};
       bsbLength := []; payload := []; padding := snd padded |}) ;;
  w <- get ;;
  (if DataPacket_verify (dataPacket_ (writer w)) (fst padded)
   then ret tt else throw ErrorInternal) ;;
  _ <- commitDataPacket (fst padded) ;;
  ret tt.

Definition packetWriteIndex : M (World E) unit :=
  w <- get ;;
  let cPacketLength := sizeof_IndexPacketHeader + sizeof_IndexPacketEntry in
  let indexPacket :=
    {| ip_packetType := INDEX_PACKET;
       ip_packetLogicalLengthMinus1 := cPacketLength - 1;
       ip_entryCount := 1;
       entries := [ {| chunkRecordNumber := 0;
                       chunkPhysicalOffset := dataPhysicalOffset_ (writer w) |} ] |} in
  packetLogicalOffset <- allocateSpace cPacketLength false ;;
  modify_writer (set_topIndexPhysicalOffset (logicalToPhysical packetLogicalOffset)) ;;
  seek packetLogicalOffset ;;
  file_write (BIndexPacket indexPacket) cPacketLength ;;
  modify_writer (fun wr => set_indexPacketsCount (wrap64 (indexPacketsCount_ wr + 1)) wr).

Definition E57_TARGET_PACKET_SIZE : Z :=
  if E57_WRITE_CRAZY_PACKET_MODE then 500 else DATA_PACKET_MAX * 3 / 4.

(** [sbufs.at( i )] *)
Definition at_ {A} (l : list A) (i : nat) : M (World E) A :=
  match nth_error l i with
  | Some x => ret x
  | None => throw StdOutOfRange
  end.

Fixpoint forEach {A} (l : list A) (body : A -> M (World E) unit) : M (World E) unit :=
  match l with
  | [] => ret tt
  | x :: l' => body x ;; forEach l' body
  end.

(** The pairwise compatibility loop of [setBuffers] (lines 259-266). *)
Fixpoint checkCompatibleAll (olds news : list SourceDestBuffer) : M (World E) unit :=
  match olds, news with
  | o :: olds', n :: news' =>
      oldbuf <- impl o ;;
      newBuf <- impl n ;;
      (if checkCompatible oldbuf newBuf then ret tt
       else throw ErrorBuffersNotCompatible) ;;
      checkCompatibleAll olds' news'
  | _, _ => ret tt
  end.

Fixpoint pathNames (sbufs : list SourceDestBuffer) : M (World E) (list string) :=
  match sbufs with
  | [] => ret []
  | b :: sbufs' =>
      i <- impl b ;;
      rest <- pathNames sbufs' ;;
      ret (pathName i :: rest)
  end.

Definition setBuffers (sbufs : list SourceDestBuffer) : M (World E) unit :=
  w <- get ;;
  (if negb (size (sbufs_ (writer w)) =? 0)
   then
     if negb (size (sbufs_ (writer w)) =? size sbufs)
     then throw ErrorBuffersNotCompatible
     else checkCompatibleAll (sbufs_ (writer w)) sbufs
   else ret tt) ;;
  paths <- pathNames sbufs ;;
  (if checkBuffers (proto_ (writer w)) paths then ret tt
   else throw ErrorBuffersNotCompatible) ;;
  modify_writer (set_sbufs sbufs).

(** The inner loop of [write] over the streams (lines 385-395). *)
Fixpoint processAll (endRecordIndex : Z) (streams : list E) (st : Store)
  : Outcome unit * list E * Store :=
  match streams with
  | [] => (Returns tt, [], st)
  | bytestream :: rest =>
      if currentRecordIndex bytestream <? endRecordIndex
      then
        let recordCount := wrap64 (endRecordIndex - currentRecordIndex bytestream) in
        let recordCount := if recordCount <? 50 then recordCount else 50 in
        match processRecords bytestream (wrap32 recordCount) st with
        | (Returns _, bytestream', st') =>
            let '(o, rest', st'') := processAll endRecordIndex rest st' in
            (o, bytestream' :: rest', st'')
        | (o, bytestream', st') => (o, bytestream' :: rest, st')
        end
      else
        let '(o, rest', st') := processAll endRecordIndex rest st in
        (o, bytestream :: rest', st')
  end.

Definition totalRecordCount (endRecordIndex : Z) (streams : list E) : Z :=
  fold_left (fun total bytestream =>
               wrap64 (total + wrap64 (endRecordIndex - currentRecordIndex bytestream)))
    streams 0.

(** The [while ( true )] of [write] (lines 319-396). *)
Fixpoint writeLoop (fuel : nat) (endRecordIndex : Z) : M (World E) unit :=
  match fuel with
  | O => diverge
  | S fuel' =>
      w <- get ;;
      if totalRecordCount endRecordIndex (bytestreams_ (writer w)) =? 0 then ret tt
      else if E57_TARGET_PACKET_SIZE <=? currentPacketSize (writer w)
      then _ <- packetWrite ;; writeLoop fuel' endRecordIndex
      else
        (fun w =>
           let '(o, streams', st') :=
             processAll endRecordIndex (bytestreams_ (writer w)) (store w) in
           (o, set_store (fun _ => st') (set_writer (set_bytestreams streams') w))) ;;
        writeLoop fuel' endRecordIndex
  end.

Definition write (fuel : nat) (requestedRecordCount : Z) : M (World E) unit :=
  checkImageFileOpen ;;
  checkWriterOpen ;;
  if requestedRecordCount =? 0 then packetWriteZeroRecords
  else
    w <- get ;;
    sbuf0 <- at_ (sbufs_ (writer w)) 0 ;;
    impl0 <- impl sbuf0 ;;
    if capacity impl0 <? requestedRecordCount then throw ErrorBadAPIArgument
    else
      forEach (sbufs_ (writer w)) rewind ;;
      let endRecordIndex := wrap64 (recordCount_ (writer w) + requestedRecordCount) in
      writeLoop fuel endRecordIndex ;;
      modify_writer (fun wr =>
        set_recordCount (wrap64 (recordCount_ wr + requestedRecordCount)) wr).

(** [write( sbufs, requestedRecordCount )] *)
Definition write2 (fuel : nat) (sbufs : list SourceDestBuffer) (requestedRecordCount : Z)
  : M (World E) unit :=
  setBuffers sbufs ;;
  write fuel requestedRecordCount.

(** The drain loop of [close] (lines 180-184). *)
Fixpoint drain (fuel : nat) : M (World E) unit :=
  match fuel with
  | O => diverge
  | S fuel' =>
      w <- get ;;
      if 0 <? totalOutputAvailable (writer w)
      then _ <- packetWrite ;; flush ;; drain fuel'
      else ret tt
  end.

Definition setRecordCount (v : Z) (n : CompressedVectorNodeImpl) : CompressedVectorNodeImpl :=
  {| prototype := prototype n; recordCount := v;
     binarySectionLogicalStart := binarySectionLogicalStart n |}.

Definition setBinarySectionLogicalStart (v : Z) (n : CompressedVectorNodeImpl)
  : CompressedVectorNodeImpl :=
  {| prototype := prototype n; recordCount := recordCount n;
     binarySectionLogicalStart := v |}.

(** The end of [close] (lines 186-223): the index packet, the section
    header into the slot reserved for it, and the node. *)
Definition closeSection : M (World E) unit :=
  packetWriteIndex ;;
  modify (fun w => set_writer (set_sectionLogicalLength
    (wrap64 (unusedLogicalStart_ (imf w) - sectionHeaderLogicalStart_ (writer w)))) w) ;;
  w <- get ;;
  let header :=
    {| sectionId := COMPRESSED_VECTOR_SECTION;
       sectionLogicalLength := sectionLogicalLength_ (writer w);
       dataPhysicalOffset := dataPhysicalOffset_ (writer w);
       indexPhysicalOffset := topIndexPhysicalOffset_ (writer w) |} in
  (if VALIDATE_BASIC && negb (sectionHeaderVerify header (imf w))
   then throw ErrorBadCVHeader else ret tt) ;;
  seek (sectionHeaderLogicalStart_ (writer w)) ;;
  file_write (BSectionHeader header) sizeof_CompressedVectorSectionHeader ;;
  modify (set_cVector (setRecordCount (recordCount_ (writer w)))) ;;
  modify (set_cVector (setBinarySectionLogicalStart (sectionHeaderLogicalStart_ (writer w)))) ;;
  modify_writer (set_bytestreams []).

Definition close (fuel : nat) : M (World E) unit :=
  decrWriterCount ;;
  checkImageFileOpen ;;
  w <- get ;;
  if negb (isOpen_ (writer w)) then ret tt
  else
    modify_writer (set_isOpen false) ;;
    flush ;;
    drain fuel ;;
    closeSection.

Definition isOpen (w : World E) : bool := isOpen_ (writer w).

(** [std::sort] with [SortByBytestreamNumber]. *)
Fixpoint insertByBytestreamNumber (e : E) (l : list E) : list E :=
  match l with
  | [] => [e]
  | x :: l' => if bytestreamNumber e <? bytestreamNumber x then e :: x :: l'
               else x :: insertByBytestreamNumber e l'
  end.

Definition sort (l : list E) : list E :=
  fold_right insertByBytestreamNumber [] l.

(** The loop of the constructor that makes one encoder per buffer
    (lines 72-93). *)
Fixpoint makeEncoders (sbufs : list SourceDestBuffer) : M (World E) unit :=
  match sbufs with
  | [] => ret tt
  | sbuf :: rest =>
      b <- impl sbuf ;;
      w <- get ;;
      match findTerminalPosition (terminals (proto_ (writer w))) (pathName b) 0 with
      | None => throw ErrorInternal
      | Some bytestreamNumber =>
          modify_writer (fun wr =>
            set_bytestreams
              (bytestreams_ wr ++
               [EncoderFactory (wrap32 bytestreamNumber) (proto_ wr) sbuf (pathName b)]) wr) ;;
          makeEncoders rest
      end
  end.

Fixpoint numberedFrom (i : Z) (l : list E) : bool :=
  match l with
  | [] => true
  | e :: l' => (bytestreamNumber e =? i) && numberedFrom (i + 1) l'
  end.

(** The state of the members before the body of the constructor runs:
    [cVector_( ni ), isOpen_( false )]. *)
Definition blankWriter : Writer E :=
  {| isOpen_ := false; sbufs_ := []; bytestreams_ := [];
     proto_ := {| terminals := [] |};
     dataPacket_ := {| header := DataPacketHeader_reset; bsbLength := [];
                       payload := []; padding := 0 |};
     sectionHeaderLogicalStart_ := 0; sectionLogicalLength_ := 0;
     dataPhysicalOffset_ := 0; topIndexPhysicalOffset_ := 0;
     recordCount_ := 0; dataPacketsCount_ := 0; indexPacketsCount_ := 0 |}.

Definition CompressedVectorWriterImpl (sbufs : list SourceDestBuffer) : M (World E) unit :=
  modify_writer (fun _ => blankWriter) ;;
  (if size sbufs =? 0 then throw ErrorBadAPIArgument else ret tt) ;;
  modify (fun w => set_writer (set_proto (prototype (cVector_ w))) w) ;;
  setBuffers sbufs ;;
  w <- get ;;
  makeEncoders (sbufs_ (writer w)) ;;
  modify_writer (fun wr => set_bytestreams (sort (bytestreams_ wr)) wr) ;;
  w <- get ;;
  (if VALIDATION_DEEP && negb (numberedFrom 0 (bytestreams_ (writer w)))
   then throw ErrorInternal else ret tt) ;;
  start <- allocateSpace sizeof_CompressedVectorSectionHeader true ;;
  modify_writer (set_sectionHeaderLogicalStart start) ;;
  modify_writer (set_sectionLogicalLength 0) ;;
  modify_writer (set_dataPhysicalOffset 0) ;;
  modify_writer (set_topIndexPhysicalOffset 0) ;;
  modify_writer (set_recordCount 0) ;;
  modify_writer (set_dataPacketsCount 0) ;;
  modify_writer (set_indexPacketsCount 0) ;;
  incrWriterCount ;;
  modify_writer (set_isOpen true).

End WriterImpl.

(* ===================================================================== *)
(** * An encoder and a host to run the writer on

    A bit-packing encoder in the manner of [BitpackIntegerEncoder]: the
    low bits of each value go into a register, which spills whole bytes
    into the output buffer; flushing pads what is left to a byte. *)
(* ===================================================================== *)

Module Bitpack.

Record Encoder : Type := {
  bytestreamNumber_ : Z;
  sourceBuffer_ : SourceDestBuffer;
  bitsPerRecord_ : Z;
  currentRecordIndex_ : Z;
  register_ : Z;
  registerBitsUsed_ : Z;
  outBuffer_ : list byte
}.

Fixpoint spill (fuel : nat) (reg used : Z) (out : list byte) : Z * Z * list byte :=
  match fuel with
  | O => (reg, used, out)
  | S fuel' =>
      if 8 <=? used then spill fuel' (reg / 256) (used - 8) (out ++ [reg mod 256])
      else (reg, used, out)
  end.

Definition processRecord (e : Encoder) (st : Store) : Outcome unit * Encoder * Store :=
  match nth_error st (sourceBuffer_ e) with
  | None => (Undefined, e, st)
  | Some b =>
      if capacity b <=? nextIndex b then (Throws ErrorInternal, e, st)
      else
        let v := nth (Z.to_nat (nextIndex b)) (contents b) 0 in
        let reg := register_ e + (v mod 2 ^ bitsPerRecord_ e) * 2 ^ registerBitsUsed_ e in
        let used := registerBitsUsed_ e + bitsPerRecord_ e in
        let '(reg', used', out') := spill (Z.to_nat (used / 8)) reg used (outBuffer_ e) in
        (Returns tt,
         {| bytestreamNumber_ := bytestreamNumber_ e;
            sourceBuffer_ := sourceBuffer_ e;
            bitsPerRecord_ := bitsPerRecord_ e;
            currentRecordIndex_ := currentRecordIndex_ e + 1;
            register_ := reg'; registerBitsUsed_ := used'; outBuffer_ := out' |},
         update_nth (sourceBuffer_ e) (set_nextIndex (nextIndex b + 1)) st)
  end.

Fixpoint processRecords (n : nat) (e : Encoder) (st : Store) : Outcome unit * Encoder * Store :=
  match n with
  | O => (Returns tt, e, st)
  | S n' =>
      match processRecord e st with
      | (Returns _, e', st') => processRecords n' e' st'
      | r => r
      end
  end.

Definition outputRead (e : Encoder) (byteCount : Z) : Outcome (list byte) * Encoder :=
  if Z.of_nat (length (outBuffer_ e)) <? byteCount then (Throws ErrorInternal, e)
  else
    (Returns (firstn (Z.to_nat byteCount) (outBuffer_ e)),
     {| bytestreamNumber_ := bytestreamNumber_ e;
        sourceBuffer_ := sourceBuffer_ e;
        bitsPerRecord_ := bitsPerRecord_ e;
        currentRecordIndex_ := currentRecordIndex_ e;
        register_ := register_ e; registerBitsUsed_ := registerBitsUsed_ e;
        outBuffer_ := skipn (Z.to_nat byteCount) (outBuffer_ e) |}).

Definition registerFlushToOutput (e : Encoder) : Encoder :=
  if 0 <? registerBitsUsed_ e
  then {| bytestreamNumber_ := bytestreamNumber_ e;
          sourceBuffer_ := sourceBuffer_ e;
          bitsPerRecord_ := bitsPerRecord_ e;
          currentRecordIndex_ := currentRecordIndex_ e;
          register_ := 0; registerBitsUsed_ := 0;
          outBuffer_ := outBuffer_ e ++ [register_ e mod 256] |}
  else e.

Fixpoint bitsOf (ts : list (string * Z)) (path : string) : Z :=
  match ts with
  | [] => 8
  | t :: ts' => if String.eqb path (fst t) then snd t else bitsOf ts' path
  end.

Definition EncoderFactory (bytestreamNumber : Z) (proto : Prototype)
  (sbuf : SourceDestBuffer) (codecPath : string) : Encoder :=
  {| bytestreamNumber_ := bytestreamNumber;
     sourceBuffer_ := sbuf;
     bitsPerRecord_ := bitsOf (terminals proto) codecPath;
     currentRecordIndex_ := 0;
     register_ := 0; registerBitsUsed_ := 0; outBuffer_ := [] |}.

End Bitpack.

#[export] Instance BitpackEncoder : Encoder Bitpack.Encoder := {|
  bytestreamNumber := Bitpack.bytestreamNumber_;
  currentRecordIndex := Bitpack.currentRecordIndex_;
  processRecords := fun e n st => Bitpack.processRecords (Z.to_nat n) e st;
  outputAvailable := fun e => Z.of_nat (length (Bitpack.outBuffer_ e));
  outputRead := Bitpack.outputRead;
  registerFlushToOutput := Bitpack.registerFlushToOutput;
  EncoderFactory := Bitpack.EncoderFactory
|}.

(** A host with basic validation on and the page layout of [CheckedFile]:
    1020 logical bytes to a physical page of 1024. *)
Definition pagedHost (validate : bool) : Host := {|
  VALIDATE_BASIC := validate;
  VALIDATION_DEEP := validate;
  E57_WRITE_CRAZY_PACKET_MODE := false;
  logicalToPhysical := fun logical => logical / 1020 * 1024 + logical mod 1020;
  sectionHeaderVerify := fun h _ =>
    sizeof_CompressedVectorSectionHeader <=? sectionLogicalLength h
|}.

Module Sample.

Definition buffer (path : string) (cap : Z) (vals : list Z) : SourceDestBufferImpl :=
  {| pathName := path; memoryRepresentation := 0; stride := 4; capacity := cap;
     nextIndex := 0; contents := vals |}.

Definition emptyFile : ImageFileImpl :=
  {| unusedLogicalStart_ := 48; writerCount_ := 0;
     file_ := {| position := 0; events := [] |} |}.

(** A world before the constructor runs: the node with its prototype, the
    image file, and the caller's buffers. *)
Definition world (ts : list (string * Z)) (st : Store) : World Bitpack.Encoder :=
  {| writer := @blankWriter Bitpack.Encoder;
     cVector_ := {| prototype := {| terminals := ts |}; recordCount := 0;
                    binarySectionLogicalStart := 0 |};
     imf := emptyFile;
     store := st |}.

Definition oneField : World Bitpack.Encoder :=
  world [("x"%string, 8)] [buffer "x" 10 [1; 2; 3; 4; 5; 6; 7; 8; 9; 10]].

Definition twoFields : World Bitpack.Encoder :=
  world [("x"%string, 8); ("y"%string, 4)]
        [buffer "x" 10 [1; 2; 3; 4; 5; 6; 7; 8; 9; 10]; buffer "y" 5 [1; 2; 3; 4; 5]].

End Sample.

(* ===================================================================== *)
(** * The vocabulary of the properties *)
(* ===================================================================== *)

Section Observations.
Context {S : Type}.

(** [m] leaves the observation [obs] of the state alone, however it ends. *)
Definition preserves {X A} (obs : S -> X) (m : M S A) : Prop :=
  forall s, obs (snd (m s)) = obs s.

Definition isReturn {A} (o : Outcome A) : Prop :=
  match o with Returns _ => True | _ => False end.

End Observations.

(** A call has ended when it has returned or thrown. *)
Definition ended {A} (o : Outcome A) : Prop :=
  match o with
  | Returns _ | Throws _ => True
  | Undefined | Diverges => False
  end.

(** Everything of the world but the encoders, the scratch packet and the
    store. *)
Record Core : Type := {
  c_cVector : CompressedVectorNodeImpl;
  c_imf : ImageFileImpl;
  c_isOpen : bool;
  c_proto : Prototype;
  c_sbufs : list SourceDestBuffer;
  c_sectionHeaderLogicalStart : Z;
  c_sectionLogicalLength : Z;
  c_dataPhysicalOffset : Z;
  c_topIndexPhysicalOffset : Z;
  c_recordCount : Z;
  c_dataPacketsCount : Z;
  c_indexPacketsCount : Z
}.

Definition core {E} (w : World E) : Core :=
  {| c_cVector := cVector_ w;
     c_imf := imf w;
     c_isOpen := isOpen_ (writer w);
     c_proto := proto_ (writer w);
     c_sbufs := sbufs_ (writer w);
     c_sectionHeaderLogicalStart := sectionHeaderLogicalStart_ (writer w);
     c_sectionLogicalLength := sectionLogicalLength_ (writer w);
     c_dataPhysicalOffset := dataPhysicalOffset_ (writer w);
     c_topIndexPhysicalOffset := topIndexPhysicalOffset_ (writer w);
     c_recordCount := recordCount_ (writer w);
     c_dataPacketsCount := dataPacketsCount_ (writer w);
     c_indexPacketsCount := indexPacketsCount_ (writer w) |}.

Definition setRecordsCore (v : Z) (c : Core) : Core :=
  {| c_cVector := c_cVector c; c_imf := c_imf c; c_isOpen := c_isOpen c;
     c_proto := c_proto c;
     c_sbufs := c_sbufs c;
     c_sectionHeaderLogicalStart := c_sectionHeaderLogicalStart c;
     c_sectionLogicalLength := c_sectionLogicalLength c;
     c_dataPhysicalOffset := c_dataPhysicalOffset c;
     c_topIndexPhysicalOffset := c_topIndexPhysicalOffset c;
     c_recordCount := v;
     c_dataPacketsCount := c_dataPacketsCount c;
     c_indexPacketsCount := c_indexPacketsCount c |}.

Definition setSbufsCore (v : list SourceDestBuffer) (c : Core) : Core :=
  {| c_cVector := c_cVector c; c_imf := c_imf c; c_isOpen := c_isOpen c;
     c_proto := c_proto c; c_sbufs := v;
     c_sectionHeaderLogicalStart := c_sectionHeaderLogicalStart c;
     c_sectionLogicalLength := c_sectionLogicalLength c;
     c_dataPhysicalOffset := c_dataPhysicalOffset c;
     c_topIndexPhysicalOffset := c_topIndexPhysicalOffset c;
     c_recordCount := c_recordCount c;
     c_dataPacketsCount := c_dataPacketsCount c;
     c_indexPacketsCount := c_indexPacketsCount c |}.

(** The packet [packetWriteZeroRecords] lays out: the header and two
    bytes of padding. *)
Definition zeroRecordsPacket : DataPacket :=
  {| header := {| packetType := DATA_PACKET; packetFlags := 0;
                  packetLogicalLengthMinus1 := 7; bytestreamCount := 0 |};
     bsbLength := []; payload := []; padding := 2 |}.

(** The index packet [packetWriteIndex] writes. *)
Definition theIndexPacket (c : Core) : IndexPacket :=
  {| ip_packetType := INDEX_PACKET;
     ip_packetLogicalLengthMinus1 := 31;
     ip_entryCount := 1;
     entries := [ {| chunkRecordNumber := 0;
                     chunkPhysicalOffset := c_dataPhysicalOffset c |} ] |}.

(** The section header [close] writes, from the core after the index
    packet. *)
Definition theSectionHeader (c : Core) : CompressedVectorSectionHeader :=
  {| sectionId := COMPRESSED_VECTOR_SECTION;
     sectionLogicalLength :=
       wrap64 (unusedLogicalStart_ (c_imf c) - c_sectionHeaderLogicalStart c);
     dataPhysicalOffset := c_dataPhysicalOffset c;
     indexPhysicalOffset := c_topIndexPhysicalOffset c |}.

(** The core after the section header has been written and the node
    told, from the core after the index packet. *)
Definition headerCore (c : Core) : Core :=
  let start := c_sectionHeaderLogicalStart c in
  {| c_cVector := setBinarySectionLogicalStart start
                    (setRecordCount (c_recordCount c) (c_cVector c));
     c_imf := {| unusedLogicalStart_ := unusedLogicalStart_ (c_imf c);
                 writerCount_ := writerCount_ (c_imf c);
                 file_ := {| position := wrap64 (start + 32);
                             events := EvWrite start (BSectionHeader (theSectionHeader c)) 32
                                       :: events (file_ (c_imf c)) |} |};
     c_isOpen := c_isOpen c;
     c_proto := c_proto c;
     c_sbufs := c_sbufs c;
     c_sectionHeaderLogicalStart := start;
     c_sectionLogicalLength :=
       wrap64 (unusedLogicalStart_ (c_imf c) - c_sectionHeaderLogicalStart c);
     c_dataPhysicalOffset := c_dataPhysicalOffset c;
     c_topIndexPhysicalOffset := c_topIndexPhysicalOffset c;
     c_recordCount := c_recordCount c;
     c_dataPacketsCount := c_dataPacketsCount c;
     c_indexPacketsCount := c_indexPacketsCount c |}.

(** The core once [close] has decremented the writer count and marked
    the writer closed. *)
Definition closingCore (c : Core) : Core :=
  {| c_cVector := c_cVector c;
     c_imf := {| unusedLogicalStart_ := unusedLogicalStart_ (c_imf c);
                 writerCount_ := writerCount_ (c_imf c) - 1;
                 file_ := file_ (c_imf c) |};
     c_isOpen := false;
     c_proto := c_proto c;
     c_sbufs := c_sbufs c;
     c_sectionHeaderLogicalStart := c_sectionHeaderLogicalStart c;
     c_sectionLogicalLength := c_sectionLogicalLength c;
     c_dataPhysicalOffset := c_dataPhysicalOffset c;
     c_topIndexPhysicalOffset := c_topIndexPhysicalOffset c;
     c_recordCount := c_recordCount c;
     c_dataPacketsCount := c_dataPacketsCount c;
     c_indexPacketsCount := c_indexPacketsCount c |}.

(** The core the constructor leaves. *)
Definition openedCore (sbufs : list SourceDestBuffer) (c0 : Core) : Core :=
  let start := unusedLogicalStart_ (c_imf c0) in
  {| c_cVector := c_cVector c0;
     c_imf := {| unusedLogicalStart_ := wrap64 (start + 32);
                 writerCount_ := writerCount_ (c_imf c0) + 1;
                 file_ := extend (wrap64 (start + 32)) (file_ (c_imf c0)) |};
     c_isOpen := true;
     c_proto := prototype (c_cVector c0);
     c_sbufs := sbufs;
     c_sectionHeaderLogicalStart := start;
     c_sectionLogicalLength := 0;
     c_dataPhysicalOffset := 0;
     c_topIndexPhysicalOffset := 0;
     c_recordCount := 0;
     c_dataPacketsCount := 0;
     c_indexPacketsCount := 0 |}.

(** The calls of the public interface that write. *)
Inductive Call : Type :=
| CallWrite (fuel : nat) (requestedRecordCount : Z)
| CallWrite2 (fuel : nat) (sbufs : list SourceDestBuffer) (requestedRecordCount : Z).

Definition requested (c : Call) : Z :=
  match c with
  | CallWrite _ n => n
  | CallWrite2 _ _ n => n
  end.

(** The records asked for by the calls that returned, newest call first. *)
Fixpoint recordsWritten (h : list (Call * Outcome unit)) : Z :=
  match h with
  | [] => 0
  | (c, Returns _) :: h' => requested c + recordsWritten h'
  | _ :: h' => recordsWritten h'
  end.

(** Whether some call [write( 0 )] has returned. *)
Fixpoint wroteZeroRecords (h : list (Call * Outcome unit)) : bool :=
  match h with
  | [] => false
  | (c, Returns _) :: h' => (requested c =? 0) || wroteZeroRecords h'
  | _ :: h' => wroteZeroRecords h'
  end.

(** The offsets of the data packets among the events, oldest first, and
    the index packets among them. *)
Fixpoint dataPacketOffsets (evs : list FileEvent) : list Z :=
  match evs with
  | [] => []
  | EvWrite off (BDataPacket _) _ :: evs' => dataPacketOffsets evs' ++ [off]
  | _ :: evs' => dataPacketOffsets evs'
  end.

Fixpoint indexPacketOffsets (evs : list FileEvent) : list Z :=
  match evs with
  | [] => []
  | EvWrite off (BIndexPacket _) _ :: evs' => indexPacketOffsets evs' ++ [off]
  | _ :: evs' => indexPacketOffsets evs'
  end.

Section Vocabulary.
Context {E : Type} `{Encoder E} `{Host}.

(** The core after one data packet [pkt] of [len] bytes has been put at
    the frontier of the file. *)
Definition emitCore (pkt : DataPacket) (len : Z) (c : Core) : Core :=
  let start := unusedLogicalStart_ (c_imf c) in
  {| c_cVector := c_cVector c;
     c_imf := {| unusedLogicalStart_ := wrap64 (start + len);
                 writerCount_ := writerCount_ (c_imf c);
                 file_ := {| position := wrap64 (start + len);
                             events := EvWrite start (BDataPacket pkt) len
                                       :: events (file_ (c_imf c)) |} |};
     c_isOpen := c_isOpen c;
     c_proto := c_proto c;
     c_sbufs := c_sbufs c;
     c_sectionHeaderLogicalStart := c_sectionHeaderLogicalStart c;
     c_sectionLogicalLength := c_sectionLogicalLength c;
     c_dataPhysicalOffset :=
       if c_dataPacketsCount c =? 0 then logicalToPhysical start
       else c_dataPhysicalOffset c;
     c_topIndexPhysicalOffset := c_topIndexPhysicalOffset c;
     c_recordCount := c_recordCount c;
     c_dataPacketsCount := wrap64 (c_dataPacketsCount c + 1);
     c_indexPacketsCount := c_indexPacketsCount c |}.

(** [Emits c c']: the core [c'] is [c] after some data packets have been
    put into the file, one after the other. *)
Inductive Emits : Core -> Core -> Prop :=
| Emits_refl c : Emits c c
| Emits_step c c' pkt len : Emits c c' -> Emits c (emitCore pkt len c').

(** The core after [packetWriteIndex]. *)
Definition indexCore (c : Core) : Core :=
  let start := unusedLogicalStart_ (c_imf c) in
  {| c_cVector := c_cVector c;
     c_imf := {| unusedLogicalStart_ := wrap64 (start + 32);
                 writerCount_ := writerCount_ (c_imf c);
                 file_ := {| position := wrap64 (start + 32);
                             events := EvWrite start (BIndexPacket (theIndexPacket c)) 32
                                       :: events (file_ (c_imf c)) |} |};
     c_isOpen := c_isOpen c;
     c_proto := c_proto c;
     c_sbufs := c_sbufs c;
     c_sectionHeaderLogicalStart := c_sectionHeaderLogicalStart c;
     c_sectionLogicalLength := c_sectionLogicalLength c;
     c_dataPhysicalOffset := c_dataPhysicalOffset c;
     c_topIndexPhysicalOffset := logicalToPhysical start;
     c_recordCount := c_recordCount c;
     c_dataPacketsCount := c_dataPacketsCount c;
     c_indexPacketsCount := wrap64 (c_indexPacketsCount c + 1) |}.

(** The world in which the drain loop of [close] starts. *)
Definition closing (w : World E) : World E :=
  set_writer (fun wr => set_bytestreams (map registerFlushToOutput (bytestreams_ wr)) wr)
    (set_writer (set_isOpen false)
       (set_imf (fun i => {| unusedLogicalStart_ := unusedLogicalStart_ i;
                             writerCount_ := writerCount_ i - 1;
                             file_ := file_ i |}) w)).

(** All of the world the encoders and the scratch packet are not. *)
Definition shell (w : World E) : Core * Store := (core w, store w).

Definition call (c : Call) : M (World E) unit :=
  match c with
  | CallWrite fuel n => write fuel n
  | CallWrite2 fuel sbufs n => write2 fuel sbufs n
  end.

(** [History w0 h w]: the constructor has returned in the world [w0],
    and the calls of [h], newest first, have led to [w]. *)
Inductive History (w0 : World E) : list (Call * Outcome unit) -> World E -> Prop :=
| History_new sbufs w1 :
    CompressedVectorWriterImpl sbufs w0 = (Returns tt, w1) ->
    History w0 [] w1
| History_call h w c o w' :
    History w0 h w -> call c w = (o, w') -> ended o ->
    History w0 ((c, o) :: h) w'.

(** The physical offset of the first of the data packets, 0 without. *)
Definition firstPhysicalOffset (offsets : list Z) : Z :=
  match offsets with
  | [] => 0
  | off :: _ => logicalToPhysical off
  end.

(** What the counters of an open writer say about the events [recent]
    of the file since the constructor. *)
Definition Section_ok (recent : list FileEvent) (c : Core) : Prop :=
  indexPacketOffsets recent = []
  /\ c_indexPacketsCount c = 0
  /\ (Z.of_nat (length (dataPacketOffsets recent)) < 2 ^ 64 ->
      c_dataPacketsCount c = Z.of_nat (length (dataPacketOffsets recent))
      /\ c_dataPhysicalOffset c = firstPhysicalOffset (dataPacketOffsets recent)).

(** The core of an open writer, with the events [base] of the file from
    before the constructor; [wz] says that a data packet has to be there. *)
Definition Live_ok (base : list FileEvent) (start : Z) (wz : bool) (c : Core) : Prop :=
  exists recent,
    events (file_ (c_imf c)) = recent ++ base
    /\ Section_ok recent c
    /\ c_sbufs c <> []
    /\ c_sectionHeaderLogicalStart c = start
    /\ (wz = true -> dataPacketOffsets recent <> []).

End Vocabulary.

Section Acceptance.
Context {E : Type}.

(** What [setBuffers] checks, as functions of the store: the buffers at
    the handles are pairwise compatible, and the path names of the new
    buffers. *)
Fixpoint compatibleAll (st : Store) (olds news : list SourceDestBuffer) : bool :=
  match olds, news with
  | o :: olds', n :: news' =>
      match nth_error st o, nth_error st n with
      | Some oldbuf, Some newBuf =>
          checkCompatible oldbuf newBuf && compatibleAll st olds' news'
      | _, _ => false
      end
  | _, _ => true
  end.

Fixpoint pathNamesIn (st : Store) (sbufs : list SourceDestBuffer) : option (list string) :=
  match sbufs with
  | [] => Some []
  | b :: sbufs' =>
      match nth_error st b, pathNamesIn st sbufs' with
      | Some i, Some rest => Some (pathName i :: rest)
      | _, _ => None
      end
  end.

(** The new buffers are ones [setBuffers] accepts in place of the bound
    ones: as many, pairwise compatible, and matching the prototype. *)
Definition accepted (w : World E) (sbufs : list SourceDestBuffer) : bool :=
  (length (sbufs_ (writer w)) =? length sbufs)%nat
  && compatibleAll (store w) (sbufs_ (writer w)) sbufs
  && match pathNamesIn (store w) sbufs with
     | Some paths => checkBuffers (proto_ (writer w)) paths
     | None => false
     end.

End Acceptance.

(** What the return type [size_t] of [outputAvailable] says. *)
Class EncoderLaws (E : Type) `{Encoder E} : Prop := {
  outputAvailable_nonneg : forall e : E, 0 <= outputAvailable e
}.

#[export] Instance BitpackEncoderLaws : EncoderLaws Bitpack.Encoder.
Proof. constructor. intros e. simpl. apply Nat2Z.is_nonneg. Qed.

Section PacketVocabulary.
Context {E : Type} `{Encoder E}.

(** [cPacketMaxPayloadBytes] as a number, before it is taken in
    [size_t]. *)
Definition maxPayload (wr : Writer E) : Z :=
  DATA_PACKET_MAX - sizeof_DataPacketHeader - size (bytestreams_ wr) * sizeof_uint16_t.

Definition available (wr : Writer E) : list Z := map outputAvailable (bytestreams_ wr).

End PacketVocabulary.

Module Stuck.

(** A record of [n] fields of eight bits, and one record of it in the
    buffers of the caller. *)
Definition fieldName (i : nat) : string :=
  String.append "f" (NilZero.string_of_uint (Nat.to_uint i)).

Definition fields (n : nat) : list (string * Z) :=
  map (fun i => (fieldName i, 8)) (seq 0 n).

Definition buffers (n : nat) (next : Z) : Store :=
  map (fun i => set_nextIndex next (Sample.buffer (fieldName i) 1 [1])) (seq 0 n).

(** The world before the constructor runs. *)
Definition before (n : nat) : World Bitpack.Encoder :=
  Sample.world (fields n) (buffers n 0).

(** The encoders once the record has been written: each holds the one
    byte of its field. *)
Definition streams (n : nat) : list Bitpack.Encoder :=
  map (fun i =>
         {| Bitpack.bytestreamNumber_ := Z.of_nat i;
            Bitpack.sourceBuffer_ := i;
            Bitpack.bitsPerRecord_ := 8;
            Bitpack.currentRecordIndex_ := 1;
            Bitpack.register_ := 0;
            Bitpack.registerBitsUsed_ := 0;
            Bitpack.outBuffer_ := [1] |})
      (seq 0 n).

(** The world after the constructor and [write( 1 )] have returned. *)
Definition written (n : nat) : World Bitpack.Encoder :=
  {| writer :=
       {| isOpen_ := true;
          sbufs_ := seq 0 n;
          bytestreams_ := streams n;
          proto_ := {| terminals := fields n |};
          dataPacket_ := {| header := DataPacketHeader_reset; bsbLength := [];
                            payload := []; padding := 0 |};
          sectionHeaderLogicalStart_ := 48; sectionLogicalLength_ := 0;
          dataPhysicalOffset_ := 0; topIndexPhysicalOffset_ := 0;
          recordCount_ := 1; dataPacketsCount_ := 0; indexPacketsCount_ := 0 |};
     cVector_ := {| prototype := {| terminals := fields n |}; recordCount := 0;
                    binarySectionLogicalStart := 0 |};
     imf := {| unusedLogicalStart_ := 80; writerCount_ := 1;
               file_ := {| position := 0; events := [EvExtend 80] |} |};
     store := buffers n 1 |}.

(** As many fields as it takes: with 21844 streams [maxPayload] is
    21842, below the 21844 bytes the streams hold. *)
Definition many : nat := Z.to_nat 21844.

End Stuck.

(** The host the examples run on: basic validation on. *)
Definition sampleHost : Host := pagedHost true.

Module Example.

(** A writer over one field, opened; after [write( 3 )]; closed. *)
Definition opened : World Bitpack.Encoder :=
  snd (@CompressedVectorWriterImpl _ _ sampleHost [0%nat] Sample.oneField).

Definition wrote3 : World Bitpack.Encoder :=
  snd (@write _ _ sampleHost 100 3 opened).

Definition closed : World Bitpack.Encoder :=
  snd (@close _ _ sampleHost 100 wrote3).

(** A writer over two fields whose buffers hold 10 and 5 records. *)
Definition opened2 : World Bitpack.Encoder :=
  snd (@CompressedVectorWriterImpl _ _ sampleHost [0%nat; 1%nat] Sample.twoFields).

(** A writer with four streams that hold 30000 bytes each, and one with
    two streams that hold 277 and 100000 bytes. *)
Definition holding (n : Z) (bytes : nat) : Bitpack.Encoder :=
  {| Bitpack.bytestreamNumber_ := n;
     Bitpack.sourceBuffer_ := Z.to_nat n;
     Bitpack.bitsPerRecord_ := 8;
     Bitpack.currentRecordIndex_ := Z.of_nat bytes;
     Bitpack.register_ := 0;
     Bitpack.registerBitsUsed_ := 0;
     Bitpack.outBuffer_ := repeat 0 bytes |}.

Definition fourStreams : Writer Bitpack.Encoder :=
  set_bytestreams
    [holding 0 (Z.to_nat 30000); holding 1 (Z.to_nat 30000);
     holding 2 (Z.to_nat 30000); holding 3 (Z.to_nat 30000)]
    (@blankWriter Bitpack.Encoder).

Definition twoStreams : Writer Bitpack.Encoder :=
  set_bytestreams [holding 0 (Z.to_nat 277); holding 1 (Z.to_nat 100000)]
    (@blankWriter Bitpack.Encoder).

End Example.

Module Example2.

(** The writer over one field after [write( 0 )], and closed after it. *)
Definition wrote0 : World Bitpack.Encoder :=
  snd (@write _ _ sampleHost 100 0 Example.opened).

Definition closed0 : World Bitpack.Encoder :=
  snd (@close _ _ sampleHost 100 wrote0).

(** The writer over one field closed without a call of [write]. *)
Definition closedAtOnce : World Bitpack.Encoder :=
  snd (@close _ _ sampleHost 100 Example.opened).

End Example2.

(* ===================================================================== *)
(** * The rest of the class *)
(* ===================================================================== *)

Section RestOfClass.
Context {E : Type} `{Encoder E} `{Host}.

(** [~CompressedVectorWriterImpl] (lines 134-151): [close] when the writer
    is open, with every exception caught and dropped. *)
Definition CompressedVectorWriterImpl_destructor (fuel : nat) : M (World E) unit :=
  fun w =>
    if isOpen_ (writer w)
    then match close fuel w with
         | (Throws _, w') => (Returns tt, w')
         | r => r
         end
    else (Returns tt, w).

(** [compressedVectorNode] *)
Definition compressedVectorNode (w : World E) : CompressedVectorNodeImpl := cVector_ w.

(** The world in which the constructor calls [setBuffers]: the members
    initialised and the prototype fetched from the node. *)
Definition constructing (w0 : World E) : World E :=
  set_writer (set_proto (prototype (cVector_ w0))) (set_writer (fun _ => blankWriter) w0).

(** What a constructor that fails must leave alone. *)
Definition outside (w : World E) : bool * ImageFileImpl * CompressedVectorNodeImpl * Store :=
  (isOpen_ (writer w), imf w, cVector_ w, store w).

(** The order [SortByBytestreamNumber] sorts into. *)
Definition byBytestreamNumber (a b : E) : Prop := bytestreamNumber a <= bytestreamNumber b.

End RestOfClass.

(** The events that put a data packet into the file. *)
Definition isDataPacket (ev : FileEvent) : Prop :=
  match ev with
  | EvWrite _ (BDataPacket _) _ => True
  | _ => False
  end.

(** [Packed start evs frontier]: the writes [evs], newest first, lie back
    to back in the file from [start] up to [frontier]. *)
Inductive Packed (start : Z) : list FileEvent -> Z -> Prop :=
| Packed_nil : Packed start [] start
| Packed_cons evs frontier b len :
    Packed start evs frontier ->
    Packed start (EvWrite frontier b len :: evs) (wrap64 (frontier + len)).

Section ExampleRuns.
Existing Instance sampleHost.

(** The constructor refused: one buffer for a prototype of two fields. *)
Definition refused : World Bitpack.Encoder :=
  snd (CompressedVectorWriterImpl [0%nat] Sample.twoFields).

(** The writer over two fields, opened with the buffers in the order
    [y], [x]. *)
Definition openedBackwards : World Bitpack.Encoder :=
  snd (CompressedVectorWriterImpl [1%nat; 0%nat] Sample.twoFields).

(** The writer over one field after [setBuffers] with its own buffer. *)
Definition rebound : World Bitpack.Encoder :=
  snd (setBuffers [0%nat] Example.opened).

(** The writer over one field, three records written, when the drain
    loop of [close] has returned, and after one [packetWrite]. *)
Definition drained : World Bitpack.Encoder :=
  snd (drain 100 (closing Example.wrote3)).

Definition sent : World Bitpack.Encoder :=
  snd (packetWrite Example.wrote3).

Definition sentPacket : DataPacket :=
  {| header := {| packetType := 1; packetFlags := 0;
                  packetLogicalLengthMinus1 := 11; bytestreamCount := 1 |};
     bsbLength := [3]; payload := [1; 2; 3]; padding := 1 |}.

End ExampleRuns.

Section EncoderOf.
Context {E : Type} `{Encoder E}.

(** The encoder the constructor makes for the buffer [sbuf]: the one
    [EncoderFactory] gives for the position of the field the buffer names
    among the terminal fields of the prototype. *)
Definition encoderFor (st : Store) (proto : Prototype) (sbuf : SourceDestBuffer) (e : E)
  : Prop :=
  exists b pos,
    nth_error st sbuf = Some b
    /\ findTerminalPosition (terminals proto) (pathName b) 0 = Some pos
    /\ e = EncoderFactory (wrap32 pos) proto sbuf (pathName b).

End EncoderOf.

Module Wide.



End Wide.

(* ===================================================================== *)
(** * Reasoning about the monad *)
(* ===================================================================== *)

Arguments wrap : simpl never.
Arguments wrap64 : simpl never.
Arguments wrap32 : simpl never.
Arguments wrap16 : simpl never.

Section MonadFacts.
Context {S : Type}.

Lemma bind_Returns {A B} (m : M S A) (f : A -> M S B) s b s' :
  bind m f s = (Returns b, s') ->
  exists a s1, m s = (Returns a, s1) /\ f a s1 = (Returns b, s').
Proof.
  unfold bind. destruct (m s) as [[a| e | | ] s1]; intros Hb; try discriminate.
  exists a, s1. split; [reflexivity | exact Hb].
Qed.

Lemma bind_eq {A B} (m : M S A) (f : A -> M S B) s a s1 :
  m s = (Returns a, s1) -> bind m f s = f a s1.
Proof. intros Hm. unfold bind. rewrite Hm. reflexivity. Qed.

Lemma preserves_bind {X A B} (obs : S -> X) (m : M S A) (f : A -> M S B) :
  preserves obs m -> (forall a, preserves obs (f a)) -> preserves obs (bind m f).
Proof.
  intros Hm Hf s. unfold bind. specialize (Hm s).
  destruct (m s) as [[a| e | | ] s1]; simpl in *; try exact Hm.
  rewrite (Hf a s1). exact Hm.
Qed.

Lemma preserves_ret {X A} (obs : S -> X) (a : A) : preserves obs (ret a).
Proof. intros s. reflexivity. Qed.

Lemma preserves_throw {X A} (obs : S -> X) e : preserves obs (@throw S A e).
Proof. intros s. reflexivity. Qed.

Lemma preserves_undefined {X A} (obs : S -> X) : preserves obs (@undefined S A).
Proof. intros s. reflexivity. Qed.

Lemma preserves_diverge {X A} (obs : S -> X) : preserves obs (@diverge S A).
Proof. intros s. reflexivity. Qed.

Lemma preserves_get {X} (obs : S -> X) : preserves obs get.
Proof. intros s. reflexivity. Qed.

Lemma preserves_lift {X A} (obs : S -> X) (o : Outcome A) : preserves obs (lift o).
Proof. intros s. reflexivity. Qed.

Lemma preserves_modify {X} (obs : S -> X) (f : S -> S) :
  (forall s, obs (f s) = obs s) -> preserves obs (modify f).
Proof. intros Hf s. simpl. apply Hf. Qed.

Lemma preserves_if {X A} (obs : S -> X) (c : bool) (m1 m2 : M S A) :
  preserves obs m1 -> preserves obs m2 -> preserves obs (if c then m1 else m2).
Proof. destruct c; auto. Qed.

Lemma preserves_when {X} (obs : S -> X) (c : bool) (m : M S unit) :
  preserves obs m -> preserves obs (when c m).
Proof. intros Hm. unfold when. apply preserves_if; [exact Hm | apply preserves_ret]. Qed.

End MonadFacts.

Create HintDb preserves.
#[export] Hint Resolve preserves_ret preserves_throw preserves_undefined
  preserves_diverge preserves_get preserves_lift : preserves.

(** Break [preserves] down along the structure of the code. *)
Ltac preserves_step :=
  match goal with
  | |- preserves _ (bind _ _) => apply preserves_bind; [ | intros ? ]
  | |- preserves _ (if _ then _ else _) => apply preserves_if
  | |- preserves _ (when _ _) => apply preserves_when
  | |- preserves _ (modify _) => apply preserves_modify; intros ?; reflexivity
  | |- preserves _ (match ?x with _ => _ end) => destruct x
  | |- preserves _ _ => solve [ auto with preserves ]
  end.

Ltac preserves_auto := repeat preserves_step.

(* ===================================================================== *)
(** * What a call does to the section: the core of the world *)
(* ===================================================================== *)

Section CoreFacts.
Context {E : Type} `{Encoder E} `{Host}.

Lemma flush_preserves : preserves core (@flush E _).
Proof. unfold flush, modify_writer. preserves_auto. Qed.

Lemma outputReadAll_step_preserves (cStreams : list E) count p0 :
  preserves core (fun w : World E =>
    let '(o, streams') := outputReadAll cStreams count p0 in
    (o, set_writer (set_bytestreams streams') w)).
Proof. intros w. destruct (outputReadAll cStreams count p0). reflexivity. Qed.

Lemma assembleDataPacket_preserves count : preserves core (assembleDataPacket count).
Proof.
  unfold assembleDataPacket, modify_writer.
  apply preserves_bind; [auto with preserves | intros w0].
  apply preserves_bind; [preserves_auto | intros _].
  apply preserves_bind; [preserves_auto | intros _].
  apply preserves_bind; [apply outputReadAll_step_preserves | intros r].
  preserves_auto.
Qed.

Lemma commitDataPacket_spec (len : Z) (w : World E) :
  exists w',
    commitDataPacket len w
    = (Returns (logicalToPhysical (unusedLogicalStart_ (imf w))), w')
    /\ core w' = emitCore (dataPacket_ (writer w)) len (core w)
    /\ bytestreams_ (writer w') = bytestreams_ (writer w)
    /\ sbufs_ (writer w') = sbufs_ (writer w)
    /\ store w' = store w.
Proof.
  unfold commitDataPacket, bind, allocateSpace, seek, file_write, modify_writer,
    modify, get, when, ret. simpl.
  destruct (dataPacketsCount_ (writer w) =? 0) eqn:Hc; simpl;
    eexists; (split; [reflexivity | ]); unfold core, emitCore; simpl; rewrite Hc;
    repeat split.
Qed.

End CoreFacts.

Section Summaries.
Context {E : Type} `{Encoder E} `{Host}.

Lemma Emits_trans c1 c2 c3 : Emits c1 c2 -> Emits c2 c3 -> Emits c1 c3.
Proof.
  intros H12 H23. induction H23; [exact H12 | ].
  apply Emits_step. apply IHEmits. exact H12.
Qed.

Lemma Emits_eq c c' : c' = c -> Emits c c'.
Proof. intros ->. apply Emits_refl. Qed.

(** What [packetWrite] does to the core: nothing, or one packet, and
    then it returns. *)
Lemma packetWrite_cases (w w' : World E) (o : Outcome Z) :
  packetWrite w = (o, w') ->
  core w' = core w
  \/ exists count w1 len,
       countOf (writer w) = Some count
       /\ assembleDataPacket count w = (Returns len, w1)
       /\ o = Returns (logicalToPhysical (unusedLogicalStart_ (imf w)))
       /\ core w' = emitCore (dataPacket_ (writer w1)) len (core w).
Proof.
  unfold packetWrite. unfold bind at 1. simpl.
  destruct (totalOutputAvailable (writer w) =? 0);
    [intros Hr; inversion Hr; left; reflexivity | ].
  destruct (countOf (writer w)) as [count | ] eqn:Hcount;
    [ | intros Hr; inversion Hr; left; reflexivity].
  destruct (VALIDATE_BASIC && _); [intros Hr; inversion Hr; left; reflexivity | ].
  unfold bind.
  pose proof (assembleDataPacket_preserves count w) as Hpres.
  destruct (assembleDataPacket count w) as [[len | e | | ] w1] eqn:Hasm; simpl in Hpres;
    try (intros Hr; inversion Hr; subst; left; exact Hpres).
  destruct (commitDataPacket_spec len w1) as (w2 & Hrun & Hcore & _).
  rewrite Hrun. intros Hr. inversion Hr; subst. right. exists count, w1, len.
  rewrite Hcore, Hpres.
  apply (f_equal c_imf) in Hpres. simpl in Hpres. rewrite Hpres.
  split; [reflexivity | split; [exact Hasm | split; reflexivity]].
Qed.

Lemma packetWrite_emits (w : World E) : Emits (core w) (core (snd (packetWrite w))).
Proof.
  destruct (packetWrite w) as [o w'] eqn:Hr. simpl.
  destruct (packetWrite_cases _ _ _ Hr) as [Hq | (count & w1 & len & _ & _ & _ & He)].
  - apply Emits_eq. exact Hq.
  - rewrite He. apply Emits_step, Emits_refl.
Qed.

Lemma impl_preserves {X} (obs : World E -> X) sbuf : preserves obs (impl sbuf).
Proof. intros w. unfold impl. destruct (nth_error (store w) sbuf); reflexivity. Qed.

Lemma at_preserves {X A} (obs : World E -> X) (l : list A) i : preserves obs (at_ l i).
Proof. unfold at_. destruct (nth_error l i); auto with preserves. Qed.

Lemma rewind_preserves sbuf : preserves (@core E) (rewind sbuf).
Proof.
  unfold rewind. apply preserves_bind; [apply impl_preserves | intros _].
  preserves_auto.
Qed.

Lemma forEach_preserves {X A} (obs : World E -> X) (l : list A) body :
  (forall x, preserves obs (body x)) -> preserves obs (forEach l body).
Proof.
  intros Hbody. induction l as [ | x l IH]; simpl; [auto with preserves | ].
  apply preserves_bind; [apply Hbody | intros _; exact IH].
Qed.

Lemma checkCompatibleAll_preserves {X} (obs : World E -> X) olds news :
  preserves obs (checkCompatibleAll olds news).
Proof.
  revert news. induction olds as [ | o olds IH]; intros [ | n news]; simpl;
    auto with preserves.
  apply preserves_bind; [apply impl_preserves | intros oldbuf].
  apply preserves_bind; [apply impl_preserves | intros newBuf].
  apply preserves_bind; [preserves_auto | intros _]. apply IH.
Qed.

Lemma pathNames_preserves {X} (obs : World E -> X) sbufs : preserves obs (pathNames sbufs).
Proof.
  induction sbufs as [ | b sbufs IH]; simpl; auto with preserves.
  apply preserves_bind; [apply impl_preserves | intros i].
  apply preserves_bind; [exact IH | intros rest]. auto with preserves.
Qed.

Lemma processAll_step_preserves endRecordIndex :
  preserves core (fun w : World E =>
    let '(o, streams', st') :=
      processAll endRecordIndex (bytestreams_ (writer w)) (store w) in
    (o, set_store (fun _ => st') (set_writer (set_bytestreams streams') w))).
Proof.
  intros w. destruct (processAll _ _ _) as [[o streams'] st']. reflexivity.
Qed.

Lemma writeLoop_emits fuel endRecordIndex (w : World E) :
  Emits (core w) (core (snd (writeLoop fuel endRecordIndex w))).
Proof.
  revert w. induction fuel as [ | fuel IH]; intros w; simpl; [apply Emits_refl | ].
  unfold bind at 1. simpl.
  destruct (totalRecordCount _ _ =? 0); [apply Emits_refl | ].
  destruct (E57_TARGET_PACKET_SIZE <=? _).
  - unfold bind. pose proof (packetWrite_emits w) as Hp.
    destruct (packetWrite w) as [[a | e | | ] w1]; simpl in Hp; try exact Hp.
    eapply Emits_trans; [exact Hp | apply IH].
  - unfold bind. pose proof (processAll_step_preserves endRecordIndex w) as Hp.
    revert Hp. cbv beta.
    destruct (processAll _ _ _) as [[o streams'] st']. intros Hp. simpl in Hp.
    destruct o; simpl; try (apply Emits_eq; exact Hp).
    eapply Emits_trans; [apply Emits_eq; exact Hp | apply IH].
Qed.

Lemma drain_emits fuel (w : World E) : Emits (core w) (core (snd (drain fuel w))).
Proof.
  revert w. induction fuel as [ | fuel IH]; intros w; simpl; [apply Emits_refl | ].
  unfold bind at 1. simpl.
  destruct (0 <? totalOutputAvailable (writer w)); [ | apply Emits_refl].
  unfold bind. pose proof (packetWrite_emits w) as Hp.
  destruct (packetWrite w) as [[a | e | | ] w1]; simpl in Hp; try exact Hp.
  pose proof (flush_preserves w1) as Hf.
  destruct (flush w1) as [[[] | e | | ] w2] eqn:Hfl; simpl in Hf;
    try (eapply Emits_trans; [exact Hp | apply Emits_eq; exact Hf]).
  eapply Emits_trans; [exact Hp | ].
  eapply Emits_trans; [apply Emits_eq; exact Hf | apply IH].
Qed.

End Summaries.

(* ===================================================================== *)
(** * The calls, one by one *)
(* ===================================================================== *)

Section Calls.
Context {E : Type} `{Encoder E} `{Host}.

Lemma packetWriteZeroRecords_spec (w : World E) :
  exists w',
    packetWriteZeroRecords w = (Returns tt, w')
    /\ core w' = emitCore zeroRecordsPacket 8 (core w)
    /\ bytestreams_ (writer w') = bytestreams_ (writer w)
    /\ sbufs_ (writer w') = sbufs_ (writer w)
    /\ store w' = store w.
Proof.
  unfold packetWriteZeroRecords.
  change (padZeroRecords 4 (wrap32 sizeof_DataPacketHeader) 0) with (@Returns (Z * Z) (8, 2)).
  unfold bind at 1. unfold lift. cbv beta iota.
  unfold bind at 1. unfold modify_writer, modify. cbv beta iota.
  unfold bind at 1. unfold get. cbv beta iota.
  set (w1 := set_writer _ w).
  change (dataPacket_ (writer w1)) with zeroRecordsPacket.
  change (DataPacket_verify zeroRecordsPacket (fst (8, 2))) with true. cbv beta iota.
  unfold bind at 1. unfold ret at 1. cbv beta iota.
  destruct (commitDataPacket_spec 8 w1) as (w2 & Hrun & Hcore & Hbs & Hsb & Hst).
  unfold bind. change (fst (8, 2)) with 8. rewrite Hrun. cbv beta iota.
  exists w2. split; [reflexivity | ]. rewrite Hcore, Hbs, Hsb, Hst.
  repeat split.
Qed.

Lemma packetWriteIndex_spec (w : World E) :
  exists w',
    packetWriteIndex w = (Returns tt, w')
    /\ core w' = indexCore (core w)
    /\ bytestreams_ (writer w') = bytestreams_ (writer w)
    /\ sbufs_ (writer w') = sbufs_ (writer w)
    /\ store w' = store w.
Proof.
  unfold packetWriteIndex, bind, get, allocateSpace, modify_writer, modify, seek,
    file_write. cbv beta iota zeta.
  eexists. split; [reflexivity | ]. repeat split.
Qed.

Lemma closeSection_cases (w w' : World E) (o : Outcome unit) :
  closeSection w = (o, w') ->
  (o = Returns tt /\ core w' = headerCore (indexCore (core w))
   /\ bytestreams_ (writer w') = [])
  \/ (o = Throws ErrorBadCVHeader).
Proof.
  unfold closeSection.
  destruct (packetWriteIndex_spec w) as (w1 & Hrun & Hcore & _).
  rewrite (bind_eq _ _ _ _ _ Hrun).
  unfold modify_writer, modify, seek, file_write. unfold bind at 1. cbv beta iota.
  unfold bind at 1. unfold get. cbv beta iota.
  set (w2 := set_writer _ w1).
  unfold bind at 1.
  destruct (VALIDATE_BASIC && negb (sectionHeaderVerify _ (imf w2))).
  - unfold throw. intros Hr. inversion Hr. right. reflexivity.
  - unfold ret at 1. cbv beta iota. intros Hr. left.
    unfold bind, ret, set_imf, set_file, set_cVector, set_writer in Hr. simpl in Hr.
    inversion Hr; subst; clear Hr.
    split; [reflexivity | ]. split; [ | reflexivity].
    unfold core, headerCore. simpl.
    apply (f_equal (fun c => (c_cVector c, c_imf c, c_isOpen c, c_proto c, c_sbufs c,
      c_sectionHeaderLogicalStart c, c_sectionLogicalLength c, c_dataPhysicalOffset c,
      c_topIndexPhysicalOffset c, c_recordCount c, c_dataPacketsCount c,
      c_indexPacketsCount c))) in Hcore.
    simpl in Hcore. inversion Hcore as [[Hcv Himf Hopen Hproto Hsb Hstart Hlen Hdata Htop Hrec Hdp Hip]].
    rewrite Hcv, Himf, Hopen, Hproto, Hsb, Hstart, Hdata, Htop, Hrec, Hdp, Hip.
    reflexivity.
Qed.

End Calls.

Section MoreMonadFacts.
Context {S : Type}.

Lemma bind_cases {A B} (m : M S A) (f : A -> M S B) s o s' :
  bind m f s = (o, s') ->
  (exists a s1, m s = (Returns a, s1) /\ f a s1 = (o, s'))
  \/ (snd (m s) = s' /\ ~ isReturn o /\ ~ isReturn (fst (m s))).
Proof.
  unfold bind. destruct (m s) as [[a | e | | ] s1]; intros Hb.
  - left. exists a, s1. split; [reflexivity | exact Hb].
  - right. inversion Hb; subst. simpl. auto.
  - right. inversion Hb; subst. simpl. auto.
  - right. inversion Hb; subst. simpl. auto.
Qed.

Lemma preserves_run {X A} (obs : S -> X) (m : M S A) s o s' :
  preserves obs m -> m s = (o, s') -> obs s' = obs s.
Proof. intros Hp Hm. specialize (Hp s). rewrite Hm in Hp. exact Hp. Qed.

End MoreMonadFacts.

Section CallSummaries.
Context {E : Type} `{Encoder E} `{Host}.

Lemma Emits_fields c c' :
  Emits c c' ->
  c_recordCount c' = c_recordCount c
  /\ c_isOpen c' = c_isOpen c
  /\ c_sectionHeaderLogicalStart c' = c_sectionHeaderLogicalStart c
  /\ c_indexPacketsCount c' = c_indexPacketsCount c
  /\ c_cVector c' = c_cVector c
  /\ c_proto c' = c_proto c
  /\ c_sbufs c' = c_sbufs c
  /\ writerCount_ (c_imf c') = writerCount_ (c_imf c).
Proof.
  induction 1 as [c | c c' pkt len _ IH]; [repeat split | exact IH].
Qed.

Lemma checkWriterOpen_eq (w : World E) :
  checkWriterOpen w
  = if isOpen_ (writer w) then (Returns tt, w) else (Throws ErrorWriterNotOpen, w).
Proof. unfold checkWriterOpen, bind, get. simpl. destruct (isOpen_ (writer w)); reflexivity. Qed.

(** [write] on a writer that is not open. *)
Lemma write_closed fuel n (w : World E) :
  isOpen_ (writer w) = false -> write fuel n w = (Throws ErrorWriterNotOpen, w).
Proof.
  intros Hc. unfold write, checkImageFileOpen. unfold bind at 1. unfold ret at 1.
  cbv beta iota. unfold bind at 1. rewrite checkWriterOpen_eq, Hc. reflexivity.
Qed.

(** [write] on an open writer: the two branches. *)
Lemma write_open fuel n (w : World E) :
  isOpen_ (writer w) = true ->
  write fuel n w =
  if n =? 0 then packetWriteZeroRecords w
  else
    (sbuf0 <- at_ (sbufs_ (writer w)) 0 ;;
     impl0 <- impl sbuf0 ;;
     if capacity impl0 <? n then throw ErrorBadAPIArgument
     else
       forEach (sbufs_ (writer w)) rewind ;;
       writeLoop fuel (wrap64 (recordCount_ (writer w) + n)) ;;
       modify_writer (fun wr => set_recordCount (wrap64 (recordCount_ wr + n)) wr)) w.
Proof.
  intros Ho. unfold write, checkImageFileOpen. unfold bind at 1. unfold ret at 1.
  cbv beta iota. unfold bind at 1. rewrite checkWriterOpen_eq, Ho. cbv beta iota.
  destruct (n =? 0); reflexivity.
Qed.

(** What [write] does to the core, however it ends. *)
Lemma write_cases fuel n (w w' : World E) (o : Outcome unit) :
  write fuel n w = (o, w') ->
  match o with
  | Returns _ =>
      isOpen_ (writer w) = true
      /\ if n =? 0 then core w' = emitCore zeroRecordsPacket 8 (core w)
         else exists c1, Emits (core w) c1
                /\ core w' = setRecordsCore (wrap64 (recordCount_ (writer w) + n)) c1
  | _ => Emits (core w) (core w')
  end.
Proof.
  destruct (isOpen_ (writer w)) eqn:Ho.
  2:{ rewrite (write_closed _ _ _ Ho). intros Hr. inversion Hr. apply Emits_refl. }
  rewrite (write_open _ _ _ Ho).
  destruct (n =? 0) eqn:Hn.
  { destruct (packetWriteZeroRecords_spec w) as (w1 & Hrun & Hcore & _).
    rewrite Hrun. intros Hr. inversion Hr; subst. split; [reflexivity | ].
    exact Hcore. }
  intros Hr.
  assert (Hfail : forall w0 : World E, core w0 = core w -> ~ isReturn o ->
                    Emits (core w) (core w0) ->
                    match o with Returns _ => True | _ => Emits (core w) (core w0) end).
  { intros w0 _ Hno He. destruct o; auto. }
  apply bind_cases in Hr as [(sbuf0 & w1 & Hm & Hr) | (Hs & Hno & _)].
  2:{ pose proof (at_preserves core (sbufs_ (writer w)) 0%nat w) as Hp.
      rewrite Hs in Hp. destruct o; try (apply Emits_eq; exact Hp).
      exfalso. apply Hno. exact I. }
  pose proof (preserves_run _ _ _ _ _ (at_preserves core _ _) Hm) as Hc1.
  apply bind_cases in Hr as [(impl0 & w2 & Hm2 & Hr) | (Hs & Hno & _)].
  2:{ pose proof (impl_preserves core sbuf0 w1) as Hp.
      rewrite Hs, Hc1 in Hp. destruct o; try (apply Emits_eq; exact Hp).
      exfalso. apply Hno. exact I. }
  pose proof (preserves_run _ _ _ _ _ (impl_preserves core _) Hm2) as Hc2.
  rewrite Hc1 in Hc2.
  destruct (capacity impl0 <? n).
  { inversion Hr; subst. apply Emits_eq. exact Hc2. }
  apply bind_cases in Hr as [([] & w3 & Hm3 & Hr) | (Hs & Hno & _)].
  2:{ pose proof (forEach_preserves core (sbufs_ (writer w)) rewind rewind_preserves w2) as Hp.
      rewrite Hs, Hc2 in Hp. destruct o; try (apply Emits_eq; exact Hp).
      exfalso. apply Hno. exact I. }
  pose proof (preserves_run _ _ _ _ _
                (forEach_preserves core _ rewind rewind_preserves) Hm3) as Hc3.
  rewrite Hc2 in Hc3.
  pose proof (writeLoop_emits fuel (wrap64 (recordCount_ (writer w) + n)) w3) as He.
  rewrite Hc3 in He.
  apply bind_cases in Hr as [([] & w4 & Hm4 & Hr) | (Hs & Hno & _)].
  2:{ rewrite Hs in He. destruct o; try exact He. exfalso. apply Hno. exact I. }
  rewrite Hm4 in He. simpl in He.
  unfold modify_writer, modify in Hr. inversion Hr; subst.
  split; [reflexivity | ]. exists (core w4). split; [exact He | ].
  destruct (Emits_fields _ _ He) as (Hrec & _). simpl in Hrec.
  unfold core, setRecordsCore. simpl. rewrite Hrec. reflexivity.
Qed.

(** [close] on a writer that is not open only decrements the writer
    count of the file. *)
Lemma close_closed fuel (w : World E) :
  isOpen_ (writer w) = false ->
  close fuel w
  = (Returns tt,
     set_imf (fun i => {| unusedLogicalStart_ := unusedLogicalStart_ i;
                          writerCount_ := writerCount_ i - 1;
                          file_ := file_ i |}) w).
Proof.
  intros Hc. unfold close, decrWriterCount, checkImageFileOpen, bind, modify, ret, get.
  cbn. rewrite Hc. reflexivity.
Qed.

Lemma close_open fuel (w : World E) :
  isOpen_ (writer w) = true ->
  close fuel w = (drain fuel ;; closeSection) (closing w).
Proof.
  intros Ho. unfold close, decrWriterCount, checkImageFileOpen.
  unfold bind at 1. unfold modify at 1. cbv beta iota.
  unfold bind at 1. unfold ret at 1. cbv beta iota.
  unfold bind at 1. unfold get at 1. cbv beta iota.
  change (isOpen_ (writer (set_imf _ w))) with (isOpen_ (writer w)).
  rewrite Ho. reflexivity.
Qed.

(** What a [close] that returns does to the core of an open writer. *)
Lemma close_open_Returns fuel (w w' : World E) :
  isOpen_ (writer w) = true ->
  close fuel w = (Returns tt, w') ->
  exists c1, Emits (closingCore (core w)) c1
    /\ core w' = headerCore (indexCore c1)
    /\ bytestreams_ (writer w') = [].
Proof.
  intros Ho. rewrite (close_open _ _ Ho).
  assert (Hc1 : core (closing w) = closingCore (core w)) by reflexivity.
  intros Hr.
  apply bind_Returns in Hr as ([] & w2 & Hd & Hr).
  pose proof (drain_emits fuel (closing w)) as He. rewrite Hd, Hc1 in He. simpl in He.
  destruct (closeSection_cases _ _ _ Hr) as [(_ & Hcore & Hbs) | Hbad];
    [ | discriminate].
  exists (core w2). auto.
Qed.

End CallSummaries.

(* ===================================================================== *)
(** * The life of a writer *)
(* ===================================================================== *)

Section Life.
Context {E : Type} `{Encoder E} `{Host}.

Lemma setBuffers_Returns sbufs (w w' : World E) :
  setBuffers sbufs w = (Returns tt, w') -> w' = set_writer (set_sbufs sbufs) w.
Proof.
  unfold setBuffers. intros Hr.
  apply bind_Returns in Hr as (wg & w1 & Hm & Hr). inversion Hm; subst wg w1; clear Hm.
  apply bind_Returns in Hr as ([] & w2 & Hm & Hr).
  assert (Hw2 : w2 = w).
  { assert (Hp : preserves (fun x : World E => x)
                   (if negb (size (sbufs_ (writer w)) =? 0)
                    then if negb (size (sbufs_ (writer w)) =? size sbufs)
                         then throw ErrorBuffersNotCompatible
                         else checkCompatibleAll (sbufs_ (writer w)) sbufs
                    else ret tt)).
    { repeat apply preserves_if; auto with preserves.
      apply checkCompatibleAll_preserves. }
    exact (preserves_run _ _ _ _ _ Hp Hm). }
  subst w2.
  apply bind_Returns in Hr as (paths & w3 & Hm2 & Hr).
  pose proof (preserves_run (fun x : World E => x) _ _ _ _
                (pathNames_preserves _ sbufs) Hm2) as Hw3. simpl in Hw3. subst w3.
  apply bind_Returns in Hr as ([] & w4 & Hm3 & Hr).
  destruct (checkBuffers _ _); [ | discriminate].
  inversion Hm3; subst w4. inversion Hr. reflexivity.
Qed.

Lemma makeEncoders_preserves sbufs : preserves shell (makeEncoders sbufs).
Proof.
  induction sbufs as [ | sbuf rest IH]; simpl; [auto with preserves | ].
  apply preserves_bind; [apply impl_preserves | intros b].
  apply preserves_bind; [auto with preserves | intros w].
  destruct (findTerminalPosition _ _ _); [ | auto with preserves].
  apply preserves_bind; [ | intros _; exact IH].
  unfold modify_writer. apply preserves_modify. intros s. reflexivity.
Qed.

Lemma constructor_Returns sbufs (w0 w1 : World E) :
  CompressedVectorWriterImpl sbufs w0 = (Returns tt, w1) ->
  core w1 = openedCore sbufs (core w0)
  /\ sbufs <> []
  /\ store w1 = store w0.
Proof.
  unfold CompressedVectorWriterImpl, modify_writer. intros Hr.
  apply bind_Returns in Hr as ([] & wa & Hm & Hr). inversion Hm; subst wa; clear Hm.
  apply bind_Returns in Hr as ([] & wb & Hm & Hr).
  destruct (size sbufs =? 0) eqn:Hsz; [discriminate | ].
  inversion Hm; subst wb; clear Hm.
  apply bind_Returns in Hr as ([] & wc & Hm & Hr). inversion Hm; subst wc; clear Hm.
  apply bind_Returns in Hr as ([] & wd & Hm & Hr).
  apply setBuffers_Returns in Hm. subst wd.
  apply bind_Returns in Hr as (wg & we & Hm & Hr). inversion Hm; subst wg we; clear Hm.
  apply bind_Returns in Hr as ([] & wf & Hm & Hr).
  pose proof (preserves_run _ _ _ _ _ (makeEncoders_preserves _) Hm) as Hshell.
  clear Hm.
  apply bind_Returns in Hr as ([] & wh & Hm & Hr). inversion Hm; subst wh; clear Hm.
  apply bind_Returns in Hr as (wg & wi & Hm & Hr). inversion Hm; subst wg wi; clear Hm.
  apply bind_Returns in Hr as ([] & wj & Hm & Hr).
  destruct (VALIDATION_DEEP && _); [discriminate | ].
  inversion Hm; subst wj; clear Hm.
  unfold bind, allocateSpace, modify, incrWriterCount in Hr. simpl in Hr.
  inversion Hr; subst w1; clear Hr.
  unfold shell in Hshell.
  pose proof (f_equal fst Hshell) as Hcore.
  pose proof (f_equal snd Hshell) as Hst.
  simpl in Hcore, Hst. clear Hshell.
  split; [ | split; [ | exact Hst]].
  - apply (f_equal (fun c => (c_cVector c, c_imf c, c_proto c, c_sbufs c))) in Hcore.
    simpl in Hcore. inversion Hcore as [[Hcv Himf Hproto Hsb]].
    unfold core, openedCore. simpl. rewrite Hproto, Hsb, Hcv, Himf. reflexivity.
  - intros ->. discriminate.
Qed.

End Life.

(* ===================================================================== *)
(** * Invariants of an open writer *)
(* ===================================================================== *)

Lemma wrap64_range x : 0 <= wrap64 x < 2 ^ 64.
Proof. unfold wrap64, wrap. apply Z.mod_pos_bound. lia. Qed.

Lemma wrap64_small x : 0 <= x < 2 ^ 64 -> wrap64 x = x.
Proof. intros Hx. unfold wrap64, wrap. apply Z.mod_small. exact Hx. Qed.

Lemma wrap64_add_l a b : wrap64 (wrap64 a + b) = wrap64 (a + b).
Proof. unfold wrap64, wrap. apply Zplus_mod_idemp_l. Qed.

Section Invariants.
Context {E : Type} `{Encoder E} `{Host}.

Lemma Live_ok_emit base start wz pkt len c :
  Live_ok base start wz c -> Live_ok base start true (emitCore pkt len c).
Proof.
  intros (recent & Hev & (Hidx & Hic & Hdata) & Hsb & Hstart & Hwz).
  exists (EvWrite (unusedLogicalStart_ (c_imf c)) (BDataPacket pkt) len :: recent).
  simpl. rewrite Hev. split; [reflexivity | ].
  split; [ | split; [exact Hsb | split; [exact Hstart | ]]].
  - split; [exact Hidx | split; [exact Hic | ]].
    simpl. rewrite length_app. simpl. intros Hlen.
    assert (Hlen' : Z.of_nat (length (dataPacketOffsets recent)) < 2 ^ 64) by lia.
    destruct (Hdata Hlen') as (Hcount & Hfirst).
    rewrite Hcount. split.
    + rewrite wrap64_small by lia. lia.
    + destruct (dataPacketOffsets recent) as [ | off offs]; simpl in *.
      * reflexivity.
      * destruct (Z.pos (Pos.of_succ_nat (length offs)) =? 0) eqn:Hz; [lia | exact Hfirst].
  - intros _. destruct (dataPacketOffsets recent); discriminate.
Qed.

Lemma Live_ok_weaken base start wz c : Live_ok base start true c -> Live_ok base start wz c.
Proof.
  intros (recent & Hev & Hok & Hsb & Hstart & Hwz).
  exists recent.
  split; [exact Hev | split; [exact Hok | split; [exact Hsb | ]]].
  split; [exact Hstart | ]. intros _. apply Hwz. reflexivity.
Qed.

Lemma Live_ok_Emits base start wz c c' :
  Emits c c' -> Live_ok base start wz c -> Live_ok base start wz c'.
Proof.
  induction 1 as [c | c c' pkt len _ IH]; intros Hok; [exact Hok | ].
  apply Live_ok_weaken. eapply Live_ok_emit. apply IH. exact Hok.
Qed.

Lemma Live_ok_setRecords base start wz v c :
  Live_ok base start wz c -> Live_ok base start wz (setRecordsCore v c).
Proof. intros (recent & Hok). exists recent. exact Hok. Qed.

Lemma Live_ok_setSbufs base start wz v c :
  v <> [] -> Live_ok base start wz c -> Live_ok base start wz (setSbufsCore v c).
Proof.
  intros Hv (recent & Hev & Hok & Hsb & Hrest). exists recent.
  split; [exact Hev | split; [exact Hok | split; [exact Hv | ]]].
  exact Hrest.
Qed.

Lemma setBuffers_cases sbufs (w w' : World E) (o : Outcome unit) :
  setBuffers sbufs w = (o, w') ->
  (o = Returns tt
   /\ w' = set_writer (set_sbufs sbufs) w
   /\ (sbufs_ (writer w) <> [] -> length sbufs = length (sbufs_ (writer w))))
  \/ (~ isReturn o /\ w' = w).
Proof.
  intros Hr. unfold setBuffers in Hr.
  apply bind_cases in Hr as [(wg & w1 & Hm & Hr) | (_ & _ & Hno)];
    [ | exfalso; apply Hno; exact I].
  inversion Hm; subst wg w1; clear Hm.
  set (chk := if negb (size (sbufs_ (writer w)) =? 0)
              then if negb (size (sbufs_ (writer w)) =? size sbufs)
                   then throw ErrorBuffersNotCompatible
                   else checkCompatibleAll (sbufs_ (writer w)) sbufs
              else ret tt) in Hr.
  assert (Hp : preserves (fun x : World E => x) chk).
  { unfold chk. repeat apply preserves_if; auto with preserves.
    apply checkCompatibleAll_preserves. }
  apply bind_cases in Hr as [([] & w2 & Hm & Hr) | (Hs & Hno & _)].
  2:{ right. split; [exact Hno | ]. rewrite <- Hs. apply (Hp w). }
  pose proof (preserves_run _ _ _ _ _ Hp Hm) as Hw2. simpl in Hw2. subst w2.
  apply bind_cases in Hr as [(paths & w3 & Hm2 & Hr) | (Hs & Hno & _)].
  2:{ right. split; [exact Hno | ]. rewrite <- Hs.
      apply (pathNames_preserves (fun x : World E => x) sbufs w). }
  pose proof (preserves_run (fun x : World E => x) _ _ _ _
                (pathNames_preserves _ sbufs) Hm2) as Hw3. simpl in Hw3. subst w3.
  apply bind_cases in Hr as [([] & w4 & Hm3 & Hr) | (Hs & Hno & _)].
  2:{ right. split; [exact Hno | ]. rewrite <- Hs.
      destruct (checkBuffers _ _); reflexivity. }
  destruct (checkBuffers _ _); [ | discriminate].
  inversion Hm3; subst w4. inversion Hr; subst. left.
  split; [reflexivity | split; [reflexivity | ]].
  intros Hne. unfold chk, size in Hm.
  destruct (sbufs_ (writer w)) as [ | b bs] eqn:Hsb; [contradiction | ].
  change (negb (Z.of_nat (length (b :: bs)) =? 0)) with true in Hm. cbv iota in Hm.
  destruct (Z.of_nat (length (b :: bs)) =? Z.of_nat (length sbufs)) eqn:Hsz;
    simpl in Hm; [ | discriminate].
  apply Z.eqb_eq in Hsz. lia.
Qed.

Lemma write_ok base start wz fuel n (w w' : World E) (o : Outcome unit) :
  write fuel n w = (o, w') ->
  Live_ok base start wz (core w) ->
  Live_ok base start (match o with Returns _ => (n =? 0) || wz | _ => wz end) (core w')
  /\ isOpen_ (writer w') = isOpen_ (writer w)
  /\ recordCount_ (writer w')
     = match o with
       | Returns _ => if n =? 0 then recordCount_ (writer w)
                      else wrap64 (recordCount_ (writer w) + n)
       | _ => recordCount_ (writer w)
       end.
Proof.
  intros Hr Hok. pose proof (write_cases _ _ _ _ _ Hr) as Hc.
  assert (Hfail : Emits (core w) (core w') ->
                  Live_ok base start wz (core w')
                  /\ isOpen_ (writer w') = isOpen_ (writer w)
                  /\ recordCount_ (writer w') = recordCount_ (writer w)).
  { intros He. split; [exact (Live_ok_Emits _ _ _ _ _ He Hok) | ].
    destruct (Emits_fields _ _ He) as (Hrec & Hopen & _). auto. }
  destruct o as [[] | e | | ]; try (apply Hfail; exact Hc).
  destruct Hc as (Ho & Hc). destruct (n =? 0) eqn:Hn.
  - rewrite Hc. split; [eapply Live_ok_emit; exact Hok | ].
    apply (f_equal (fun c => (c_isOpen c, c_recordCount c))) in Hc. simpl in Hc.
    inversion Hc. auto.
  - destruct Hc as (c1 & He & Hc). rewrite Hc. simpl orb.
    split; [apply Live_ok_setRecords; exact (Live_ok_Emits _ _ _ _ _ He Hok) | ].
    destruct (Emits_fields _ _ He) as (_ & Hopen & _).
    apply (f_equal (fun c => (c_isOpen c, c_recordCount c))) in Hc. simpl in Hc.
    inversion Hc as [[Ho' Hrec]]. rewrite Ho', Hopen. auto.
Qed.

Lemma call_ok base start wz c (w w' : World E) (o : Outcome unit) :
  call c w = (o, w') ->
  Live_ok base start wz (core w) ->
  Live_ok base start (match o with Returns _ => (requested c =? 0) || wz | _ => wz end)
    (core w')
  /\ isOpen_ (writer w') = isOpen_ (writer w)
  /\ recordCount_ (writer w')
     = match o with
       | Returns _ => if requested c =? 0 then recordCount_ (writer w)
                      else wrap64 (recordCount_ (writer w) + requested c)
       | _ => recordCount_ (writer w)
       end.
Proof.
  destruct c as [fuel n | fuel sbufs n]; simpl; [apply write_ok | ].
  unfold write2, bind.
  destruct (setBuffers sbufs w) as [o1 w1] eqn:Hs.
  destruct (setBuffers_cases _ _ _ _ Hs) as [(-> & -> & Hlen) | (Hno & ->)].
  - intros Hr Hok. 
    assert (Hne : sbufs <> []).
    { destruct Hok as (recent & _ & _ & Hsb & _). simpl in Hsb.
      specialize (Hlen Hsb). intros ->. simpl in Hlen.
      destruct (sbufs_ (writer w)); [contradiction | discriminate]. }
    apply (write_ok base start wz _ _ _ _ _ Hr).
    exact (Live_ok_setSbufs _ _ _ _ _ Hne Hok).
  - intros Hr Hok. destruct o1 as [a | e | | ]; [exfalso; apply Hno; exact I | | | ];
      inversion Hr; subst; auto.
Qed.

Lemma History_ok (w0 : World E) h w :
  History w0 h w ->
  Live_ok (events (file_ (imf w0))) (unusedLogicalStart_ (imf w0))
    (wroteZeroRecords h) (core w)
  /\ isOpen_ (writer w) = true
  /\ recordCount_ (writer w) = wrap64 (recordsWritten h).
Proof.
  induction 1 as [sbufs w1 Hnew | h w c o w' _ IH Hcall Hend].
  - destruct (constructor_Returns _ _ _ Hnew) as (Hcore & Hne & _).
    pose proof (f_equal (fun c => (c_isOpen c, c_recordCount c)) Hcore) as Hf.
    simpl in Hf. injection Hf as Hopen Hrec.
    split; [ | split; [exact Hopen | rewrite Hrec; reflexivity]].
    rewrite Hcore. exists [EvExtend (wrap64 (unusedLogicalStart_ (imf w0) + 32))].
    split; [reflexivity | ]. split; [ | split; [exact Hne | split; [reflexivity | ]]].
    + split; [reflexivity | split; [reflexivity | ]]. intros _. split; reflexivity.
    + discriminate.
  - destruct IH as (Hok & Hopen & Hrec).
    destruct (call_ok _ _ _ _ _ _ _ Hcall Hok) as (Hok' & Hopen' & Hrec').
    split; [ | split; [congruence | ]].
    + destruct o; simpl in *; try exact Hok'; contradiction.
    + rewrite Hrec'. destruct o as [[] | e | | ]; simpl in *; try contradiction.
      * destruct (requested c =? 0) eqn:Hn.
        -- apply Z.eqb_eq in Hn. rewrite Hn, Hrec. reflexivity.
        -- rewrite Hrec, wrap64_add_l. f_equal. lia.
      * exact Hrec.
Qed.

End Invariants.


(* ===================================================================== *)
(** * The section header, the packet counts, the record count *)
(* ===================================================================== *)

Section SectionTheorems.
Context {E : Type} `{Encoder E} `{Host}.

(** C1. After [close] has returned on an open writer, the section header
    lies at [sectionHeaderLogicalStart_], the slot the constructor
    reserved; its [dataPhysicalOffset] is the physical offset of the first
    data packet the writer emitted, or 0 if it emitted none; its
    [indexPhysicalOffset] is the physical offset of the index packet; and
    its [sectionLogicalLength] is the frontier [unusedLogicalStart_] of the
    file minus [sectionHeaderLogicalStart_], the frontier being the end of
    the index packet. *)
Theorem close_writes_section_header (w0 : World E) h w fuel w' :
  History w0 h w ->
  close fuel w = (Returns tt, w') ->
  exists recent indexOffset indexPacket sectionHeader,
    events (file_ (imf w'))
    = EvWrite (sectionHeaderLogicalStart_ (writer w)) (BSectionHeader sectionHeader) 32
      :: EvWrite indexOffset (BIndexPacket indexPacket) 32
      :: recent ++ events (file_ (imf w0))
    /\ sectionHeaderLogicalStart_ (writer w) = unusedLogicalStart_ (imf w0)
    /\ indexPacketOffsets recent = []
    /\ (Z.of_nat (length (dataPacketOffsets recent)) < 2 ^ 64 ->
        dataPhysicalOffset sectionHeader = firstPhysicalOffset (dataPacketOffsets recent))
    /\ indexPhysicalOffset sectionHeader = logicalToPhysical indexOffset
    /\ sectionLogicalLength sectionHeader
       = wrap64 (unusedLogicalStart_ (imf w') - sectionHeaderLogicalStart_ (writer w))
    /\ unusedLogicalStart_ (imf w') = wrap64 (indexOffset + 32).
Proof.
  intros Hh Hclose.
  destruct (History_ok _ _ _ Hh) as (Hok & Hopen & _).
  destruct (close_open_Returns _ _ _ Hopen Hclose) as (c1 & He & Hcore & _).
  assert (Hok1 : Live_ok (events (file_ (imf w0))) (unusedLogicalStart_ (imf w0))
                   (wroteZeroRecords h) c1).
  { apply (Live_ok_Emits _ _ _ _ _ He).
    destruct Hok as (recent & Hok). exists recent. exact Hok. }
  destruct Hok1 as (recent & Hev & (Hidx & _ & Hdata) & _ & Hstart & _).
  destruct (Emits_fields _ _ He) as (_ & _ & Hs1 & _). simpl in Hs1.
  exists recent, (unusedLogicalStart_ (c_imf c1)), (theIndexPacket c1),
    (theSectionHeader (indexCore c1)).
  pose proof (f_equal c_imf Hcore) as Himf. simpl in Himf. rewrite Himf. simpl.
  rewrite Hev, Hs1.
  split; [reflexivity | ]. split; [congruence | ]. split; [exact Hidx | ].
  split; [intros Hlen; apply (Hdata Hlen) | ].
  repeat split.
Qed.

(** C2, as the code has it.  After [close] has returned, exactly one
    index packet has been written for the section and [indexPacketsCount_]
    is 1; [dataPacketsCount_] is at least 1 if some call [write( 0 )] has
    returned before (fewer than 2^64 data packets having been emitted). *)
Theorem close_packet_counts (w0 : World E) h w fuel w' :
  History w0 h w ->
  close fuel w = (Returns tt, w') ->
  indexPacketsCount_ (writer w') = 1
  /\ exists recent,
       events (file_ (imf w')) = recent ++ events (file_ (imf w0))
       /\ length (indexPacketOffsets recent) = 1%nat
       /\ (wroteZeroRecords h = true ->
           Z.of_nat (length (dataPacketOffsets recent)) < 2 ^ 64 ->
           1 <= dataPacketsCount_ (writer w')).
Proof.
  intros Hh Hclose.
  destruct (History_ok _ _ _ Hh) as (Hok & Hopen & _).
  destruct (close_open_Returns _ _ _ Hopen Hclose) as (c1 & He & Hcore & _).
  assert (Hok1 : Live_ok (events (file_ (imf w0))) (unusedLogicalStart_ (imf w0))
                   (wroteZeroRecords h) c1).
  { apply (Live_ok_Emits _ _ _ _ _ He).
    destruct Hok as (recent & Hok). exists recent. exact Hok. }
  destruct Hok1 as (recent & Hev & (Hidx & Hic & Hdata) & _ & _ & Hwz).
  pose proof (f_equal (fun c => (c_imf c, c_indexPacketsCount c, c_dataPacketsCount c))
                Hcore) as Hf.
  simpl in Hf. injection Hf as Himf Hi Hd.
  split; [rewrite Hi, Hic; reflexivity | ].
  exists (EvWrite (c_sectionHeaderLogicalStart c1)
            (BSectionHeader (theSectionHeader (indexCore c1))) 32
          :: EvWrite (unusedLogicalStart_ (c_imf c1)) (BIndexPacket (theIndexPacket c1)) 32
          :: recent).
  rewrite Himf. simpl. rewrite Hev, Hidx.
  split; [reflexivity | split; [reflexivity | ]].
  intros Hz Hlen. rewrite Hd. destruct (Hdata Hlen) as (Hcount & _). rewrite Hcount.
  specialize (Hwz Hz). destruct (dataPacketOffsets recent); [contradiction | simpl; lia].
Qed.

(** C7. The record count of the writer is the sum, in [uint64_t], of
    the record counts of the calls of [write] that have returned, and the
    sum itself as long as that fits; a call [write( 0 )] on an open writer
    emits the zero-record data packet, returns, and leaves the record
    count as it is. *)
Theorem recordCount_is_sum_of_writes (w0 : World E) h w :
  History w0 h w ->
  recordCount_ (writer w) = wrap64 (recordsWritten h)
  /\ (0 <= recordsWritten h < 2 ^ 64 -> recordCount_ (writer w) = recordsWritten h)
  /\ forall fuel, exists w',
       write fuel 0 w = (Returns tt, w')
       /\ recordCount_ (writer w') = recordCount_ (writer w)
       /\ events (file_ (imf w'))
          = EvWrite (unusedLogicalStart_ (imf w)) (BDataPacket zeroRecordsPacket) 8
            :: events (file_ (imf w)).
Proof.
  intros Hh. destruct (History_ok _ _ _ Hh) as (_ & Hopen & Hrec).
  split; [exact Hrec | ]. split; [intros Hr; rewrite Hrec; apply wrap64_small, Hr | ].
  intros fuel. rewrite (write_open _ _ _ Hopen). simpl.
  destruct (packetWriteZeroRecords_spec w) as (w' & Hrun & Hcore & _).
  exists w'. split; [exact Hrun | ].
  pose proof (f_equal (fun c => (c_recordCount c, c_imf c)) Hcore) as Hf. simpl in Hf.
  injection Hf as Hr Himf. rewrite Himf. simpl. auto.
Qed.

(** C8, what the code does.  A second [close] returns without error and
    leaves the writer and the contents of the file alone, but it
    decrements the writer count of the image file once more. *)
Theorem close_again_decrements_writerCount (w : World E) fuel :
  isOpen_ (writer w) = false ->
  exists w',
    close fuel w = (Returns tt, w')
    /\ writer w' = writer w
    /\ file_ (imf w') = file_ (imf w)
    /\ unusedLogicalStart_ (imf w') = unusedLogicalStart_ (imf w)
    /\ writerCount_ (imf w') = writerCount_ (imf w) - 1.
Proof.
  intros Hc. rewrite (close_closed _ _ Hc). eexists. split; [reflexivity | ].
  repeat split.
Qed.

Lemma checkCompatibleAll_accepted olds news (w : World E) :
  compatibleAll (store w) olds news = true ->
  checkCompatibleAll olds news w = (Returns tt, w).
Proof.
  revert news. induction olds as [ | o olds IH]; intros [ | n news]; simpl;
    try reflexivity.
  unfold bind, impl.
  destruct (nth_error (store w) o) as [oldbuf | ]; [ | discriminate].
  destruct (nth_error (store w) n) as [newBuf | ]; [ | discriminate].
  destruct (checkCompatible oldbuf newBuf); simpl; [ | discriminate].
  apply IH.
Qed.

Lemma pathNames_accepted sbufs paths (w : World E) :
  pathNamesIn (store w) sbufs = Some paths ->
  pathNames sbufs w = (Returns paths, w).
Proof.
  revert paths. induction sbufs as [ | b sbufs IH]; simpl; intros paths Hp.
  - inversion Hp. reflexivity.
  - unfold bind, impl. destruct (nth_error (store w) b) as [i | ]; [ | discriminate].
    destruct (pathNamesIn (store w) sbufs) as [rest | ]; [ | discriminate].
    rewrite (IH rest eq_refl). inversion Hp. reflexivity.
Qed.

Lemma setBuffers_accepted sbufs (w : World E) :
  accepted w sbufs = true ->
  setBuffers sbufs w = (Returns tt, set_writer (set_sbufs sbufs) w).
Proof.
  unfold accepted. intros Ha.
  apply andb_prop in Ha as (Ha & Hpaths). apply andb_prop in Ha as (Hlen & Hcompat).
  apply Nat.eqb_eq in Hlen.
  unfold setBuffers. unfold bind at 1. unfold get. cbv beta iota.
  unfold bind at 1.
  assert (Hchk : (if negb (size (sbufs_ (writer w)) =? 0)
                  then if negb (size (sbufs_ (writer w)) =? size sbufs)
                       then throw ErrorBuffersNotCompatible
                       else checkCompatibleAll (sbufs_ (writer w)) sbufs
                  else ret tt) w = (Returns tt, w)).
  { destruct (negb (size (sbufs_ (writer w)) =? 0)); [ | reflexivity].
    unfold size. rewrite Hlen, Z.eqb_refl. simpl.
    apply checkCompatibleAll_accepted. exact Hcompat. }
  rewrite Hchk. cbv beta iota.
  destruct (pathNamesIn (store w) sbufs) as [paths | ] eqn:Hp; [ | discriminate].
  unfold bind at 1. rewrite (pathNames_accepted _ _ _ Hp). cbv beta iota.
  rewrite Hpaths. reflexivity.
Qed.

(** C9. The two-argument [write] calls [setBuffers] before it looks
    whether the writer is open.  On a closed writer, with buffers bound,
    a sequence of another length throws [ErrorBuffersNotCompatible] and
    changes nothing; a sequence [setBuffers] accepts replaces the bound
    buffers, and then the call throws [ErrorWriterNotOpen]. *)
Theorem write2_on_closed_writer (w : World E) fuel sbufs n :
  isOpen_ (writer w) = false ->
  sbufs_ (writer w) <> [] ->
  (length sbufs <> length (sbufs_ (writer w)) ->
   write2 fuel sbufs n w = (Throws ErrorBuffersNotCompatible, w))
  /\ (accepted w sbufs = true ->
      write2 fuel sbufs n w
      = (Throws ErrorWriterNotOpen, set_writer (set_sbufs sbufs) w)
      /\ sbufs_ (writer (snd (write2 fuel sbufs n w))) = sbufs).
Proof.
  intros Hc Hne. split.
  - intros Hlen. unfold write2, setBuffers. unfold bind at 1. unfold bind at 1.
    unfold get. cbv beta iota. unfold bind at 1. unfold size.
    destruct (sbufs_ (writer w)) as [ | b bs] eqn:Hsb; [contradiction | ].
    change (negb (Z.of_nat (length (b :: bs)) =? 0)) with true. cbv iota.
    destruct (Z.of_nat (length (b :: bs)) =? Z.of_nat (length sbufs)) eqn:Hsz.
    + apply Z.eqb_eq in Hsz. lia.
    + reflexivity.
  - intros Ha. unfold write2, bind. rewrite (setBuffers_accepted _ _ Ha).
    rewrite write_closed by exact Hc. split; reflexivity.
Qed.

(** X19. A call [write( n )] with [n > 0] on an open writer whose [n]
    exceeds the capacity of the first bound buffer, [sbufs_.at( 0 )],
    throws [ErrorBadAPIArgument] and leaves the world as it was, so that
    any later call does what it would have done without the failed one. *)
Theorem write_beyond_first_capacity (w : World E) fuel n sbuf0 impl0 :
  isOpen_ (writer w) = true ->
  0 < n ->
  nth_error (sbufs_ (writer w)) 0 = Some sbuf0 ->
  nth_error (store w) sbuf0 = Some impl0 ->
  capacity impl0 < n ->
  write fuel n w = (Throws ErrorBadAPIArgument, w)
  /\ forall fuel' n', write fuel' n' (snd (write fuel n w)) = write fuel' n' w.
Proof.
  intros Ho Hn Hs Hi Hcap.
  assert (Hw : write fuel n w = (Throws ErrorBadAPIArgument, w)).
  { rewrite (write_open _ _ _ Ho).
    destruct (n =? 0) eqn:Hz; [apply Z.eqb_eq in Hz; lia | ].
    unfold bind, at_, impl. rewrite Hs. simpl. rewrite Hi.
    destruct (capacity impl0 <? n) eqn:Hlt; [reflexivity | ].
    apply Z.ltb_ge in Hlt. lia. }
  split; [exact Hw | ]. intros fuel' n'. rewrite Hw. reflexivity.
Qed.

End SectionTheorems.


(* ===================================================================== *)
(** * Rounding to single precision *)
(* ===================================================================== *)

Module F32Facts.

Import F32.
Local Open Scope Q_scope.

(** The unit roundoff of binary32. *)
Definition u : Q := 1 # 16777216.

Lemma pow2_pos e : 0 < pow2 e.
Proof. unfold pow2. apply Qpower_0_lt. reflexivity. Qed.

Lemma pow2_plus a b : pow2 (a + b) == pow2 a * pow2 b.
Proof. unfold pow2. apply Qpower_plus. discriminate. Qed.

Lemma pow2_inject (n : Z) : (0 <= n)%Z -> pow2 n == inject_Z (2 ^ n).
Proof. intros Hn. unfold pow2. rewrite Zpower_Qpower by exact Hn. reflexivity. Qed.

Lemma Qnum_pos q : 0 < q -> (0 < Qnum q)%Z.
Proof. destruct q as [n d]. unfold Qlt. simpl. lia. Qed.

(** [ilog2 q] is not above the binary logarithm of [q]. *)
Lemma ilog2_le q : 0 < q -> pow2 (ilog2 q) <= q.
Proof.
  intros Hq. unfold ilog2.
  set (a := Z.log2 (Qnum q)). set (b := Z.log2 (Z.pos (Qden q))).
  destruct (Qle_bool (pow2 (a - b)) q) eqn:Ht; [apply Qle_bool_iff; exact Ht | ].
  pose proof (Qnum_pos q Hq) as Hn.
  destruct (Z.log2_spec (Qnum q) Hn) as (Hlo & _). fold a in Hlo.
  destruct (Z.log2_spec (Z.pos (Qden q)) (Pos2Z.is_pos _)) as (_ & Hhi). fold b in Hhi.
  assert (Ha : (0 <= a)%Z) by apply Z.log2_nonneg.
  assert (Hb : (0 <= b)%Z) by apply Z.log2_nonneg.
  assert (Hsplit : pow2 (a - b - 1) * pow2 (b + 1) == pow2 a).
  { rewrite <- pow2_plus. replace (a - b - 1 + (b + 1))%Z with a by lia. reflexivity. }
  rewrite (pow2_inject a Ha) in Hsplit.
  rewrite (pow2_inject (b + 1)) in Hsplit by lia.
  assert (Hd : inject_Z (Z.pos (Qden q)) <= inject_Z (2 ^ (b + 1))).
  { rewrite <- Zle_Qle. replace (b + 1)%Z with (Z.succ b) by lia. lia. }
  assert (Hnum : inject_Z (2 ^ a) <= inject_Z (Qnum q)) by (rewrite <- Zle_Qle; exact Hlo).
  assert (Hp : 0 < pow2 (a - b - 1)) by apply pow2_pos.
  assert (Hq' : q * inject_Z (Z.pos (Qden q)) == inject_Z (Qnum q)).
  { destruct q as [n d]. unfold Qeq, Qmult, inject_Z. simpl. lia. }
  assert (Hdpos : 0 < inject_Z (Z.pos (Qden q))).
  { replace 0 with (inject_Z 0) by reflexivity. rewrite <- Zlt_Qlt. lia. }
  apply (Qmult_le_r _ _ _ Hdpos). rewrite Hq'.
  apply Qle_trans with (pow2 (a - b - 1) * inject_Z (2 ^ (b + 1))).
  - apply Qmult_le_l; assumption.
  - rewrite Hsplit. exact Hnum.
Qed.

(** Rounding to an integer moves a rational by a half at most. *)
Lemma rint_bounds s : s - (1 # 2) <= inject_Z (rint s) /\ inject_Z (rint s) <= s + (1 # 2).
Proof.
  unfold rint.
  pose proof (Qfloor_le s) as Hlo. pose proof (Qlt_floor s) as Hhi.
  rewrite inject_Z_plus in Hhi. change (inject_Z 1) with 1 in Hhi.
  destruct (Qcompare (s - inject_Z (Qfloor s)) (1 # 2)) eqn:Hc.
  - apply Qeq_alt in Hc.
    destruct (Z.even (Qfloor s)); [ | rewrite inject_Z_plus; change (inject_Z 1) with 1]; lra.
  - apply Qlt_alt in Hc. lra.
  - apply Qgt_alt in Hc. rewrite inject_Z_plus. change (inject_Z 1) with 1. lra.
Qed.

(** The relative error of rounding is at most the unit roundoff. *)
Lemma rnd_bounds q : 0 <= q -> q * (1 - u) <= rnd q /\ rnd q <= q * (1 + u).
Proof.
  intros Hq. unfold rnd.
  destruct (Qle_bool q 0) eqn:Hz.
  { apply Qle_bool_iff in Hz. assert (Hq0 : q == 0) by lra. rewrite Hq0. split; lra. }
  assert (Hpos : 0 < q).
  { destruct (Qlt_le_dec 0 q) as [Hlt | Hle]; [exact Hlt | ].
    apply Qle_bool_iff in Hle. congruence. }
  set (e := (ilog2 q - (prec - 1))%Z).
  rewrite Qred_correct.
  pose proof (pow2_pos e) as HP.
  pose proof (ilog2_le q Hpos) as Hlog.
  replace (ilog2 q) with (e + 23)%Z in Hlog by (unfold e, prec; lia).
  rewrite pow2_plus in Hlog.
  change (pow2 23) with (Qpower 2 23) in Hlog.
  assert (H23 : Qpower 2 23 == 8388608) by reflexivity. rewrite H23 in Hlog.
  destruct (rint_bounds (q / pow2 e)) as (Hlo & Hhi).
  set (m := inject_Z (rint (q / pow2 e))) in *.
  assert (Hs : q / pow2 e * pow2 e == q).
  { field. intros Hc. rewrite Hc in HP. apply (Qlt_irrefl 0). exact HP. }
  assert (Hlo' : (q / pow2 e - (1 # 2)) * pow2 e <= m * pow2 e).
  { apply Qmult_le_compat_r; [exact Hlo | apply Qlt_le_weak; exact HP]. }
  assert (Hhi' : m * pow2 e <= (q / pow2 e + (1 # 2)) * pow2 e).
  { apply Qmult_le_compat_r; [exact Hhi | apply Qlt_le_weak; exact HP]. }
  assert (E1 : (q / pow2 e - (1 # 2)) * pow2 e == q - (1 # 2) * pow2 e).
  { rewrite <- Hs at 2. ring. }
  assert (E2 : (q / pow2 e + (1 # 2)) * pow2 e == q + (1 # 2) * pow2 e).
  { rewrite <- Hs at 2. ring. }
  rewrite E1 in Hlo'. rewrite E2 in Hhi'.
  unfold u. split; lra.
Qed.

Lemma rnd_nonneg q : 0 <= q -> 0 <= rnd q.
Proof.
  intros Hq. destruct (rnd_bounds q Hq) as (Hlo & _).
  apply Qle_trans with (q * (1 - u)); [ | exact Hlo].
  apply Qmult_le_0_compat; [exact Hq | unfold u; lra].
Qed.

End F32Facts.


(* ===================================================================== *)
(** * The vector [count] *)
(* ===================================================================== *)

Module CountFacts.

Import F32 F32Facts.
Local Open Scope Q_scope.

Lemma sumZ_from l a : fold_left Z.add l a = (a + sumZ l)%Z.
Proof.
  unfold sumZ. revert a. induction l as [ | x l IH]; intros a; simpl; [lia | ].
  rewrite IH, (IH x). lia.
Qed.

Lemma sumZ_cons x l : sumZ (x :: l) = (x + sumZ l)%Z.
Proof. unfold sumZ. simpl. apply sumZ_from. Qed.

Lemma sumZ_nonneg l : Forall (fun a => (0 <= a)%Z) l -> (0 <= sumZ l)%Z.
Proof.
  induction 1 as [ | x l Hx _ IH]; [unfold sumZ; simpl; lia | ]. rewrite sumZ_cons. lia.
Qed.

Lemma to_unsigned_Some x c : to_unsigned x = Some c -> c = x /\ (0 <= c < 2 ^ 32)%Z.
Proof.
  unfold to_unsigned.
  destruct (0 <=? x)%Z eqn:H0; destruct (x <? 2 ^ 32)%Z eqn:H1; cbv [andb];
    try discriminate.
  intros Hc. inversion Hc; subst. apply Z.leb_le in H0. apply Z.ltb_lt in H1. auto.
Qed.

Lemma inject_Z_nonneg a : (0 <= a)%Z -> 0 <= inject_Z a.
Proof. intros Ha. replace 0 with (inject_Z 0) by reflexivity. rewrite <- Zle_Qle. exact Ha. Qed.

(** One element of [count] against the exact product. *)
Lemma countAt_bounds f a c :
  0 <= f -> (0 <= a)%Z -> countAt f a = Some c ->
  c = floor (mul f (of_Z a))
  /\ (0 <= c)%Z
  /\ inject_Z c <= f * inject_Z a * ((1 + u) * (1 + u))
  /\ f * inject_Z a * ((1 - u) * (1 - u)) < inject_Z c + 1.
Proof.
  intros Hf Ha Hc. unfold countAt in Hc.
  apply to_unsigned_Some in Hc as (Hc & Hr). split; [exact Hc | ].
  split; [lia | ].
  pose proof (inject_Z_nonneg a Ha) as Haq.
  destruct (rnd_bounds (inject_Z a) Haq) as (Halo & Hahi).
  pose proof (rnd_nonneg (inject_Z a) Haq) as Ha0.
  assert (Hp0 : 0 <= f * of_Z a) by (apply Qmult_le_0_compat; assumption).
  destruct (rnd_bounds (f * of_Z a) Hp0) as (Hplo & Hphi).
  assert (Hup : f * of_Z a <= f * (inject_Z a * (1 + u))).
  { rewrite !(Qmult_comm f). apply Qmult_le_compat_r; assumption. }
  assert (Hdn : f * (inject_Z a * (1 - u)) <= f * of_Z a).
  { rewrite !(Qmult_comm f). apply Qmult_le_compat_r; assumption. }
  assert (Hu1 : 0 <= 1 + u) by (unfold u; lra).
  assert (Hu2 : 0 <= 1 - u) by (unfold u; lra).
  assert (Hup' : f * of_Z a * (1 + u) <= f * (inject_Z a * (1 + u)) * (1 + u)).
  { apply Qmult_le_compat_r; assumption. }
  assert (Hdn' : f * (inject_Z a * (1 - u)) * (1 - u) <= f * of_Z a * (1 - u)).
  { apply Qmult_le_compat_r; assumption. }
  pose proof (Qfloor_le (mul f (of_Z a))) as Hfl.
  pose proof (Qlt_floor (mul f (of_Z a))) as Hfu.
  rewrite inject_Z_plus in Hfu. change (inject_Z 1) with 1 in Hfu.
  unfold floor in Hc. rewrite <- Hc in Hfl, Hfu. unfold mul in Hfl, Hfu.
  split.
  - apply Qle_trans with (rnd (f * of_Z a)); [exact Hfl | ].
    apply Qle_trans with (f * of_Z a * (1 + u)); [exact Hphi | ].
    apply Qle_trans with (f * (inject_Z a * (1 + u)) * (1 + u)); [exact Hup' | ].
    apply Qle_lteq. right. ring.
  - apply Qle_lt_trans with (rnd (f * of_Z a)); [ | exact Hfu].
    apply Qle_trans with (f * of_Z a * (1 - u)); [ | exact Hplo].
    apply Qle_trans with (f * (inject_Z a * (1 - u)) * (1 - u)); [ | exact Hdn'].
    apply Qle_lteq. right. ring.
Qed.

(** The sum of [count] against the exact sum of the products. *)
Lemma counts_sum f available count :
  0 <= f -> Forall (fun a => (0 <= a)%Z) available ->
  mapOption (countAt f) available = Some count ->
  Forall (fun c => (0 <= c)%Z) count
  /\ inject_Z (sumZ count) <= f * inject_Z (sumZ available) * ((1 + u) * (1 + u)).
Proof.
  intros Hf Hav. revert count.
  induction Hav as [ | a l Ha _ IH]; intros count Hc; simpl in Hc.
  - inversion Hc; subst. split; [constructor | ]. unfold sumZ. simpl.
    change (inject_Z 0) with 0. rewrite Qmult_0_r, Qmult_0_l. apply Qle_refl.
  - destruct (countAt f a) as [c | ] eqn:Hca; [ | discriminate].
    destruct (mapOption (countAt f) l) as [cs | ] eqn:Hcs; [ | discriminate].
    inversion Hc; subst count.
    destruct (countAt_bounds _ _ _ Hf Ha Hca) as (_ & Hc0 & Hcu & _).
    destruct (IH cs eq_refl) as (Hcs0 & Hsum).
    split; [constructor; assumption | ].
    rewrite !sumZ_cons, !inject_Z_plus. lra.
Qed.

(** The fraction to send, times the total, against the payload. *)
Lemma fraction_bounds maxPayload total :
  (1 <= maxPayload)%Z -> (1 <= total)%Z ->
  let f := div (of_Z (maxPayload - 1)) (of_Z total) in
  0 <= f
  /\ f * inject_Z total * (1 - u) <= inject_Z (maxPayload - 1) * ((1 + u) * (1 + u))
  /\ inject_Z (maxPayload - 1) * ((1 - u) * (1 - u)) <= f * inject_Z total * (1 + u).
Proof.
  intros HM HT f.
  assert (HX : 0 <= inject_Z (maxPayload - 1)) by (apply inject_Z_nonneg; lia).
  assert (HTq : 0 <= inject_Z total) by (apply inject_Z_nonneg; lia).
  assert (HT1 : 1 <= inject_Z total).
  { replace 1 with (inject_Z 1) by reflexivity. rewrite <- Zle_Qle. exact HT. }
  destruct (rnd_bounds _ HX) as (Hxlo & Hxhi). fold (of_Z (maxPayload - 1)) in Hxlo, Hxhi.
  destruct (rnd_bounds _ HTq) as (Hylo & Hyhi). fold (of_Z total) in Hylo, Hyhi.
  pose proof (rnd_nonneg _ HX) as Hx0. fold (of_Z (maxPayload - 1)) in Hx0.
  set (x := of_Z (maxPayload - 1)) in *. set (y := of_Z total) in *.
  assert (Hy : 0 < y) by (unfold u in Hylo; lra).
  assert (Hr0 : 0 <= x / y).
  { unfold Qdiv. apply Qmult_le_0_compat; [exact Hx0 | ].
    apply Qinv_le_0_compat. apply Qlt_le_weak. exact Hy. }
  destruct (rnd_bounds _ Hr0) as (Hflo & Hfhi). fold (div x y) in Hflo, Hfhi. fold f in Hflo, Hfhi.
  assert (Hf0 : 0 <= f) by (apply rnd_nonneg; exact Hr0).
  assert (Hry : x / y * y == x).
  { field. intros Hc. rewrite Hc in Hy. apply (Qlt_irrefl 0). exact Hy. }
  set (r := x / y) in *.
  assert (Hu1 : 0 <= 1 + u) by (unfold u; lra).
  assert (Hu2 : 0 <= 1 - u) by (unfold u; lra).
  (* r * (total * (1 - u)) <= r * y = x <= X * (1 + u) *)
  assert (H1 : r * (inject_Z total * (1 - u)) <= r * y).
  { rewrite !(Qmult_comm r). apply Qmult_le_compat_r; assumption. }
  assert (H2 : r * y <= r * (inject_Z total * (1 + u))).
  { rewrite !(Qmult_comm r). apply Qmult_le_compat_r; assumption. }
  assert (H3 : f * inject_Z total <= r * (1 + u) * inject_Z total).
  { apply Qmult_le_compat_r; assumption. }
  assert (H4 : r * (1 - u) * inject_Z total <= f * inject_Z total).
  { apply Qmult_le_compat_r; assumption. }
  split; [exact Hf0 | split].
  - apply Qle_trans with (r * (1 + u) * inject_Z total * (1 - u)).
    + apply Qmult_le_compat_r; assumption.
    + setoid_replace (r * (1 + u) * inject_Z total * (1 - u))
        with (r * (inject_Z total * (1 - u)) * (1 + u)) by ring.
      apply Qle_trans with (r * y * (1 + u)).
      * apply Qmult_le_compat_r; assumption.
      * rewrite Hry.
        setoid_replace (inject_Z (maxPayload - 1) * ((1 + u) * (1 + u)))
          with (inject_Z (maxPayload - 1) * (1 + u) * (1 + u)) by ring.
        apply Qmult_le_compat_r; assumption.
  - apply Qle_trans with (r * (1 - u) * inject_Z total * (1 + u)).
    + setoid_replace (r * (1 - u) * inject_Z total * (1 + u))
        with (r * (inject_Z total * (1 + u)) * (1 - u)) by ring.
      apply Qle_trans with (r * y * (1 - u)).
      * rewrite Hry.
        setoid_replace (inject_Z (maxPayload - 1) * ((1 - u) * (1 - u)))
          with (inject_Z (maxPayload - 1) * (1 - u) * (1 - u)) by ring.
        apply Qmult_le_compat_r; assumption.
      * apply Qmult_le_compat_r; assumption.
    + apply Qmult_le_compat_r; assumption.
Qed.

(** However the single-precision products are rounded, the counts of a
    packet that cannot take everything add up to less than the payload. *)
Lemma fraction_sum maxPayload total available count :
  (1 <= maxPayload <= DATA_PACKET_MAX)%Z -> (1 <= total)%Z ->
  Forall (fun a => (0 <= a)%Z) available -> sumZ available = total ->
  mapOption (countAt (div (of_Z (maxPayload - 1)) (of_Z total))) available = Some count ->
  Forall (fun c => (0 <= c)%Z) count /\ (sumZ count < maxPayload)%Z.
Proof.
  intros HM HT Hav Hsum Hc.
  destruct (fraction_bounds maxPayload total (proj1 HM) HT) as (Hf0 & Hfu & _).
  destruct (counts_sum _ _ _ Hf0 Hav Hc) as (Hc0 & Hcs).
  split; [exact Hc0 | ]. rewrite Hsum in Hcs.
  set (f := div (of_Z (maxPayload - 1)) (of_Z total)) in *.
  assert (Hu2 : 0 <= 1 - u) by (unfold u; lra).
  assert (Hu1 : 0 <= (1 + u) * (1 + u)) by (unfold u; lra).
  assert (H1 : inject_Z (sumZ count) * (1 - u)
               <= f * inject_Z total * ((1 + u) * (1 + u)) * (1 - u)).
  { apply Qmult_le_compat_r; assumption. }
  assert (H2 : f * inject_Z total * (1 - u) * ((1 + u) * (1 + u))
               <= inject_Z (maxPayload - 1) * ((1 + u) * (1 + u)) * ((1 + u) * (1 + u))).
  { apply Qmult_le_compat_r; assumption. }
  assert (H3 : inject_Z (sumZ count) * (1 - u)
               <= inject_Z (maxPayload - 1) * ((1 + u) * (1 + u)) * ((1 + u) * (1 + u))).
  { eapply Qle_trans; [exact H1 | ].
    eapply Qle_trans; [ | exact H2]. apply Qle_lteq. right. ring. }
  assert (HX : inject_Z (maxPayload - 1) <= 65535).
  { replace 65535 with (inject_Z 65535) by reflexivity. rewrite <- Zle_Qle.
    unfold DATA_PACKET_MAX in HM. lia. }
  assert (HX0 : 0 <= inject_Z (maxPayload - 1)) by (apply inject_Z_nonneg; lia).
  assert (Hlt : inject_Z (sumZ count) < inject_Z (maxPayload - 1) + 1).
  { unfold u in H3. lra. }
  assert (Hlt' : inject_Z (sumZ count) < inject_Z (maxPayload - 1 + 1)).
  { rewrite inject_Z_plus. exact Hlt. }
  rewrite <- Zlt_Qlt in Hlt'. lia.
Qed.

(** An element of [count] is within one of the exact quotient
    [(maxPayload - 1) * available / total], rounded down. *)
Lemma countAt_near_exact maxPayload total a c :
  (1 <= maxPayload <= DATA_PACKET_MAX)%Z -> (1 <= total)%Z -> (0 <= a <= total)%Z ->
  countAt (div (of_Z (maxPayload - 1)) (of_Z total)) a = Some c ->
  ((maxPayload - 1) * a / total - 1 <= c <= (maxPayload - 1) * a / total + 1)%Z.
Proof.
  intros HM HT Ha Hc.
  destruct (fraction_bounds maxPayload total (proj1 HM) HT) as (Hf0 & Hfu & Hfl).
  set (f := div (of_Z (maxPayload - 1)) (of_Z total)) in *.
  destruct (countAt_bounds f a c Hf0 (proj1 Ha) Hc) as (_ & Hc0 & Hcu & Hcl).
  set (e := ((maxPayload - 1) * a / total)%Z).
  assert (He : (e * total <= (maxPayload - 1) * a < (e + 1) * total)%Z).
  { unfold e. pose proof (Z.mul_div_le ((maxPayload - 1) * a) total).
    pose proof (Z.mul_succ_div_gt ((maxPayload - 1) * a) total). lia. }
  assert (He0 : (0 <= e <= 65535)%Z).
  { unfold DATA_PACKET_MAX in HM. split; [apply Z.div_pos; nia | ].
    assert (e * total <= 65535 * total)%Z by nia. nia. }
  assert (HeQ : inject_Z e * inject_Z total <= inject_Z (maxPayload - 1) * inject_Z a
                /\ inject_Z (maxPayload - 1) * inject_Z a
                   < (inject_Z e + 1) * inject_Z total).
  { change 1 with (inject_Z 1). rewrite <- inject_Z_plus, <- !inject_Z_mult.
    rewrite <- Zle_Qle, <- Zlt_Qlt. exact He. }
  destruct HeQ as (HeL & HeU).
  assert (HE0 : 0 <= inject_Z e) by (apply inject_Z_nonneg; lia).
  assert (HE1 : inject_Z e <= 65535).
  { replace 65535 with (inject_Z 65535) by reflexivity. rewrite <- Zle_Qle. lia. }
  assert (HA : 0 <= inject_Z a) by (apply inject_Z_nonneg; lia).
  assert (HT0 : 0 < inject_Z total).
  { replace 0 with (inject_Z 0) by reflexivity. rewrite <- Zlt_Qlt. lia. }
  set (C := inject_Z c) in *. set (A := inject_Z a) in *.
  set (T := inject_Z total) in *. set (X := inject_Z (maxPayload - 1)) in *.
  set (Eq := inject_Z e) in *.
  assert (Hu1 : 0 < 1 + u) by (unfold u; lra).
  assert (Hu2 : 0 < 1 - u) by (unfold u; lra).
  assert (Hk : 0 <= (1 + u) * (1 + u)) by (unfold u; lra).
  assert (Hj : 0 <= (1 - u) * (1 - u)) by (unfold u; lra).
  (* from above *)
  assert (U1 : C * (T * (1 - u)) <= f * A * ((1 + u) * (1 + u)) * (T * (1 - u))).
  { apply Qmult_le_compat_r; [exact Hcu | ].
    apply Qmult_le_0_compat; apply Qlt_le_weak; assumption. }
  assert (U2 : f * T * (1 - u) * (A * ((1 + u) * (1 + u)))
               <= X * ((1 + u) * (1 + u)) * (A * ((1 + u) * (1 + u)))).
  { apply Qmult_le_compat_r; [exact Hfu | ]. apply Qmult_le_0_compat; assumption. }
  assert (Hkk : 0 < (1 + u) * (1 + u) * ((1 + u) * (1 + u))) by (unfold u; lra).
  assert (U3 : X * A * ((1 + u) * (1 + u) * ((1 + u) * (1 + u)))
               < (Eq + 1) * T * ((1 + u) * (1 + u) * ((1 + u) * (1 + u)))).
  { apply Qmult_lt_compat_r; assumption. }
  assert (U4 : C * (1 - u) * T < (Eq + 1) * ((1 + u) * (1 + u) * ((1 + u) * (1 + u))) * T).
  { apply Qle_lt_trans with (X * A * ((1 + u) * (1 + u) * ((1 + u) * (1 + u)))).
    - apply Qle_trans with (f * A * ((1 + u) * (1 + u)) * (T * (1 - u))).
      + eapply Qle_trans; [ | exact U1]. apply Qle_lteq. right. ring.
      + eapply Qle_trans; [ | eapply Qle_trans; [exact U2 | ] ];
          apply Qle_lteq; right; ring.
    - eapply Qlt_le_trans; [exact U3 | ]. apply Qle_lteq. right. ring. }
  apply Qmult_lt_r in U4; [ | exact HT0].
  (* from below *)
  assert (L1 : X * ((1 - u) * (1 - u)) * (A * ((1 - u) * (1 - u)))
               <= f * T * (1 + u) * (A * ((1 - u) * (1 - u)))).
  { apply Qmult_le_compat_r; [exact Hfl | ]. apply Qmult_le_0_compat; assumption. }
  assert (L2 : f * A * ((1 - u) * (1 - u)) * (T * (1 + u)) < (C + 1) * (T * (1 + u))).
  { apply Qmult_lt_compat_r; [ | exact Hcl].
    apply Qmult_lt_0_compat; assumption. }
  assert (Hjj : 0 <= (1 - u) * (1 - u) * ((1 - u) * (1 - u))) by (unfold u; lra).
  assert (L3 : Eq * T * ((1 - u) * (1 - u) * ((1 - u) * (1 - u)))
               <= X * A * ((1 - u) * (1 - u) * ((1 - u) * (1 - u)))).
  { apply Qmult_le_compat_r; assumption. }
  assert (L4 : Eq * ((1 - u) * (1 - u) * ((1 - u) * (1 - u))) * T < (C + 1) * (1 + u) * T).
  { apply Qle_lt_trans with (f * A * ((1 - u) * (1 - u)) * (T * (1 + u))).
    - apply Qle_trans with (X * A * ((1 - u) * (1 - u) * ((1 - u) * (1 - u)))).
      + eapply Qle_trans; [ | exact L3]. apply Qle_lteq. right. ring.
      + eapply Qle_trans; [ | eapply Qle_trans; [exact L1 | ] ];
          apply Qle_lteq; right; ring.
    - eapply Qlt_le_trans; [exact L2 | ]. apply Qle_lteq. right. ring. }
  apply Qmult_lt_r in L4; [ | exact HT0].
  assert (Hup : C < Eq + 2) by (unfold u in U4; lra).
  assert (Hlo : Eq - 2 < C) by (unfold u in L4; lra).
  unfold C, Eq in Hup, Hlo.
  assert (Hup' : inject_Z c < inject_Z (e + 2)) by (rewrite inject_Z_plus; exact Hup).
  assert (Hlo' : inject_Z (e - 2) < inject_Z c).
  { unfold Z.sub. rewrite inject_Z_plus. exact Hlo. }
  rewrite <- Zlt_Qlt in Hup', Hlo'. lia.
Qed.

End CountFacts.


(* ===================================================================== *)
(** * Data packets *)
(* ===================================================================== *)

Lemma wrap32_small x : 0 <= x < 2 ^ 32 -> wrap32 x = x.
Proof. intros Hx. unfold wrap32, wrap. apply Z.mod_small. exact Hx. Qed.

Lemma wrap16_small x : 0 <= x < 2 ^ 16 -> wrap16 x = x.
Proof. intros Hx. unfold wrap16, wrap. apply Z.mod_small. exact Hx. Qed.

Lemma wrap32_mod4 x : wrap32 x mod 4 = x mod 4.
Proof.
  unfold wrap32, wrap.
  assert (Hx : x mod 2 ^ 32 = x + - (x / 2 ^ 32) * 1073741824 * 4).
  { pose proof (Z.div_mod x (2 ^ 32)). lia. }
  rewrite Hx. apply Z.mod_add. lia.
Qed.

(** The padding loop ends on a multiple of 4, inside the scratch packet
    when it started there. *)
Lemma padPacket_Returns fuel p packetLength pad r :
  padPacket fuel p packetLength pad = Returns r ->
  fst r mod 4 = 0
  /\ (packetLength = p -> 0 <= p <= DATA_PACKET_MAX -> p <= fst r <= DATA_PACKET_MAX).
Proof.
  revert p packetLength pad.
  induction fuel as [ | fuel IH]; intros p packetLength pad; cbn [padPacket].
  - destruct (packetLength mod 4 =? 0) eqn:Hm; [ | discriminate].
    intros Hr. inversion Hr; subst r. simpl. apply Z.eqb_eq in Hm. split; [exact Hm | lia].
  - destruct (packetLength mod 4 =? 0) eqn:Hm.
    + intros Hr. inversion Hr; subst r. simpl. apply Z.eqb_eq in Hm. split; [exact Hm | lia].
    + destruct (DATA_PACKET_MAX - 1 <=? p) eqn:Hp; [discriminate | ].
      intros Hr. apply Z.leb_gt in Hp.
      destruct (IH _ _ _ Hr) as (Hm4 & Hb). split; [exact Hm4 | ].
      intros -> Hp0. unfold DATA_PACKET_MAX in *.
      rewrite wrap32_small in Hb by lia. specialize (Hb eq_refl). lia.
Qed.

(** Four rounds are enough for the padding loop, wherever it starts. *)
Lemma padPacket_ends p packetLength pad : padPacket 4 p packetLength pad <> Diverges.
Proof.
  assert (Hstep : forall x, wrap32 (x + 1) mod 4 = (x mod 4 + 1) mod 4).
  { intros x. rewrite wrap32_mod4. rewrite Z.add_mod by lia.
    rewrite (Z.mod_small 1 4) by lia. reflexivity. }
  assert (Hm : 0 <= packetLength mod 4 < 4) by (apply Z.mod_pos_bound; lia).
  cbn [padPacket].
  destruct (packetLength mod 4 =? 0) eqn:H0; [discriminate | ].
  destruct (DATA_PACKET_MAX - 1 <=? p); [discriminate | ].
  destruct (wrap32 (packetLength + 1) mod 4 =? 0) eqn:H1; [discriminate | ].
  destruct (DATA_PACKET_MAX - 1 <=? p + 1); [discriminate | ].
  destruct (wrap32 (wrap32 (packetLength + 1) + 1) mod 4 =? 0) eqn:H2; [discriminate | ].
  destruct (DATA_PACKET_MAX - 1 <=? p + 1 + 1); [discriminate | ].
  destruct (wrap32 (wrap32 (wrap32 (packetLength + 1) + 1) + 1) mod 4 =? 0) eqn:H3;
    [discriminate | ].
  exfalso. apply Z.eqb_neq in H0, H1, H2, H3.
  rewrite Hstep in H1. rewrite !Hstep in H2. rewrite !Hstep in H3.
  assert (Hc : packetLength mod 4 = 1 \/ packetLength mod 4 = 2 \/ packetLength mod 4 = 3)
    by lia.
  destruct Hc as [Hc | [Hc | Hc]]; rewrite Hc in *; cbn in *; congruence.
Qed.

(** Where the padding loop gives up: a packet that is not a multiple of
    4 long and leaves the loop no room before the last byte of the scratch
    packet, which is the case whenever padding would pass beyond
    [DATA_PACKET_MAX]. *)
Lemma padPacket_Throws fuel p pad :
  p mod 4 <> 0 -> DATA_PACKET_MAX - 1 <= p ->
  padPacket (S fuel) p (wrap32 p) pad = Throws ErrorInternal.
Proof.
  intros Hm Hp. cbn [padPacket]. rewrite wrap32_mod4.
  destruct (p mod 4 =? 0) eqn:H0; [apply Z.eqb_eq in H0; contradiction | ].
  destruct (DATA_PACKET_MAX - 1 <=? p) eqn:Hle; [reflexivity | ].
  apply Z.leb_gt in Hle. lia.
Qed.

Lemma roundUp4_beyond p : DATA_PACKET_MAX < roundUp4 p -> DATA_PACKET_MAX < p.
Proof.
  unfold roundUp4, DATA_PACKET_MAX. intros Hr.
  pose proof (Z.mul_div_le (p + 3) 4). pose proof (Z.mul_succ_div_gt (p + 3) 4).
  assert (16384 < (p + 3) / 4 \/ (p + 3) / 4 <= 16384) as [Hgt | Hle] by lia; lia.
Qed.

Section DataPackets.
Context {E : Type} `{EncoderLaws E} `{Host}.

Lemma outputReadAll_Returns (cStreams : list E) count p0 r streams' :
  outputReadAll cStreams count p0 = (Returns r, streams') ->
  Forall (fun c => 0 <= c) count -> p0 <= DATA_PACKET_MAX ->
  p0 <= snd r <= DATA_PACKET_MAX.
Proof.
  revert count p0 r streams'.
  induction cStreams as [ | bytestream rest IH]; intros count p0 r streams'; simpl.
  - intros Hr _ Hp. inversion Hr; subst. simpl. lia.
  - destruct count as [ | n count'].
    + intros Hr _ Hp. inversion Hr; subst. simpl. lia.
    + destruct (VALIDATE_BASIC && (DATA_PACKET_MAX <? p0 + n)); [discriminate | ].
      destruct (outputRead bytestream n) as [[bytes | e | | ] bytestream'];
        try discriminate.
      destruct (DATA_PACKET_MAX <? p0 + n) eqn:Hfit; [discriminate | ].
      apply Z.ltb_ge in Hfit.
      destruct (outputReadAll rest count' (p0 + n)) as [o rest'] eqn:Hrest.
      destruct o as [r' | e | | ]; simpl; try discriminate.
      intros Hr Hc Hp. inversion Hr; subst r streams'. simpl.
      inversion Hc as [ | ? ? Hn Hc']; subst.
      specialize (IH _ _ _ _ Hrest Hc' Hfit). lia.
Qed.

(** What [assembleDataPacket] returns is the length of a well-formed
    packet, and the table it has laid out is [count], cast. *)
Lemma assembleDataPacket_Returns count (w w1 : World E) len :
  assembleDataPacket count w = (Returns len, w1) ->
  bsbLength (dataPacket_ (writer w1)) = map wrap16 count
  /\ len mod 4 = 0
  /\ (Forall (fun c => 0 <= c) count -> 0 < len <= DATA_PACKET_MAX).
Proof.
  unfold assembleDataPacket, modify_writer. intros Hr.
  apply bind_Returns in Hr as (wg & wa & Hm & Hr). inversion Hm; subst wg wa; clear Hm.
  apply bind_Returns in Hr as ([] & wb & Hm & Hr). inversion Hm; subst wb; clear Hm.
  apply bind_Returns in Hr as ([] & wc & Hm & Hr).
  destruct (DATA_PACKET_MAX <? _) eqn:Htab; [discriminate | ].
  inversion Hm; subst wc; clear Hm. apply Z.ltb_ge in Htab.
  apply bind_Returns in Hr as (r & wd & Hm & Hr).
  destruct (outputReadAll _ _ _) as [o streams'] eqn:Hread.
  inversion Hm; subst o wd; clear Hm.
  apply bind_Returns in Hr as ([] & we & Hm & Hr).
  destruct (VALIDATE_BASIC && _); [discriminate | ].
  inversion Hm; subst we; clear Hm.
  apply bind_Returns in Hr as (padded & wf & Hm & Hr).
  unfold lift in Hm. inversion Hm as [[Hpad Hwf]]; subst wf; clear Hm.
  apply bind_Returns in Hr as ([] & wg & Hm & Hr). inversion Hm; subst wg; clear Hm.
  apply bind_Returns in Hr as (wh & wi & Hm & Hr). inversion Hm; subst wh wi; clear Hm.
  apply bind_Returns in Hr as ([] & wj & Hm & Hr).
  destruct (DataPacket_verify _ _); [ | discriminate].
  inversion Hm; subst wj; clear Hm.
  inversion Hr; subst len w1; clear Hr.
  split; [reflexivity | ].
  destruct (padPacket_Returns 4%nat (snd r) (wrap32 (snd r)) 0 padded Hpad) as (Hm4 & Hb).
  split; [exact Hm4 | ]. intros Hc.
  pose proof (outputReadAll_Returns _ _ _ _ _ Hread Hc Htab) as Hp.
  assert (Hp0 : 0 < sizeof_DataPacketHeader
                    + size (bytestreams_ (writer w)) * sizeof_uint16_t).
  { unfold sizeof_DataPacketHeader, sizeof_uint16_t, size. lia. }
  unfold DATA_PACKET_MAX in *.
  rewrite wrap32_small in Hb by lia. specialize (Hb eq_refl). lia.
Qed.

Lemma mapOption_Forall2 {A B} (f : A -> option B) l l' :
  mapOption f l = Some l' -> Forall2 (fun a b => f a = Some b) l l'.
Proof.
  revert l'. induction l as [ | a l IH]; intros l'; simpl.
  - intros Hm. inversion Hm. constructor.
  - destruct (f a) as [b | ] eqn:Hb; [ | discriminate].
    destruct (mapOption f l) as [bs | ]; [ | discriminate].
    intros Hm. inversion Hm; subst. constructor; [exact Hb | apply IH; reflexivity].
Qed.

Lemma computeCount_nonneg cPacketMaxPayloadBytes cTotalOutput avail count :
  Forall (fun a => 0 <= a) avail ->
  computeCount cPacketMaxPayloadBytes cTotalOutput avail = Some count ->
  Forall (fun c => 0 <= c) count.
Proof.
  unfold computeCount. intros Ha.
  destruct (cTotalOutput <? cPacketMaxPayloadBytes).
  - intros Hc. inversion Hc; subst. exact Ha.
  - intros Hc. apply mapOption_Forall2 in Hc. clear Ha.
    induction Hc as [ | a c l l' Hac _ IH]; constructor; [ | exact IH].
    unfold countAt in Hac. apply CountFacts.to_unsigned_Some in Hac. lia.
Qed.

Lemma available_nonneg (wr : Writer E) : Forall (fun a => 0 <= a) (available wr).
Proof.
  unfold available. apply Forall_forall. intros a Ha.
  apply in_map_iff in Ha as (e & <- & _). apply outputAvailable_nonneg.
Qed.

Lemma countOf_nonneg (wr : Writer E) count :
  countOf wr = Some count -> Forall (fun c => 0 <= c) count.
Proof. apply computeCount_nonneg. apply available_nonneg. Qed.

(** C4. Every data packet [packetWrite] or [packetWriteZeroRecords]
    puts into the file has a length that is a multiple of 4 and at most
    [DATA_PACKET_MAX], 65536; and the padding loop of [packetWrite] throws
    [ErrorInternal] whenever padding to a multiple of 4 would pass beyond
    [DATA_PACKET_MAX]. *)
Theorem data_packet_lengths :
  (forall (w w' : World E) o,
      packetWrite w = (o, w') ->
      events (file_ (imf w')) = events (file_ (imf w))
      \/ exists pkt len,
           events (file_ (imf w'))
           = EvWrite (unusedLogicalStart_ (imf w)) (BDataPacket pkt) len
             :: events (file_ (imf w))
           /\ len mod 4 = 0 /\ 0 < len <= DATA_PACKET_MAX)
  /\ (forall (w : World E),
        exists w',
          packetWriteZeroRecords w = (Returns tt, w')
          /\ events (file_ (imf w'))
             = EvWrite (unusedLogicalStart_ (imf w)) (BDataPacket zeroRecordsPacket) 8
               :: events (file_ (imf w)))
  /\ (forall fuel p pad,
        p mod 4 <> 0 -> DATA_PACKET_MAX < roundUp4 p ->
        padPacket (S fuel) p (wrap32 p) pad = Throws ErrorInternal)
  /\ DATA_PACKET_MAX = 65536.
Proof.
  split; [ | split; [ | split; [ | reflexivity]]].
  - intros w w' o Hr.
    destruct (packetWrite_cases _ _ _ Hr)
      as [Hq | (count & w1 & len & Hcount & Hasm & _ & He)].
    + left. apply (f_equal c_imf) in Hq. simpl in Hq. rewrite Hq. reflexivity.
    + right. exists (dataPacket_ (writer w1)), len.
      apply (f_equal c_imf) in He. simpl in He. rewrite He. simpl.
      split; [reflexivity | ].
      destruct (assembleDataPacket_Returns _ _ _ _ Hasm) as (_ & Hm4 & Hlen).
      split; [exact Hm4 | ]. apply Hlen. exact (countOf_nonneg _ _ Hcount).
  - intros w. destruct (packetWriteZeroRecords_spec w) as (w' & Hrun & Hcore & _).
    exists w'. split; [exact Hrun | ].
    apply (f_equal c_imf) in Hcore. simpl in Hcore. rewrite Hcore. reflexivity.
  - intros fuel p pad Hm Hr. apply padPacket_Throws; [exact Hm | ].
    apply roundUp4_beyond in Hr. lia.
Qed.

End DataPackets.


(* ===================================================================== *)
(** * The byte counts of the streams *)
(* ===================================================================== *)

Section Counts.
Context {E : Type} `{EncoderLaws E} `{Host}.

Lemma fold_wrap64_sum {A} (f : A -> Z) (l : list A) acc :
  0 <= acc -> (forall x, In x l -> 0 <= f x) -> acc + sumZ (map f l) < 2 ^ 64 ->
  fold_left (fun total x => wrap64 (total + f x)) l acc = acc + sumZ (map f l).
Proof.
  revert acc. induction l as [ | x l IH]; intros acc Hacc Hf Hs; cbn [fold_left map] in *.
  - unfold sumZ. simpl. lia.
  - rewrite CountFacts.sumZ_cons in *.
    assert (Hx : 0 <= f x) by (apply Hf; left; reflexivity).
    assert (Hl : 0 <= sumZ (map f l)).
    { apply CountFacts.sumZ_nonneg. apply Forall_forall. intros a Ha.
      apply in_map_iff in Ha as (y & <- & Hy). apply Hf. right. exact Hy. }
    rewrite wrap64_small by lia. rewrite IH; [lia | lia | | lia].
    intros y Hy. apply Hf. right. exact Hy.
Qed.

Lemma totalOutputAvailable_sum (wr : Writer E) :
  sumZ (available wr) < 2 ^ 64 -> totalOutputAvailable wr = sumZ (available wr).
Proof.
  intros Hs. unfold totalOutputAvailable, available in *.
  rewrite fold_wrap64_sum; [lia | lia | | lia].
  intros x _. apply outputAvailable_nonneg.
Qed.

Lemma accumulate_sum count :
  Forall (fun c => 0 <= c) count -> sumZ count < 2 ^ 64 -> accumulate count = sumZ count.
Proof.
  intros Hc Hs. unfold accumulate.
  pose proof (fold_wrap64_sum (fun c : Z => c) count 0) as Hf.
  rewrite map_id in Hf. rewrite Hf; [lia | lia | | lia].
  intros x Hx. rewrite Forall_forall in Hc. apply Hc. exact Hx.
Qed.

Lemma In_le_sumZ a l : Forall (fun c => 0 <= c) l -> In a l -> 0 <= a <= sumZ l.
Proof.
  induction 1 as [ | x l Hx Hl IH]; intros Ha; [contradiction | ].
  rewrite CountFacts.sumZ_cons. pose proof (CountFacts.sumZ_nonneg l Hl).
  destruct Ha as [-> | Ha]; [lia | ]. specialize (IH Ha). lia.
Qed.

Lemma packetMaxPayloadBytes_small (wr : Writer E) :
  1 <= maxPayload wr ->
  packetMaxPayloadBytes (size (bytestreams_ wr)) = maxPayload wr
  /\ maxPayload wr <= 65530.
Proof.
  unfold packetMaxPayloadBytes, maxPayload, DATA_PACKET_MAX, sizeof_DataPacketHeader,
    sizeof_uint16_t, size. intros HM.
  split; [apply wrap64_small | ]; lia.
Qed.

(** The sum of [count] stays below the payload of the packet. *)
Lemma countOf_sum (wr : Writer E) count :
  1 <= maxPayload wr -> sumZ (available wr) < 2 ^ 64 ->
  countOf wr = Some count ->
  Forall (fun c => 0 <= c) count /\ sumZ count < maxPayload wr.
Proof.
  intros HM Hs Hc. pose proof (countOf_nonneg _ _ Hc) as Hc0. split; [exact Hc0 | ].
  unfold countOf, computeCount in Hc.
  destruct (packetMaxPayloadBytes_small wr HM) as (HMw & HM1).
  rewrite HMw, (totalOutputAvailable_sum wr Hs) in Hc. fold (available wr) in Hc.
  destruct (sumZ (available wr) <? maxPayload wr) eqn:Hlt.
  - inversion Hc; subst. apply Z.ltb_lt. exact Hlt.
  - apply Z.ltb_ge in Hlt. rewrite wrap64_small in Hc by lia.
    apply (CountFacts.fraction_sum (maxPayload wr) (sumZ (available wr)) (available wr));
      unfold DATA_PACKET_MAX; try lia; [apply available_nonneg | exact Hc].
Qed.

(** C5, as the code has it.  When the total output available is below
    [maxPayload], [count] is the output available of each stream.
    Otherwise each [count.at( i )] is [floor] of the product, both
    computed in single precision, of the quotient [(maxPayload - 1) /
    total] and the output available of the stream; it is within one of
    [(maxPayload - 1) * outputAvailable( i ) / total] rounded down.  The
    sum of [count] never exceeds [maxPayload]. *)
Theorem count_of_packetWrite (wr : Writer E) count :
  1 <= maxPayload wr -> sumZ (available wr) < 2 ^ 64 ->
  countOf wr = Some count ->
  (sumZ (available wr) < maxPayload wr -> count = available wr)
  /\ (maxPayload wr <= sumZ (available wr) ->
      Forall2 (fun a c =>
                 c = F32.floor
                       (F32.mul (F32.div (F32.of_Z (maxPayload wr - 1))
                                         (F32.of_Z (sumZ (available wr))))
                                (F32.of_Z a))
                 /\ (maxPayload wr - 1) * a / sumZ (available wr) - 1 <= c
                    <= (maxPayload wr - 1) * a / sumZ (available wr) + 1)
        (available wr) count)
  /\ sumZ count <= maxPayload wr.
Proof.
  intros HM Hs Hc.
  destruct (countOf_sum wr count HM Hs Hc) as (_ & Hsum).
  split; [ | split; [ | lia]].
  - intros Hlt. unfold countOf, computeCount in Hc.
    destruct (packetMaxPayloadBytes_small wr HM) as (HMw & _).
    rewrite HMw, (totalOutputAvailable_sum wr Hs) in Hc.
    apply Z.ltb_lt in Hlt. rewrite Hlt in Hc. inversion Hc. reflexivity.
  - intros Hge. unfold countOf, computeCount in Hc.
    destruct (packetMaxPayloadBytes_small wr HM) as (HMw & HM1).
    rewrite HMw, (totalOutputAvailable_sum wr Hs) in Hc. fold (available wr) in Hc.
    destruct (sumZ (available wr) <? maxPayload wr) eqn:Hlt;
      [apply Z.ltb_lt in Hlt; lia | ].
    rewrite wrap64_small in Hc by lia.
    apply mapOption_Forall2 in Hc.
    pose proof (available_nonneg wr) as Hav.
    assert (Hin : forall a, In a (available wr) -> 0 <= a <= sumZ (available wr)).
    { intros a Ha. apply In_le_sumZ; assumption. }
    set (total := sumZ (available wr)) in *. clearbody total.
    remember (available wr) as l eqn:Hl. clear Hl Hav Hsum.
    induction Hc as [ | a c l l' Hac _ IH]; constructor.
    + assert (Ha : 0 <= a <= total) by (apply Hin; left; reflexivity).
      split.
      * unfold countAt in Hac. apply CountFacts.to_unsigned_Some in Hac as (-> & _).
        reflexivity.
      * apply CountFacts.countAt_near_exact; unfold DATA_PACKET_MAX; try lia. exact Hac.
    + apply IH. intros x Hx. apply Hin. right. exact Hx.
Qed.


End Counts.


(* ===================================================================== *)
(** * The drain loop of [close] *)
(* ===================================================================== *)

Section Drain.
Context {E : Type} `{Encoder E} `{Host}.

(** [assembleDataPacket], run step by step. *)
Lemma assembleDataPacket_run count (w : World E) bytes p streams' padded :
  (DATA_PACKET_MAX <? sizeof_DataPacketHeader
                      + size (bytestreams_ (writer w)) * sizeof_uint16_t) = false ->
  outputReadAll (bytestreams_ (writer w)) count
    (sizeof_DataPacketHeader + size (bytestreams_ (writer w)) * sizeof_uint16_t)
  = (Returns (bytes, p), streams') ->
  VALIDATE_BASIC
  && negb (wrap32 p =?
           wrap64 (sizeof_DataPacketHeader
                   + wrap64 (size (bytestreams_ (writer w)) * sizeof_uint16_t)
                   + accumulate count)) = false ->
  padPacket 4 p (wrap32 p) 0 = Returns padded ->
  DataPacket_verify
    {| header := {| packetType := DATA_PACKET; packetFlags := 0;
                    packetLogicalLengthMinus1 := wrap16 (wrap32 (fst padded - 1));
                    bytestreamCount := wrap16 (size (bytestreams_ (writer w))) |};
       bsbLength := map wrap16 count; payload := bytes; padding := snd padded |}
    (fst padded) = true ->
  exists w1,
    assembleDataPacket count w = (Returns (fst padded), w1)
    /\ bytestreams_ (writer w1) = streams'.
Proof.
  intros Htab Hread Hval Hpad Hver.
  unfold assembleDataPacket, modify_writer.
  unfold bind at 1. unfold get at 1. cbv beta iota zeta.
  unfold bind at 1. unfold modify at 1. cbv beta iota.
  unfold bind at 1. rewrite Htab. unfold ret at 1. cbv beta iota.
  unfold bind at 1. rewrite Hread. cbv beta iota.
  change (snd (bytes, p)) with p. change (fst (bytes, p)) with bytes.
  unfold bind at 1. rewrite Hval. unfold ret at 1. cbv beta iota.
  unfold bind at 1. unfold lift at 1. rewrite Hpad. cbv beta iota.
  unfold bind at 1. unfold modify at 1. cbv beta iota.
  unfold bind at 1. unfold get at 1. cbv beta iota.
  unfold bind at 1.
  match goal with
  | |- context [DataPacket_verify ?pkt ?len] =>
      change (DataPacket_verify pkt len) with
        (DataPacket_verify
           {| header := {| packetType := DATA_PACKET; packetFlags := 0;
                           packetLogicalLengthMinus1 := wrap16 (wrap32 (fst padded - 1));
                           bytestreamCount := wrap16 (size (bytestreams_ (writer w))) |};
              bsbLength := map wrap16 count; payload := bytes;
              padding := snd padded |} (fst padded))
  end.
  rewrite Hver. unfold ret. cbv beta iota.
  eexists. split; reflexivity.
Qed.

(** [packetWrite], when the packet can be assembled. *)
Lemma packetWrite_run count (w w1 : World E) len :
  (totalOutputAvailable (writer w) =? 0) = false ->
  countOf (writer w) = Some count ->
  VALIDATE_BASIC
  && (packetMaxPayloadBytes (size (bytestreams_ (writer w))) <? accumulate count) = false ->
  assembleDataPacket count w = (Returns len, w1) ->
  exists w',
    packetWrite w = (Returns (logicalToPhysical (unusedLogicalStart_ (imf w1))), w')
    /\ bytestreams_ (writer w') = bytestreams_ (writer w1).
Proof.
  intros Htot Hcount Hval Hasm.
  unfold packetWrite. unfold bind at 1. unfold get at 1. cbv beta iota zeta.
  rewrite Htot, Hcount, Hval. unfold bind. rewrite Hasm.
  destruct (commitDataPacket_spec len w1) as (w' & Hrun & _ & Hbs & _).
  exists w'. split; assumption.
Qed.

End Drain.

Module StuckFacts.

Import Stuck.

Definition zeros (n : nat) : list Z := repeat 0 n.

Lemma streams_length n : length (streams n) = n.
Proof. unfold streams. rewrite length_map. apply length_seq. Qed.

Lemma streams_size : size (streams many) = 21844.
Proof. unfold size. rewrite streams_length. reflexivity. Qed.

Lemma streams_flush n : map registerFlushToOutput (streams n) = streams n.
Proof.
  unfold streams. rewrite map_map. apply map_ext. intros i. reflexivity.
Qed.

Lemma streams_available n : map outputAvailable (streams n) = repeat 1 n.
Proof.
  unfold streams. generalize 0%nat as start.
  induction n as [ | n IH]; intros start; [reflexivity | ].
  cbn [seq map repeat]. rewrite IH. reflexivity.
Qed.

Lemma sumZ_repeat c n : sumZ (repeat c n) = c * Z.of_nat n.
Proof.
  induction n as [ | n IH]; [unfold sumZ; simpl; lia | ].
  cbn [repeat]. rewrite CountFacts.sumZ_cons, IH. lia.
Qed.

Lemma streams_total wr :
  bytestreams_ wr = streams many -> totalOutputAvailable wr = 21844.
Proof.
  intros Hs. rewrite totalOutputAvailable_sum; unfold available; rewrite Hs.
  - rewrite streams_available, sumZ_repeat. reflexivity.
  - rewrite streams_available, sumZ_repeat. reflexivity.
Qed.

Lemma mapOption_repeat {A B} (f : A -> option B) a b n :
  f a = Some b -> mapOption f (repeat a n) = Some (repeat b n).
Proof.
  intros Hf. induction n as [ | n IH]; [reflexivity | ].
  cbn [repeat mapOption]. rewrite Hf, IH. reflexivity.
Qed.

(** One byte of 21844, with room for 21842: a fraction of a byte, and
    none is sent. *)
Lemma streams_count wr : bytestreams_ wr = streams many -> countOf wr = Some (zeros many).
Proof.
  intros Hs. unfold countOf. rewrite (streams_total _ Hs), Hs, streams_size.
  rewrite streams_available. unfold computeCount.
  change (21844 <? packetMaxPayloadBytes 21844) with false. cbv iota.
  apply mapOption_repeat. vm_compute. reflexivity.
Qed.

Lemma accumulate_zeros n : accumulate (zeros n) = 0.
Proof.
  unfold accumulate, zeros. induction n as [ | n IH]; [reflexivity | ].
  cbn [repeat fold_left]. exact IH.
Qed.

Lemma wrap16_zeros n : map wrap16 (zeros n) = zeros n.
Proof.
  unfold zeros. induction n as [ | n IH]; [reflexivity | ].
  cbn [repeat map]. rewrite IH. reflexivity.
Qed.

Section Loop.
Context `{Host}.

(** Reading no byte from each of the streams leaves them as they are. *)
Lemma streams_read n p :
  p <= DATA_PACKET_MAX ->
  outputReadAll (streams n) (zeros n) p = (Returns ([], p), streams n).
Proof.
  intros Hp. unfold streams, zeros. generalize 0%nat as start.
  induction n as [ | n IH]; intros start; [reflexivity | ].
  cbn [seq map repeat outputReadAll]. rewrite Z.add_0_r.
  assert (Hfit : (DATA_PACKET_MAX <? p) = false) by (apply Z.ltb_ge; exact Hp).
  rewrite Hfit, andb_false_r. cbn [outputRead BitpackEncoder].
  unfold Bitpack.outputRead. cbn. rewrite ?Hfit, IH. reflexivity.
Qed.

(** With 21844 streams that hold a byte each, [packetWrite] puts a
    packet without payload into the file and takes nothing from the
    streams. *)
Lemma packetWrite_stuck (w : World Bitpack.Encoder) :
  bytestreams_ (writer w) = streams many ->
  exists off w',
    packetWrite w = (Returns off, w')
    /\ bytestreams_ (writer w') = streams many.
Proof.
  intros Hs.
  assert (Hasm : exists w1, assembleDataPacket (zeros many) w = (Returns 43696, w1)
                            /\ bytestreams_ (writer w1) = streams many).
  { apply (assembleDataPacket_run (zeros many) w [] 43694 (streams many) (43696, 2)).
    - rewrite Hs, streams_size. reflexivity.
    - rewrite Hs, streams_size. apply streams_read. unfold DATA_PACKET_MAX. lia.
    - rewrite Hs, streams_size, accumulate_zeros. apply andb_false_r.
    - vm_compute. reflexivity.
    - rewrite Hs, streams_size. unfold DataPacket_verify.
      cbn [header bsbLength packetType packetLogicalLengthMinus1 bytestreamCount fst].
      rewrite wrap16_zeros. unfold zeros. rewrite sumZ_repeat. reflexivity. }
  destruct Hasm as (w1 & Hasm & Hs1).
  destruct (packetWrite_run (zeros many) w w1 43696) as (w' & Hrun & Hbs).
  - rewrite (streams_total _ Hs). reflexivity.
  - apply streams_count. exact Hs.
  - rewrite Hs, streams_size, accumulate_zeros. apply andb_false_r.
  - exact Hasm.
  - eexists. exists w'. split; [exact Hrun | ]. rewrite Hbs. exact Hs1.
Qed.

Lemma drain_stuck fuel (w : World Bitpack.Encoder) :
  bytestreams_ (writer w) = streams many -> fst (drain fuel w) = Diverges.
Proof.
  revert w. induction fuel as [ | fuel IH]; intros w Hs; [reflexivity | ].
  cbn [drain]. unfold bind at 1. unfold get at 1. cbv beta iota.
  rewrite (streams_total _ Hs). change (0 <? 21844) with true. cbv iota.
  destruct (packetWrite_stuck w Hs) as (off & w' & Hrun & Hs').
  rewrite (bind_eq _ _ _ _ _ Hrun).
  unfold bind at 1. unfold flush, modify_writer. unfold modify at 1. cbv beta iota.
  apply IH. change (bytestreams_ (writer (set_writer ?f w')))
    with (map registerFlushToOutput (bytestreams_ (writer w'))).
  rewrite Hs'. apply streams_flush.
Qed.

End Loop.

End StuckFacts.


(* ===================================================================== *)
(** * The writer at work: examples, and where the specification and the
      code part *)
(* ===================================================================== *)

Section Examples.
Existing Instance sampleHost.

(** The rounding of [F32] is that of binary32 in the Standard Library,
    on the quotient and the product of the example below. *)
Example rnd_is_binary32 :
  F32.of_spec_float (F32.b32_div (F32.b32_of_Z 65525) (F32.b32_of_Z 100277))
  = Some (F32.div (F32.of_Z 65525) (F32.of_Z 100277))
  /\ F32.of_spec_float
       (F32.b32_mul (F32.b32_div (F32.b32_of_Z 65525) (F32.b32_of_Z 100277))
          (F32.b32_of_Z 100000))
     = Some (F32.mul (F32.div (F32.of_Z 65525) (F32.of_Z 100277)) (F32.of_Z 100000)).
Proof. split; vm_compute; reflexivity. Qed.

(** The worlds of [Stuck] are the ones the writer gets to: with 40
    fields, the constructor and [write( 1 )] lead to [Stuck.written 40]. *)
Example written_is_reached :
  (CompressedVectorWriterImpl (seq 0 40) ;; write 100 1) (Stuck.before 40)
  = (Returns tt, Stuck.written 40).
Proof. vm_compute. reflexivity. Qed.

Lemma opened_History : History Sample.oneField [] Example.opened.
Proof. apply (History_new _ [0%nat]). vm_compute. reflexivity. Defined.

Lemma wrote3_History :
  History Sample.oneField [(CallWrite 100 3, Returns tt)] Example.wrote3.
Proof.
  apply (History_call _ [] Example.opened (CallWrite 100 3) (Returns tt)).
  - exact opened_History.
  - vm_compute. reflexivity.
  - exact I.
Defined.

(** C6, where the code fails.  With 21844 streams that hold one byte
    each, [maxPayload] is 21842 and every [count.at( i )] is 0:
    [packetWrite] returns and leaves the 21844 bytes where they are, and
    the drain loop of [close] goes on for ever. *)
Theorem drain_loop_never_ends :
  isOpen_ (writer (Stuck.written Stuck.many)) = true
  /\ totalOutputAvailable (writer (Stuck.written Stuck.many)) = 21844
  /\ maxPayload (writer (Stuck.written Stuck.many)) = 21842
  /\ (exists off w',
        packetWrite (Stuck.written Stuck.many) = (Returns off, w')
        /\ totalOutputAvailable (writer w') = 21844)
  /\ forall fuel, fst (close fuel (Stuck.written Stuck.many)) = Diverges.
Proof.
  assert (Hs : bytestreams_ (writer (Stuck.written Stuck.many)) = Stuck.streams Stuck.many)
    by reflexivity.
  split; [reflexivity | ].
  split; [apply StuckFacts.streams_total; exact Hs | ].
  split.
  { unfold maxPayload. rewrite Hs, StuckFacts.streams_size. reflexivity. }
  split.
  - destruct (StuckFacts.packetWrite_stuck _ Hs) as (off & w' & Hrun & Hs').
    exists off, w'. split; [exact Hrun | ]. apply StuckFacts.streams_total. exact Hs'.
  - intros fuel. rewrite close_open by reflexivity.
    pose proof (StuckFacts.drain_stuck fuel (closing (Stuck.written Stuck.many))) as Hd.
    unfold bind.
    destruct (drain fuel (closing (Stuck.written Stuck.many))) as [o w'].
    cbn [fst] in Hd. rewrite Hd; [reflexivity | ].
    change (bytestreams_ (writer (closing (Stuck.written Stuck.many))))
      with (map registerFlushToOutput (Stuck.streams Stuck.many)).
    apply StuckFacts.streams_flush.
Qed.

End Examples.


Section Capacities.
Context {E : Type} `{Encoder E} `{Host}.

(** When the bound buffers have one capacity, the capacity [write] reads
    from [sbufs_.at( 0 )] is the capacity of each of them. *)
Lemma write_beyond_shared_capacity (w : World E) fuel n sbuf0 impl0 sbuf i :
  isOpen_ (writer w) = true ->
  0 < n ->
  nth_error (sbufs_ (writer w)) 0 = Some sbuf0 ->
  nth_error (store w) sbuf0 = Some impl0 ->
  In sbuf (sbufs_ (writer w)) ->
  nth_error (store w) sbuf = Some i ->
  capacity i = capacity impl0 ->
  capacity i < n ->
  write fuel n w = (Throws ErrorBadAPIArgument, w).
Proof.
  intros Ho Hn Hs Hi _ _ Heq Hcap.
  rewrite (write_open _ _ _ Ho).
  destruct (n =? 0) eqn:Hz; [apply Z.eqb_eq in Hz; lia | ].
  unfold bind, at_, impl. rewrite Hs. simpl. rewrite Hi.
  destruct (capacity impl0 <? n) eqn:Hlt; [reflexivity | ].
  apply Z.ltb_ge in Hlt. lia.
Qed.

End Capacities.

Section Witnesses.
Existing Instance sampleHost.

Ltac by_computation :=
  first [ vm_compute; reflexivity
        | vm_compute; intros ?; discriminate
        | vm_compute; discriminate ].

Lemma wrote0_History :
  History Sample.oneField [(CallWrite 100 0, Returns tt)] Example2.wrote0.
Proof.
  apply (History_call _ [] Example.opened (CallWrite 100 0) (Returns tt)).
  - exact opened_History.
  - vm_compute. reflexivity.
  - exact I.
Defined.

Lemma close_writes_section_header_witness :
  exists recent indexOffset indexPacket sectionHeader,
    events (file_ (imf Example.closed))
    = EvWrite (sectionHeaderLogicalStart_ (writer Example.wrote3))
        (BSectionHeader sectionHeader) 32
      :: EvWrite indexOffset (BIndexPacket indexPacket) 32
      :: recent ++ events (file_ (imf Sample.oneField))
    /\ sectionHeaderLogicalStart_ (writer Example.wrote3)
       = unusedLogicalStart_ (imf Sample.oneField)
    /\ indexPacketOffsets recent = []
    /\ (Z.of_nat (length (dataPacketOffsets recent)) < 2 ^ 64 ->
        dataPhysicalOffset sectionHeader = firstPhysicalOffset (dataPacketOffsets recent))
    /\ indexPhysicalOffset sectionHeader = logicalToPhysical indexOffset
    /\ sectionLogicalLength sectionHeader
       = wrap64 (unusedLogicalStart_ (imf Example.closed)
                 - sectionHeaderLogicalStart_ (writer Example.wrote3))
    /\ unusedLogicalStart_ (imf Example.closed) = wrap64 (indexOffset + 32).
Proof.
  apply (close_writes_section_header Sample.oneField
           [(CallWrite 100 3, Returns tt)] Example.wrote3 100 Example.closed).
  - exact wrote3_History.
  - vm_compute. reflexivity.
Defined.

(** C2, where the code and the claim part: the writer over one field,
    closed without a call of [write], has written its index packet and no
    data packet. *)
Lemma close_without_write_counts :
  History Sample.oneField [] Example.opened
  /\ close 100 Example.opened = (Returns tt, Example2.closedAtOnce)
  /\ indexPacketsCount_ (writer Example2.closedAtOnce) = 1
  /\ dataPacketsCount_ (writer Example2.closedAtOnce) = 0
  /\ ~ 1 <= dataPacketsCount_ (writer Example2.closedAtOnce).
Proof.
  split; [exact opened_History | ].
  split; [vm_compute; reflexivity | ].
  split; [reflexivity | ]. split; [reflexivity | ].
  vm_compute. intros Hle. apply Hle. reflexivity.
Qed.

Lemma close_packet_counts_witness :
  indexPacketsCount_ (writer Example2.closed0) = 1
  /\ exists recent,
       events (file_ (imf Example2.closed0)) = recent ++ events (file_ (imf Sample.oneField))
       /\ length (indexPacketOffsets recent) = 1%nat
       /\ (wroteZeroRecords [(CallWrite 100 0, Returns tt)] = true ->
           Z.of_nat (length (dataPacketOffsets recent)) < 2 ^ 64 ->
           1 <= dataPacketsCount_ (writer Example2.closed0)).
Proof.
  apply (close_packet_counts Sample.oneField
           [(CallWrite 100 0, Returns tt)] Example2.wrote0 100 Example2.closed0).
  - exact wrote0_History.
  - vm_compute. reflexivity.
Defined.

Lemma recordCount_is_sum_of_writes_witness :
  recordCount_ (writer Example.wrote3) = wrap64 (recordsWritten [(CallWrite 100 3, Returns tt)])
  /\ (0 <= recordsWritten [(CallWrite 100 3, Returns tt)] < 2 ^ 64 ->
      recordCount_ (writer Example.wrote3) = recordsWritten [(CallWrite 100 3, Returns tt)])
  /\ forall fuel, exists w',
       write fuel 0 Example.wrote3 = (Returns tt, w')
       /\ recordCount_ (writer w') = recordCount_ (writer Example.wrote3)
       /\ events (file_ (imf w'))
          = EvWrite (unusedLogicalStart_ (imf Example.wrote3))
              (BDataPacket zeroRecordsPacket) 8
            :: events (file_ (imf Example.wrote3)).
Proof.
  apply (recordCount_is_sum_of_writes Sample.oneField). exact wrote3_History.
Defined.

Lemma close_again_decrements_writerCount_witness :
  exists w',
    close 100 Example.closed = (Returns tt, w')
    /\ writer w' = writer Example.closed
    /\ file_ (imf w') = file_ (imf Example.closed)
    /\ unusedLogicalStart_ (imf w') = unusedLogicalStart_ (imf Example.closed)
    /\ writerCount_ (imf w') = writerCount_ (imf Example.closed) - 1.
Proof.
  apply (close_again_decrements_writerCount Example.closed 100). vm_compute. reflexivity.
Defined.

(** The writer count over two calls of [close]: the constructor has
    counted the writer once, the first [close] takes it off the count, and
    the second [close] takes it off again: the count of the file is -1. *)
Lemma second_close_changes_the_file_state :
  writerCount_ (imf Sample.oneField) = 0
  /\ writerCount_ (imf Example.opened) = 1
  /\ writerCount_ (imf Example.closed) = 0
  /\ fst (close 100 Example.closed) = Returns tt
  /\ writerCount_ (imf (snd (close 100 Example.closed))) = -1
  /\ snd (close 100 Example.closed) <> Example.closed.
Proof.
  repeat (split; [vm_compute; reflexivity | ]).
  intros Heq. apply (f_equal (fun w => writerCount_ (imf w))) in Heq.
  vm_compute in Heq. discriminate.
Qed.

Lemma write2_on_closed_writer_witness :
  ((length [0%nat; 0%nat] <> length (sbufs_ (writer Example.closed)) ->
    write2 100 [0%nat; 0%nat] 5 Example.closed
    = (Throws ErrorBuffersNotCompatible, Example.closed))
   /\ (accepted Example.closed [0%nat; 0%nat] = true ->
       write2 100 [0%nat; 0%nat] 5 Example.closed
       = (Throws ErrorWriterNotOpen, set_writer (set_sbufs [0%nat; 0%nat]) Example.closed)
       /\ sbufs_ (writer (snd (write2 100 [0%nat; 0%nat] 5 Example.closed)))
          = [0%nat; 0%nat]))
  /\ ((length [0%nat] <> length (sbufs_ (writer Example.closed)) ->
       write2 100 [0%nat] 5 Example.closed
       = (Throws ErrorBuffersNotCompatible, Example.closed))
      /\ (accepted Example.closed [0%nat] = true ->
          write2 100 [0%nat] 5 Example.closed
          = (Throws ErrorWriterNotOpen, set_writer (set_sbufs [0%nat]) Example.closed)
          /\ sbufs_ (writer (snd (write2 100 [0%nat] 5 Example.closed))) = [0%nat]))
  /\ length [0%nat; 0%nat] <> length (sbufs_ (writer Example.closed))
  /\ accepted Example.closed [0%nat] = true.
Proof.
  split; [ | split; [ | split]].
  - apply (write2_on_closed_writer Example.closed 100 [0%nat; 0%nat] 5); by_computation.
  - apply (write2_on_closed_writer Example.closed 100 [0%nat] 5); by_computation.
  - by_computation.
  - by_computation.
Defined.

(** The guard of [write] reads the capacity of [sbufs_.at( 0 )] alone:
    with buffers of capacities 10 and 5 bound, 7 records are more than the
    second buffer holds, and the call does not throw
    [ErrorBadAPIArgument]. *)
Lemma write_beyond_second_capacity :
  isOpen_ (writer Example.opened2) = true
  /\ (exists sbuf i,
        In sbuf (sbufs_ (writer Example.opened2))
        /\ nth_error (store Example.opened2) sbuf = Some i
        /\ capacity i < 7)
  /\ fst (write 100 7 Example.opened2) <> Throws ErrorBadAPIArgument.
Proof.
  split; [reflexivity | ]. split.
  - exists 1%nat, (Sample.buffer "y" 5 [1; 2; 3; 4; 5]).
    split; [right; left; reflexivity | ]. split; reflexivity.
  - vm_compute. discriminate.
Qed.

Lemma write_beyond_first_capacity_witness :
  write 100 11 Example.opened = (Throws ErrorBadAPIArgument, Example.opened)
  /\ forall fuel' n',
       write fuel' n' (snd (write 100 11 Example.opened)) = write fuel' n' Example.opened.
Proof.
  apply (write_beyond_first_capacity Example.opened 100 11 0%nat
           (Sample.buffer "x" 10 [1; 2; 3; 4; 5; 6; 7; 8; 9; 10])).
  - reflexivity.
  - reflexivity.
  - reflexivity.
  - reflexivity.
  - reflexivity.
Defined.

(** The scenario of the specification: after [write( 11 )] has failed
    on buffers of capacity 10, [write( 5 )] returns. *)
Example write_after_failed_write :
  fst (write 100 11 Example.opened) = Throws ErrorBadAPIArgument
  /\ fst (write 100 5 (snd (write 100 11 Example.opened))) = Returns tt
  /\ recordCount_ (writer (snd (write 100 5 (snd (write 100 11 Example.opened))))) = 5.
Proof. repeat split; vm_compute; reflexivity. Qed.

(** C5, where the code and the claim part: with 277 and 100000 bytes
    in two streams, [count.at( 1 )] is 65344, and [(maxPayload - 1) *
    100000 / 100277] rounded down is 65343; the binary32 arithmetic of the
    Standard Library gives the product the code rounds down as 65344. *)
Lemma count_differs_from_exact_quotient :
  maxPayload Example.twoStreams = 65526
  /\ available Example.twoStreams = [277; 100000]
  /\ countOf Example.twoStreams = Some [181; 65344]
  /\ (65526 - 1) * 100000 / (277 + 100000) = 65343
  /\ F32.of_spec_float
       (F32.b32_mul (F32.b32_div (F32.b32_of_Z 65525) (F32.b32_of_Z 100277))
          (F32.b32_of_Z 100000)) = Some (inject_Z 65344)
  /\ ~ Forall2 (fun a c => c = (maxPayload Example.twoStreams - 1) * a
                               / sumZ (available Example.twoStreams))
         (available Example.twoStreams) [181; 65344].
Proof.
  assert (HM : maxPayload Example.twoStreams = 65526) by (vm_compute; reflexivity).
  assert (Hav : available Example.twoStreams = [277; 100000]) by (vm_compute; reflexivity).
  rewrite HM, Hav.
  repeat (split; [vm_compute; reflexivity | ]).
  intros Hall. inversion Hall as [ | ? ? ? ? _ Hrest]; subst.
  inversion Hrest as [ | ? ? ? ? Hc _]; subst.
  vm_compute in Hc. discriminate.
Qed.

Lemma data_packet_lengths_witness :
  (events (file_ (imf (snd (packetWrite Example.wrote3))))
   = events (file_ (imf Example.wrote3))
   \/ exists pkt len,
        events (file_ (imf (snd (packetWrite Example.wrote3))))
        = EvWrite (unusedLogicalStart_ (imf Example.wrote3)) (BDataPacket pkt) len
          :: events (file_ (imf Example.wrote3))
        /\ len mod 4 = 0 /\ 0 < len <= DATA_PACKET_MAX)
  /\ padPacket 1 65537 (wrap32 65537) 0 = Throws ErrorInternal.
Proof.
  destruct (@data_packet_lengths Bitpack.Encoder _ BitpackEncoderLaws sampleHost)
    as (Hpacket & _ & Hpad & _).
  split.
  - apply (Hpacket Example.wrote3 _ (fst (packetWrite Example.wrote3))).
    apply surjective_pairing.
  - apply Hpad; by_computation.
Defined.

Lemma count_of_packetWrite_witness :
  (sumZ (available Example.fourStreams) < maxPayload Example.fourStreams ->
   [16380; 16380; 16380; 16380] = available Example.fourStreams)
  /\ (maxPayload Example.fourStreams <= sumZ (available Example.fourStreams) ->
      Forall2 (fun a c =>
                 c = F32.floor
                       (F32.mul (F32.div (F32.of_Z (maxPayload Example.fourStreams - 1))
                                         (F32.of_Z (sumZ (available Example.fourStreams))))
                                (F32.of_Z a))
                 /\ (maxPayload Example.fourStreams - 1) * a
                    / sumZ (available Example.fourStreams) - 1 <= c
                    <= (maxPayload Example.fourStreams - 1) * a
                       / sumZ (available Example.fourStreams) + 1)
        (available Example.fourStreams) [16380; 16380; 16380; 16380])
  /\ sumZ [16380; 16380; 16380; 16380] <= maxPayload Example.fourStreams.
Proof.
  apply (count_of_packetWrite Example.fourStreams [16380; 16380; 16380; 16380]);
    by_computation.
Defined.


End Witnesses.


(* ===================================================================== *)
(** * The constructor *)
(* ===================================================================== *)

Section FailureFacts.
Context {S : Type}.

Lemma bind_obs {X A B} (obs : S -> X) (m : M S A) (f : A -> M S B) s o s' :
  bind m f s = (o, s') -> preserves obs m ->
  (forall a s1, f a s1 = (o, s') -> obs s' = obs s1) ->
  obs s' = obs s.
Proof.
  intros Hb Hp Hf. unfold bind in Hb. specialize (Hp s).
  destruct (m s) as [[a | e | | ] s1]; simpl in Hp.
  - rewrite <- Hp. exact (Hf a s1 Hb).
  - inversion Hb; subst. exact Hp.
  - inversion Hb; subst. exact Hp.
  - inversion Hb; subst. exact Hp.
Qed.

End FailureFacts.

Section Constructor.
Context {E : Type} `{Encoder E} `{Host}.

Lemma setBuffers_preserves_outside sbufs : preserves (@outside E) (setBuffers sbufs).
Proof.
  intros w. destruct (setBuffers sbufs w) as [o w'] eqn:Hr. simpl.
  destruct (setBuffers_cases _ _ _ _ Hr) as [(_ & -> & _) | (_ & ->)]; reflexivity.
Qed.

Lemma makeEncoders_preserves_outside sbufs : preserves (@outside E) (makeEncoders sbufs).
Proof.
  intros w. pose proof (makeEncoders_preserves sbufs w) as Hs. unfold shell in Hs.
  pose proof (f_equal fst Hs) as Hc. pose proof (f_equal snd Hs) as Hst. simpl in Hc, Hst.
  unfold outside. rewrite Hst.
  rewrite (f_equal c_isOpen Hc : isOpen_ (writer _) = isOpen_ (writer w)).
  rewrite (f_equal c_imf Hc : imf _ = imf w).
  rewrite (f_equal c_cVector Hc : cVector_ _ = cVector_ w).
  reflexivity.
Qed.

Lemma constructor_tail_Returns (w : World E) :
  exists w',
    (start <- allocateSpace sizeof_CompressedVectorSectionHeader true ;;
     modify_writer (set_sectionHeaderLogicalStart start) ;;
     modify_writer (set_sectionLogicalLength 0) ;;
     modify_writer (set_dataPhysicalOffset 0) ;;
     modify_writer (set_topIndexPhysicalOffset 0) ;;
     modify_writer (set_recordCount 0) ;;
     modify_writer (set_dataPacketsCount 0) ;;
     modify_writer (set_indexPacketsCount 0) ;;
     incrWriterCount ;;
     modify_writer (set_isOpen true)) w = (Returns tt, w').
Proof. eexists. reflexivity. Qed.

(** X1. A constructor that does not return leaves the writer not open
    and the image file, the node and the buffers as they were: nothing is
    reserved in the file and the writer is not counted.  With no buffers
    at all it throws [ErrorBadAPIArgument]. *)
Theorem constructor_failure_keeps_file sbufs (w w' : World E) o :
  CompressedVectorWriterImpl sbufs w = (o, w') ->
  ~ isReturn o ->
  isOpen_ (writer w') = false
  /\ imf w' = imf w
  /\ cVector_ w' = cVector_ w
  /\ store w' = store w
  /\ (sbufs = [] -> o = Throws ErrorBadAPIArgument).
Proof.
  intros Hr Hno.
  assert (Hout : outside w' = (false, imf w, cVector_ w, store w)).
  { change (CompressedVectorWriterImpl sbufs w)
      with (((if size sbufs =? 0 then throw ErrorBadAPIArgument else ret tt) ;;
             modify (fun w => set_writer (set_proto (prototype (cVector_ w))) w) ;;
             setBuffers sbufs ;;
             w <- get ;;
             makeEncoders (sbufs_ (writer w)) ;;
             modify_writer (fun wr => set_bytestreams (sort (bytestreams_ wr)) wr) ;;
             w <- get ;;
             (if VALIDATION_DEEP && negb (numberedFrom 0 (bytestreams_ (writer w)))
              then throw ErrorInternal else ret tt) ;;
             start <- allocateSpace sizeof_CompressedVectorSectionHeader true ;;
             modify_writer (set_sectionHeaderLogicalStart start) ;;
             modify_writer (set_sectionLogicalLength 0) ;;
             modify_writer (set_dataPhysicalOffset 0) ;;
             modify_writer (set_topIndexPhysicalOffset 0) ;;
             modify_writer (set_recordCount 0) ;;
             modify_writer (set_dataPacketsCount 0) ;;
             modify_writer (set_indexPacketsCount 0) ;;
             incrWriterCount ;;
             modify_writer (set_isOpen true))
              (set_writer (fun _ => blankWriter) w)) in Hr.
    change (false, imf w, cVector_ w, store w)
      with (outside (set_writer (fun _ : Writer E => blankWriter) w)).
    eapply bind_obs; [exact Hr | preserves_auto | intros [] s1 Hr1].
    eapply bind_obs; [exact Hr1 | preserves_auto | intros [] s2 Hr2].
    eapply bind_obs; [exact Hr2 | apply setBuffers_preserves_outside | intros [] s3 Hr3].
    eapply bind_obs; [exact Hr3 | preserves_auto | intros wg s4 Hr4].
    eapply bind_obs; [exact Hr4 | apply makeEncoders_preserves_outside | intros [] s5 Hr5].
    eapply bind_obs; [exact Hr5 | unfold modify_writer; preserves_auto | intros [] s6 Hr6].
    eapply bind_obs; [exact Hr6 | preserves_auto | intros wh s7 Hr7].
    eapply bind_obs; [exact Hr7 | preserves_auto | intros [] s8 Hr8].
    exfalso. destruct (constructor_tail_Returns s8) as (w8 & Hw8).
    rewrite Hw8 in Hr8. inversion Hr8; subst o. apply Hno. exact I. }
  unfold outside in Hout. inversion Hout as [[Ho Hi Hc Hs]].
  repeat (split; [reflexivity | ]).
  intros ->. unfold CompressedVectorWriterImpl, bind, modify_writer, modify in Hr.
  simpl in Hr. inversion Hr. reflexivity.
Qed.

End Constructor.

Section ConstructorReturns.
Context {E : Type} `{Encoder E} `{Host}.

Lemma pathNames_Returns sbufs paths (w w' : World E) :
  pathNames sbufs w = (Returns paths, w') -> pathNamesIn (store w) sbufs = Some paths.
Proof.
  revert paths w'. induction sbufs as [ | b rest IH]; intros paths w' Hr.
  - inversion Hr. reflexivity.
  - cbn [pathNames pathNamesIn] in *. unfold bind, impl in Hr.
    destruct (nth_error (store w) b) as [i | ]; [ | discriminate].
    destruct (pathNames rest w) as [[ps | e | | ] w1] eqn:Hrest; try discriminate.
    inversion Hr; subst. rewrite (IH _ _ eq_refl). reflexivity.
Qed.

Lemma setBuffers_Returns_checked sbufs (w w' : World E) :
  setBuffers sbufs w = (Returns tt, w') ->
  exists paths,
    pathNamesIn (store w) sbufs = Some paths
    /\ checkBuffers (proto_ (writer w)) paths = true.
Proof.
  unfold setBuffers. intros Hr.
  apply bind_Returns in Hr as (wg & w1 & Hm & Hr). inversion Hm; subst wg w1; clear Hm.
  apply bind_Returns in Hr as ([] & w2 & Hm & Hr).
  assert (Hw2 : w2 = w).
  { assert (Hp : preserves (fun x : World E => x)
                   (if negb (size (sbufs_ (writer w)) =? 0)
                    then if negb (size (sbufs_ (writer w)) =? size sbufs)
                         then throw ErrorBuffersNotCompatible
                         else checkCompatibleAll (sbufs_ (writer w)) sbufs
                    else ret tt)).
    { repeat apply preserves_if; auto with preserves.
      apply checkCompatibleAll_preserves. }
    exact (preserves_run _ _ _ _ _ Hp Hm). }
  subst w2.
  apply bind_Returns in Hr as (paths & w3 & Hm2 & Hr).
  exists paths. split; [exact (pathNames_Returns _ _ _ _ Hm2) | ].
  apply bind_Returns in Hr as ([] & w4 & Hm3 & Hr).
  destruct (checkBuffers _ _); [reflexivity | discriminate].
Qed.

Lemma insert_Permutation (e : E) l : Permutation (insertByBytestreamNumber e l) (e :: l).
Proof.
  induction l as [ | x l IH]; simpl; [apply Permutation_refl | ].
  destruct (bytestreamNumber e <? bytestreamNumber x); [apply Permutation_refl | ].
  eapply perm_trans; [apply perm_skip; exact IH | apply perm_swap].
Qed.

Lemma sort_Permutation (l : list E) : Permutation (sort l) l.
Proof.
  induction l as [ | x l IH]; simpl; [apply perm_nil | ].
  eapply perm_trans; [apply insert_Permutation | apply perm_skip; exact IH].
Qed.

Lemma insert_sorted (e : E) l :
  StronglySorted byBytestreamNumber l ->
  StronglySorted byBytestreamNumber (insertByBytestreamNumber e l).
Proof.
  induction l as [ | x l IH]; intros Hs; simpl.
  - constructor; constructor.
  - inversion Hs as [ | ? ? Hl Hx]; subst.
    destruct (bytestreamNumber e <? bytestreamNumber x) eqn:Hlt.
    + apply Z.ltb_lt in Hlt. constructor; [exact Hs | ].
      constructor; [unfold byBytestreamNumber; lia | ].
      eapply Forall_impl; [ | exact Hx]. unfold byBytestreamNumber. intros a Ha. lia.
    + apply Z.ltb_ge in Hlt. constructor; [exact (IH Hl) | ].
      eapply Permutation_Forall; [apply Permutation_sym, insert_Permutation | ].
      constructor; [exact Hlt | exact Hx].
Qed.

(** X3. Sorting with [SortByBytestreamNumber] rearranges the encoders
    and loses none: the result is a permutation of what went in, in
    ascending order of [bytestreamNumber]. *)
Theorem sort_sorted_permutation (l : list E) :
  Permutation (sort l) l /\ StronglySorted byBytestreamNumber (sort l).
Proof.
  split; [apply sort_Permutation | ].
  induction l as [ | x l IH]; simpl; [constructor | apply insert_sorted; exact IH].
Qed.

Lemma makeEncoders_length sbufs (w w' : World E) :
  makeEncoders sbufs w = (Returns tt, w') ->
  length (bytestreams_ (writer w')) = (length (bytestreams_ (writer w)) + length sbufs)%nat.
Proof.
  revert w. induction sbufs as [ | sbuf rest IH]; intros w Hr.
  - inversion Hr. simpl. lia.
  - cbn [makeEncoders] in Hr. unfold bind at 1, impl in Hr.
    destruct (nth_error (store w) sbuf) as [b | ]; [ | discriminate].
    unfold bind at 1, get in Hr.
    destruct (findTerminalPosition _ _ _) as [n | ]; [ | discriminate].
    unfold bind at 1, modify_writer, modify in Hr.
    apply IH in Hr. rewrite Hr. simpl. rewrite length_app. simpl. lia.
Qed.

Lemma numberedFrom_nth (l : list E) k i e :
  numberedFrom k l = true -> nth_error l i = Some e -> bytestreamNumber e = k + Z.of_nat i.
Proof.
  revert k i. induction l as [ | x l IH]; intros k i Hn Hi.
  - destruct i; discriminate.
  - simpl in Hn. apply andb_true_iff in Hn as (Hx & Hl). apply Z.eqb_eq in Hx.
    destruct i as [ | i].
    + inversion Hi; subst. lia.
    + simpl in Hi. rewrite (IH _ _ Hl Hi). lia.
Qed.

Lemma constructor_run sbufs (w0 w1 : World E) :
  CompressedVectorWriterImpl sbufs w0 = (Returns tt, w1) ->
  exists we,
    setBuffers sbufs (constructing w0)
    = (Returns tt, set_writer (set_sbufs sbufs) (constructing w0))
    /\ makeEncoders sbufs (set_writer (set_sbufs sbufs) (constructing w0)) = (Returns tt, we)
    /\ bytestreams_ (writer w1) = sort (bytestreams_ (writer we))
    /\ (VALIDATION_DEEP = true -> numberedFrom 0 (bytestreams_ (writer w1)) = true).
Proof.
  unfold CompressedVectorWriterImpl, modify_writer. intros Hr.
  apply bind_Returns in Hr as ([] & wa & Hm & Hr). inversion Hm; subst wa; clear Hm.
  apply bind_Returns in Hr as ([] & wb & Hm & Hr).
  destruct (size sbufs =? 0) eqn:Hsz; [discriminate | ].
  inversion Hm; subst wb; clear Hm.
  apply bind_Returns in Hr as ([] & wc & Hm & Hr). inversion Hm; subst wc; clear Hm.
  apply bind_Returns in Hr as ([] & wd & Hm & Hr).
  pose proof (setBuffers_Returns _ _ _ Hm) as Hwd. subst wd.
  apply bind_Returns in Hr as (wg & we & Hg & Hr). inversion Hg; subst wg we; clear Hg.
  apply bind_Returns in Hr as ([] & wf & Hmk & Hr).
  exists wf. split; [exact Hm | ]. split; [exact Hmk | ].
  apply bind_Returns in Hr as ([] & wh & Hm1 & Hr). inversion Hm1; subst wh; clear Hm1.
  apply bind_Returns in Hr as (wg & wi & Hm1 & Hr). inversion Hm1; subst wg wi; clear Hm1.
  apply bind_Returns in Hr as ([] & wj & Hm1 & Hr).
  destruct (VALIDATION_DEEP && _) eqn:Hdeep; [discriminate | ].
  inversion Hm1; subst wj; clear Hm1.
  unfold bind, allocateSpace, modify, incrWriterCount in Hr. simpl in Hr.
  inversion Hr; subst w1; clear Hr. simpl.
  split; [reflexivity | ].
  intros Hd. rewrite Hd in Hdeep. simpl in Hdeep.
  apply negb_false_iff in Hdeep. exact Hdeep.
Qed.

(** X2. When the constructor returns, the buffers are the ones the
    prototype of the node asks for, the writer is open over them with all
    its counters at zero, the 32 bytes of the section header are reserved at
    what was the frontier of the file, which has been extended over them,
    and the image file counts one more writer.  The node and the buffers
    are as they were. *)
Theorem constructor_opens_section sbufs (w0 w1 : World E) :
  CompressedVectorWriterImpl sbufs w0 = (Returns tt, w1) ->
  sbufs <> []
  /\ (exists paths,
        pathNamesIn (store w0) sbufs = Some paths
        /\ checkBuffers (prototype (cVector_ w0)) paths = true)
  /\ isOpen_ (writer w1) = true
  /\ sbufs_ (writer w1) = sbufs
  /\ proto_ (writer w1) = prototype (cVector_ w0)
  /\ sectionHeaderLogicalStart_ (writer w1) = unusedLogicalStart_ (imf w0)
  /\ unusedLogicalStart_ (imf w1) = wrap64 (unusedLogicalStart_ (imf w0) + 32)
  /\ events (file_ (imf w1))
     = EvExtend (wrap64 (unusedLogicalStart_ (imf w0) + 32)) :: events (file_ (imf w0))
  /\ writerCount_ (imf w1) = writerCount_ (imf w0) + 1
  /\ (recordCount_ (writer w1) = 0 /\ dataPacketsCount_ (writer w1) = 0
      /\ indexPacketsCount_ (writer w1) = 0 /\ dataPhysicalOffset_ (writer w1) = 0
      /\ topIndexPhysicalOffset_ (writer w1) = 0 /\ sectionLogicalLength_ (writer w1) = 0)
  /\ cVector_ w1 = cVector_ w0
  /\ store w1 = store w0.
Proof.
  intros Hr.
  destruct (constructor_Returns _ _ _ Hr) as (Hcore & Hne & Hst).
  destruct (constructor_run _ _ _ Hr) as (we & Hset & _).
  destruct (setBuffers_Returns_checked _ _ _ Hset) as (paths & Hp & Hc).
  split; [exact Hne | ]. split; [exists paths; split; [exact Hp | exact Hc] | ].
  split; [exact (f_equal c_isOpen Hcore) | ].
  split; [exact (f_equal c_sbufs Hcore) | ].
  split; [exact (f_equal c_proto Hcore) | ].
  split; [exact (f_equal c_sectionHeaderLogicalStart Hcore) | ].
  split; [exact (f_equal (fun c => unusedLogicalStart_ (c_imf c)) Hcore) | ].
  split; [exact (f_equal (fun c => events (file_ (c_imf c))) Hcore) | ].
  split; [exact (f_equal (fun c => writerCount_ (c_imf c)) Hcore) | ].
  split.
  { split; [exact (f_equal c_recordCount Hcore) | ].
    split; [exact (f_equal c_dataPacketsCount Hcore) | ].
    split; [exact (f_equal c_indexPacketsCount Hcore) | ].
    split; [exact (f_equal c_dataPhysicalOffset Hcore) | ].
    split; [exact (f_equal c_topIndexPhysicalOffset Hcore) | ].
    exact (f_equal c_sectionLogicalLength Hcore). }
  split; [exact (f_equal c_cVector Hcore) | exact Hst].
Qed.

(** X4. When the constructor returns there is one encoder for each
    buffer, and the encoders stand in ascending order of
    [bytestreamNumber]; under deep validation the encoder at position [i]
    is the one of bytestream [i]. *)
Theorem constructor_bytestreams sbufs (w0 w1 : World E) :
  CompressedVectorWriterImpl sbufs w0 = (Returns tt, w1) ->
  length (bytestreams_ (writer w1)) = length sbufs
  /\ StronglySorted byBytestreamNumber (bytestreams_ (writer w1))
  /\ (VALIDATION_DEEP = true ->
      forall i e, nth_error (bytestreams_ (writer w1)) i = Some e ->
                  bytestreamNumber e = Z.of_nat i).
Proof.
  intros Hr. destruct (constructor_run _ _ _ Hr) as (we & _ & Hmk & Hs & Hdeep).
  split; [ | split].
  - rewrite Hs, (Permutation_length (sort_Permutation _)).
    rewrite (makeEncoders_length _ _ _ Hmk). reflexivity.
  - rewrite Hs. clear. induction (bytestreams_ (writer we)) as [ | x l IH]; simpl;
      [constructor | apply insert_sorted; exact IH].
  - intros Hd i e Hi. rewrite (numberedFrom_nth _ 0 i e (Hdeep Hd) Hi). lia.
Qed.

End ConstructorReturns.

(* ===================================================================== *)
(** * The layout of the section in the file *)
(* ===================================================================== *)

Section Layout.
Context {E : Type} `{Encoder E} `{Host}.

Lemma Packed_app start mid frontier older newer :
  Packed start older mid -> Packed mid newer frontier ->
  Packed start (newer ++ older) frontier.
Proof.
  intros Ho Hn. induction Hn as [ | evs fr b len _ IH]; simpl; [exact Ho | ].
  constructor. exact IH.
Qed.

Lemma Emits_layout c c' :
  Emits c c' ->
  exists packets,
    events (file_ (c_imf c')) = packets ++ events (file_ (c_imf c))
    /\ Forall isDataPacket packets
    /\ Packed (unusedLogicalStart_ (c_imf c)) packets (unusedLogicalStart_ (c_imf c'))
    /\ (0 <= c_dataPacketsCount c < 2 ^ 64 ->
        c_dataPacketsCount c' = wrap64 (c_dataPacketsCount c + Z.of_nat (length packets))).
Proof.
  induction 1 as [c | c c' pkt len _ (packets & Hev & Hall & Hp & Hn)].
  - exists []. split; [reflexivity | ]. split; [constructor | ]. split; [constructor | ].
    intros Hr. simpl. rewrite Z.add_0_r. symmetry. apply wrap64_small. exact Hr.
  - exists (EvWrite (unusedLogicalStart_ (c_imf c')) (BDataPacket pkt) len :: packets).
    simpl. split; [rewrite Hev; reflexivity | ].
    split; [constructor; [exact I | exact Hall] | ].
    split; [constructor; exact Hp | ].
    intros Hr. rewrite (Hn Hr), wrap64_add_l. f_equal. lia.
Qed.

Lemma setRecordsCore_id c : setRecordsCore (c_recordCount c) c = c.
Proof. destruct c. reflexivity. Qed.

Lemma write_Emits fuel n (w w' : World E) o :
  write fuel n w = (o, w') ->
  exists c1,
    Emits (core w) c1
    /\ core w' = setRecordsCore (recordCount_ (writer w')) c1
    /\ (~ isReturn o -> recordCount_ (writer w') = recordCount_ (writer w)).
Proof.
  intros Hr. pose proof (write_cases _ _ _ _ _ Hr) as Hc.
  assert (Hfail : Emits (core w) (core w') ->
                  exists c1, Emits (core w) c1
                    /\ core w' = setRecordsCore (recordCount_ (writer w')) c1
                    /\ recordCount_ (writer w') = recordCount_ (writer w)).
  { intros He. exists (core w'). split; [exact He | ].
    split; [symmetry; apply (setRecordsCore_id (core w')) | ].
    destruct (Emits_fields _ _ He) as (Hrec & _). exact Hrec. }
  destruct o as [[] | e | | ].
  - destruct Hc as (_ & Hc). destruct (n =? 0).
    + exists (core w'). split; [rewrite Hc; apply Emits_step, Emits_refl | ].
      split; [symmetry; apply (setRecordsCore_id (core w')) | ].
      intros Hno. exfalso. apply Hno. exact I.
    + destruct Hc as (c1 & He & Hcore). exists c1. split; [exact He | ].
      split; [ | intros Hno; exfalso; apply Hno; exact I].
      rewrite Hcore at 1. f_equal.
      exact (eq_sym (f_equal c_recordCount Hcore)).
  - destruct (Hfail Hc) as (c1 & ? & ? & ?). exists c1. auto.
  - destruct (Hfail Hc) as (c1 & ? & ? & ?). exists c1. auto.
  - destruct (Hfail Hc) as (c1 & ? & ? & ?). exists c1. auto.
Qed.

Lemma call_Emits c (w w' : World E) o :
  call c w = (o, w') ->
  exists sbufs c1,
    Emits (setSbufsCore sbufs (core w)) c1
    /\ core w' = setRecordsCore (recordCount_ (writer w')) c1
    /\ (~ isReturn o -> recordCount_ (writer w') = recordCount_ (writer w)).
Proof.
  assert (Hid : forall x : World E, core x = setSbufsCore (sbufs_ (writer x)) (core x))
    by reflexivity.
  destruct c as [fuel n | fuel sbufs n]; simpl; intros Hr.
  - destruct (write_Emits _ _ _ _ _ Hr) as (c1 & He & Hcore & Hrec).
    exists (sbufs_ (writer w)), c1. rewrite <- Hid. auto.
  - unfold write2, bind in Hr.
    destruct (setBuffers sbufs w) as [o1 w1] eqn:Hs.
    destruct (setBuffers_cases _ _ _ _ Hs) as [(-> & -> & _) | (Hno & ->)].
    + destruct (write_Emits _ _ _ _ _ Hr) as (c1 & He & Hcore & Hrec).
      exists sbufs, c1. auto.
    + exists (sbufs_ (writer w)), (core w). rewrite <- Hid.
      assert (Hw : w' = w /\ ~ isReturn o).
      { destruct o1 as [a | e | | ]; [exfalso; apply Hno; exact I | | | ];
          inversion Hr; subst; split; auto. }
      destruct Hw as (-> & _). split; [apply Emits_refl | ].
      split; [symmetry; apply (setRecordsCore_id (core w)) | reflexivity].
Qed.

(** X10. However a call of [write] ends, all it has done to the file is
    to put data packets at its frontier, one after the other; the node,
    the writer count, the open flag and the place of the section header
    are as before.  A call that does not return leaves the record count as
    it was. *)
Theorem write_only_adds_data_packets c (w w' : World E) o :
  call c w = (o, w') ->
  (exists packets,
     events (file_ (imf w')) = packets ++ events (file_ (imf w))
     /\ Forall isDataPacket packets
     /\ Packed (unusedLogicalStart_ (imf w)) packets (unusedLogicalStart_ (imf w')))
  /\ cVector_ w' = cVector_ w
  /\ writerCount_ (imf w') = writerCount_ (imf w)
  /\ isOpen_ (writer w') = isOpen_ (writer w)
  /\ sectionHeaderLogicalStart_ (writer w') = sectionHeaderLogicalStart_ (writer w)
  /\ indexPacketsCount_ (writer w') = indexPacketsCount_ (writer w)
  /\ (~ isReturn o -> recordCount_ (writer w') = recordCount_ (writer w)).
Proof.
  intros Hr. destruct (call_Emits _ _ _ _ Hr) as (sbufs & c1 & He & Hcore & Hrec).
  destruct (Emits_layout _ _ He) as (packets & Hev & Hall & Hp & _).
  destruct (Emits_fields _ _ He) as (_ & Hopen & Hstart & Hidx & Hcv & _ & _ & Hwc).
  simpl in *.
  assert (Himf : imf w' = c_imf c1) by exact (f_equal c_imf Hcore).
  split.
  { exists packets. rewrite Himf. auto. }
  split; [rewrite <- Hcv; exact (f_equal c_cVector Hcore) | ].
  split; [rewrite Himf; exact Hwc | ].
  split; [rewrite <- Hopen; exact (f_equal c_isOpen Hcore) | ].
  split; [rewrite <- Hstart; exact (f_equal c_sectionHeaderLogicalStart Hcore) | ].
  split; [rewrite <- Hidx; exact (f_equal c_indexPacketsCount Hcore) | exact Hrec].
Qed.

Lemma History_layout (w0 : World E) h w :
  History w0 h w ->
  exists packets,
    events (file_ (imf w))
    = packets ++ EvExtend (wrap64 (unusedLogicalStart_ (imf w0) + 32))
                 :: events (file_ (imf w0))
    /\ Forall isDataPacket packets
    /\ Packed (wrap64 (unusedLogicalStart_ (imf w0) + 32)) packets
         (unusedLogicalStart_ (imf w))
    /\ dataPacketsCount_ (writer w) = wrap64 (Z.of_nat (length packets))
    /\ cVector_ w = cVector_ w0
    /\ writerCount_ (imf w) = writerCount_ (imf w0) + 1.
Proof.
  induction 1 as [sbufs w1 Hnew | h w c o w' _ IH Hcall Hend].
  - destruct (constructor_Returns _ _ _ Hnew) as (Hcore & _ & _).
    exists []. simpl.
    split; [exact (f_equal (fun c => events (file_ (c_imf c))) Hcore) | ].
    split; [constructor | ].
    split.
    { rewrite (f_equal (fun c => unusedLogicalStart_ (c_imf c)) Hcore
                : unusedLogicalStart_ (imf w1) = _). constructor. }
    split; [exact (f_equal c_dataPacketsCount Hcore) | ].
    split; [exact (f_equal c_cVector Hcore) | ].
    exact (f_equal (fun c => writerCount_ (c_imf c)) Hcore).
  - destruct IH as (older & Hev0 & Hall0 & Hp0 & Hn0 & Hcv0 & Hwc0).
    destruct (call_Emits _ _ _ _ Hcall) as (sbufs & c1 & He & Hcore & _).
    destruct (Emits_layout _ _ He) as (newer & Hev & Hall & Hp & Hn).
    destruct (Emits_fields _ _ He) as (_ & _ & _ & _ & Hcv & _ & _ & Hwc).
    simpl in *.
    assert (Himf : imf w' = c_imf c1) by exact (f_equal c_imf Hcore).
    exists (newer ++ older).
    split; [rewrite Himf, Hev, Hev0, app_assoc; reflexivity | ].
    split; [apply Forall_app; split; assumption | ].
    split; [rewrite Himf; exact (Packed_app _ _ _ _ _ Hp0 Hp) | ].
    split.
    { rewrite (f_equal c_dataPacketsCount Hcore : dataPacketsCount_ (writer w') = _).
      cbn [setRecordsCore c_dataPacketsCount].
      rewrite Hn; [ | rewrite Hn0; apply wrap64_range].
      rewrite Hn0, wrap64_add_l, length_app. f_equal. lia. }
    split; [rewrite <- Hcv0, <- Hcv; exact (f_equal c_cVector Hcore) | ].
    rewrite Himf, Hwc. exact Hwc0.
Qed.

(** X9. While the writer is open, what it has done to the file since
    the constructor extended it over the section header is to put data
    packets back to back behind the header, up to the frontier of the file;
    [dataPacketsCount_] is the number of these packets (in [uint64_t]), the
    node is untouched, and the image file counts the writer once. *)
Theorem open_section_layout (w0 : World E) h w :
  History w0 h w ->
  exists packets,
    events (file_ (imf w))
    = packets ++ EvExtend (wrap64 (unusedLogicalStart_ (imf w0) + 32))
                 :: events (file_ (imf w0))
    /\ Forall isDataPacket packets
    /\ Packed (wrap64 (sectionHeaderLogicalStart_ (writer w) + 32)) packets
         (unusedLogicalStart_ (imf w))
    /\ dataPacketsCount_ (writer w) = wrap64 (Z.of_nat (length packets))
    /\ indexPacketsCount_ (writer w) = 0
    /\ cVector_ w = cVector_ w0
    /\ writerCount_ (imf w) = writerCount_ (imf w0) + 1.
Proof.
  intros Hh.
  destruct (History_layout _ _ _ Hh) as (packets & Hev & Hall & Hp & Hn & Hcv & Hwc).
  destruct (History_ok _ _ _ Hh) as ((recent & _ & (_ & Hidx & _) & _ & Hstart & _) & _).
  simpl in Hstart, Hidx.
  exists packets. rewrite Hstart. auto 10.
Qed.

End Layout.

(* ===================================================================== *)
(** * Closing and destroying the writer *)
(* ===================================================================== *)

Section Closing.
Context {E : Type} `{Encoder E} `{Host}.

Lemma closeSection_keeps_open_and_count :
  preserves (fun w : World E => (isOpen_ (writer w), writerCount_ (imf w))) closeSection.
Proof.
  intros w.
  unfold closeSection, packetWriteIndex, bind, allocateSpace, modify_writer, modify,
    seek, file_write, get.
  simpl. destruct (VALIDATE_BASIC && _); reflexivity.
Qed.

Lemma close_outcome_state fuel (w : World E) :
  isOpen_ (writer (snd (close fuel w))) = false
  /\ writerCount_ (imf (snd (close fuel w))) = writerCount_ (imf w) - 1.
Proof.
  destruct (isOpen_ (writer w)) eqn:Ho.
  2:{ rewrite (close_closed _ _ Ho). simpl. auto. }
  rewrite (close_open _ _ Ho). unfold bind.
  pose proof (drain_emits fuel (closing w)) as He.
  destruct (Emits_fields _ _ He) as (_ & Hopen & _ & _ & _ & _ & _ & Hwc).
  simpl in Hopen, Hwc.
  destruct (drain fuel (closing w)) as [[[] | e | | ] wd]; simpl in *; auto.
  pose proof (closeSection_keeps_open_and_count wd) as Hk. simpl in Hk.
  injection Hk as Hk1 Hk2. rewrite Hk1, Hk2. auto.
Qed.

(** X6. However [close] ends, it leaves the writer closed and has taken
    it off the writer count of the image file exactly once; every call of
    [write] after it throws [ErrorWriterNotOpen] and changes nothing. *)
Theorem close_marks_closed fuel (w : World E) :
  isOpen_ (writer (snd (close fuel w))) = false
  /\ writerCount_ (imf (snd (close fuel w))) = writerCount_ (imf w) - 1
  /\ forall fuel' n,
       write fuel' n (snd (close fuel w))
       = (Throws ErrorWriterNotOpen, snd (close fuel w)).
Proof.
  destruct (close_outcome_state fuel w) as (Ho & Hwc).
  split; [exact Ho | ]. split; [exact Hwc | ].
  intros fuel' n. apply write_closed. exact Ho.
Qed.

(** X5. The destructor never lets an exception out.  On a writer that
    is closed it does nothing at all, and so leaves the writer count of the
    image file alone; on an open writer it leaves the state [close] leaves,
    the writer closed and off the count, and returns where [close] returns
    or throws. *)
Theorem destructor_never_throws fuel (w : World E) :
  (forall e, fst (CompressedVectorWriterImpl_destructor fuel w) <> Throws e)
  /\ isOpen_ (writer (snd (CompressedVectorWriterImpl_destructor fuel w))) = false
  /\ (isOpen_ (writer w) = false ->
      CompressedVectorWriterImpl_destructor fuel w = (Returns tt, w))
  /\ (isOpen_ (writer w) = true ->
      snd (CompressedVectorWriterImpl_destructor fuel w) = snd (close fuel w)
      /\ writerCount_ (imf (snd (CompressedVectorWriterImpl_destructor fuel w)))
         = writerCount_ (imf w) - 1
      /\ (ended (fst (close fuel w)) ->
          fst (CompressedVectorWriterImpl_destructor fuel w) = Returns tt)).
Proof.
  unfold CompressedVectorWriterImpl_destructor.
  destruct (close_outcome_state fuel w) as (Hclosed & Hwc).
  destruct (isOpen_ (writer w)) eqn:Ho.
  - destruct (close fuel w) as [[[] | e | | ] w1]; simpl in *;
      (split; [intros e'; discriminate | ]);
      (split; [exact Hclosed | ]);
      (split; [discriminate | ]);
      intros _; (split; [reflexivity | ]); (split; [exact Hwc | ]);
      intros Hend; try reflexivity; contradiction.
  - simpl. split; [intros e; discriminate | ]. split; [exact Ho | ].
    split; [reflexivity | discriminate].
Qed.

Lemma totalOutputAvailable_range (wr : Writer E) : 0 <= totalOutputAvailable wr < 2 ^ 64.
Proof.
  unfold totalOutputAvailable.
  assert (Hfold : forall (l : list E) acc, 0 <= acc < 2 ^ 64 ->
            0 <= fold_left (fun total bytestream =>
                              wrap64 (total + outputAvailable bytestream)) l acc < 2 ^ 64).
  { induction l as [ | x l IH]; intros acc Hacc; simpl; [exact Hacc | ].
    apply IH. apply wrap64_range. }
  apply Hfold. lia.
Qed.

Lemma drain_Returns fuel (w w' : World E) :
  drain fuel w = (Returns tt, w') -> totalOutputAvailable (writer w') = 0.
Proof.
  revert w. induction fuel as [ | fuel IH]; intros w Hr; [discriminate | ].
  cbn [drain] in Hr. unfold bind at 1, get in Hr.
  destruct (0 <? totalOutputAvailable (writer w)) eqn:Hpos.
  - apply bind_Returns in Hr as (off & w1 & _ & Hr).
    apply bind_Returns in Hr as ([] & w2 & _ & Hr).
    exact (IH _ Hr).
  - inversion Hr; subst. apply Z.ltb_ge in Hpos.
    pose proof (totalOutputAvailable_range (writer w')). lia.
Qed.

(** X13. When [close] returns on an open writer, the drain loop has
    run until the encoders held no output at all: the index packet and the
    section header are written behind everything the encoders had. *)
Theorem close_drains_all_output fuel (w w' : World E) :
  isOpen_ (writer w) = true ->
  close fuel w = (Returns tt, w') ->
  exists wd,
    drain fuel (closing w) = (Returns tt, wd)
    /\ totalOutputAvailable (writer wd) = 0
    /\ closeSection wd = (Returns tt, w')
    /\ bytestreams_ (writer w') = [].
Proof.
  intros Ho Hr. rewrite (close_open _ _ Ho) in Hr.
  apply bind_Returns in Hr as ([] & wd & Hd & Hr).
  exists wd. split; [exact Hd | ]. split; [exact (drain_Returns _ _ _ Hd) | ].
  split; [exact Hr | ].
  destruct (closeSection_cases _ _ _ Hr) as [(_ & _ & Hbs) | Hbad]; [exact Hbs | discriminate].
Qed.

(** X7. When [close] returns, the node knows the section: its record
    count is the sum, in [uint64_t], of the records of the calls of [write]
    that returned, and its binary section starts where the constructor
    reserved the section header.  The prototype is as it was, the encoders
    are gone, and the image file counts as many writers as before the
    constructor. *)
Theorem close_publishes_record_count (w0 : World E) h w fuel w' :
  History w0 h w ->
  close fuel w = (Returns tt, w') ->
  recordCount (cVector_ w') = wrap64 (recordsWritten h)
  /\ binarySectionLogicalStart (cVector_ w') = unusedLogicalStart_ (imf w0)
  /\ prototype (cVector_ w') = prototype (cVector_ w0)
  /\ recordCount_ (writer w') = wrap64 (recordsWritten h)
  /\ bytestreams_ (writer w') = []
  /\ writerCount_ (imf w') = writerCount_ (imf w0).
Proof.
  intros Hh Hr.
  destruct (History_ok _ _ _ Hh) as ((recent & _ & _ & _ & Hstart & _) & Hopen & Hrec).
  destruct (History_layout _ _ _ Hh) as (packets & _ & _ & _ & _ & Hcv & Hwc).
  destruct (close_open_Returns _ _ _ Hopen Hr) as (c1 & He & Hcore & Hbs).
  destruct (Emits_fields _ _ He) as (Hrec1 & _ & Hstart1 & _ & Hcv1 & _ & _ & Hwc1).
  simpl in Hstart, Hrec1, Hstart1, Hcv1, Hwc1.
  pose proof (f_equal c_cVector Hcore) as Hnode. simpl in Hnode.
  rewrite Hrec1, Hstart1, Hcv1, Hstart, Hcv, Hrec in Hnode.
  split; [rewrite Hnode; reflexivity | ].
  split; [rewrite Hnode; reflexivity | ].
  split; [rewrite Hnode; reflexivity | ].
  split.
  { rewrite (f_equal c_recordCount Hcore : recordCount_ (writer w') = _). simpl.
    rewrite Hrec1. exact Hrec. }
  split; [exact Hbs | ].
  rewrite (f_equal (fun c => writerCount_ (c_imf c)) Hcore : writerCount_ (imf w') = _).
  simpl. rewrite Hwc1, Hwc. lia.
Qed.

(** X8. A section that has been closed lies in the file in one piece:
    the section header in the 32 bytes the constructor reserved, the data
    packets back to back behind it in the order they were written, and the
    index packet behind the last of them, where the file ends.  The index
    packet has one entry, and that entry and the section header name the
    same physical offset for the data. *)
Theorem closed_section_layout (w0 : World E) h w fuel w' :
  History w0 h w ->
  close fuel w = (Returns tt, w') ->
  exists packets indexOffset indexPacket sectionHeader,
    events (file_ (imf w'))
    = EvWrite (unusedLogicalStart_ (imf w0)) (BSectionHeader sectionHeader) 32
      :: EvWrite indexOffset (BIndexPacket indexPacket) 32
      :: packets ++ EvExtend (wrap64 (unusedLogicalStart_ (imf w0) + 32))
                    :: events (file_ (imf w0))
    /\ Forall isDataPacket packets
    /\ Packed (wrap64 (unusedLogicalStart_ (imf w0) + 32)) packets indexOffset
    /\ unusedLogicalStart_ (imf w') = wrap64 (indexOffset + 32)
    /\ ip_packetType indexPacket = INDEX_PACKET
    /\ ip_entryCount indexPacket = 1
    /\ ip_packetLogicalLengthMinus1 indexPacket = 31
    /\ map chunkPhysicalOffset (entries indexPacket) = [dataPhysicalOffset sectionHeader]
    /\ dataPacketsCount_ (writer w') = wrap64 (Z.of_nat (length packets)).
Proof.
  intros Hh Hr.
  destruct (History_ok _ _ _ Hh) as ((recent & _ & _ & _ & Hstart & _) & Hopen & _).
  destruct (History_layout _ _ _ Hh) as (older & Hev0 & Hall0 & Hp0 & Hn0 & _ & _).
  destruct (close_open_Returns _ _ _ Hopen Hr) as (c1 & He & Hcore & _).
  destruct (Emits_layout _ _ He) as (newer & Hev & Hall & Hp & Hn).
  destruct (Emits_fields _ _ He) as (_ & _ & Hstart1 & _).
  simpl in Hstart, Hstart1, Hev, Hp, Hn.
  exists (newer ++ older), (unusedLogicalStart_ (c_imf c1)), (theIndexPacket c1),
    (theSectionHeader (indexCore c1)).
  split.
  { rewrite (f_equal (fun c => events (file_ (c_imf c))) Hcore
              : events (file_ (imf w')) = _).
    simpl. rewrite Hstart1, Hstart, Hev, Hev0, app_assoc. reflexivity. }
  split; [apply Forall_app; split; assumption | ].
  split; [exact (Packed_app _ _ _ _ _ Hp0 Hp) | ].
  split; [exact (f_equal (fun c => unusedLogicalStart_ (c_imf c)) Hcore) | ].
  repeat (split; [reflexivity | ]).
  rewrite (f_equal c_dataPacketsCount Hcore : dataPacketsCount_ (writer w') = _).
  simpl. rewrite Hn; [ | rewrite Hn0; apply wrap64_range].
  rewrite Hn0, wrap64_add_l, length_app. f_equal. lia.
Qed.

End Closing.

(* ===================================================================== *)
(** * Binding buffers and writing *)
(* ===================================================================== *)

Section Buffers.
Context {E : Type} `{Encoder E} `{Host}.

Lemma setBuffers_other_length sbufs (w : World E) :
  sbufs_ (writer w) <> [] ->
  length sbufs <> length (sbufs_ (writer w)) ->
  setBuffers sbufs w = (Throws ErrorBuffersNotCompatible, w).
Proof.
  intros Hne Hlen. unfold setBuffers. unfold bind at 1. unfold bind at 1.
  unfold get. cbv beta iota. unfold size.
  destruct (sbufs_ (writer w)) as [ | b bs] eqn:Hsb; [contradiction | ].
  change (negb (Z.of_nat (length (b :: bs)) =? 0)) with true. cbv iota.
  destruct (Z.of_nat (length (b :: bs)) =? Z.of_nat (length sbufs)) eqn:Hsz.
  - apply Z.eqb_eq in Hsz. lia.
  - reflexivity.
Qed.

(** X11. [setBuffers] binds the new buffers or changes nothing.  It
    returns only with buffers that match the prototype, as many as were
    bound before if any were, and then the bound buffers are the new ones
    and all else is as it was; it returns for every sequence that is
    accepted, open writer or not; a sequence of another length than the
    bound one is refused with [ErrorBuffersNotCompatible]. *)
Theorem setBuffers_all_or_nothing sbufs (w w' : World E) o :
  setBuffers sbufs w = (o, w') ->
  ((o = Returns tt
    /\ w' = set_writer (set_sbufs sbufs) w
    /\ (sbufs_ (writer w) <> [] -> length sbufs = length (sbufs_ (writer w)))
    /\ exists paths,
         pathNamesIn (store w) sbufs = Some paths
         /\ checkBuffers (proto_ (writer w)) paths = true)
   \/ (~ isReturn o /\ w' = w))
  /\ (accepted w sbufs = true -> o = Returns tt)
  /\ (sbufs_ (writer w) <> [] -> length sbufs <> length (sbufs_ (writer w)) ->
      o = Throws ErrorBuffersNotCompatible).
Proof.
  intros Hr. split; [ | split].
  - destruct (setBuffers_cases _ _ _ _ Hr) as [(-> & Hw & Hlen) | Hfail];
      [left | right; exact Hfail].
    split; [reflexivity | ]. split; [exact Hw | ]. split; [exact Hlen | ].
    exact (setBuffers_Returns_checked _ _ _ Hr).
  - intros Ha. rewrite (setBuffers_accepted _ _ Ha) in Hr. inversion Hr. reflexivity.
  - intros Hne Hlen. rewrite (setBuffers_other_length _ _ Hne Hlen) in Hr.
    inversion Hr. reflexivity.
Qed.

(** X12. [write( sbufs, n )] is [setBuffers( sbufs )] followed by
    [write( n )]: with buffers [setBuffers] accepts it does what [write( n )]
    does once they are bound, and when [setBuffers] refuses the buffers it
    ends as [setBuffers] ends, with nothing changed and nothing written. *)
Theorem write2_is_setBuffers_then_write fuel sbufs n (w : World E) :
  (accepted w sbufs = true ->
   write2 fuel sbufs n w = write fuel n (set_writer (set_sbufs sbufs) w))
  /\ (forall o w1,
        setBuffers sbufs w = (o, w1) -> ~ isReturn o ->
        snd (write2 fuel sbufs n w) = w
        /\ ~ isReturn (fst (write2 fuel sbufs n w))
        /\ forall e, o = Throws e -> fst (write2 fuel sbufs n w) = Throws e).
Proof.
  split.
  - intros Ha. unfold write2, bind. rewrite (setBuffers_accepted _ _ Ha). reflexivity.
  - intros o w1 Hs Hno.
    destruct (setBuffers_cases _ _ _ _ Hs) as [(-> & _) | (_ & ->)];
      [exfalso; apply Hno; exact I | ].
    unfold write2, bind. rewrite Hs.
    destruct o as [[] | e | | ]; [exfalso; apply Hno; exact I | | | ]; simpl;
      (split; [reflexivity | ]); (split; [exact (fun x => x) | ]);
      intros e' He; congruence.
Qed.

Lemma writeLoop_Returns fuel endRecordIndex (w w' : World E) :
  writeLoop fuel endRecordIndex w = (Returns tt, w') ->
  totalRecordCount endRecordIndex (bytestreams_ (writer w')) = 0.
Proof.
  revert w. induction fuel as [ | fuel IH]; intros w Hr; [discriminate | ].
  cbn [writeLoop] in Hr. unfold bind at 1, get in Hr.
  destruct (totalRecordCount endRecordIndex (bytestreams_ (writer w)) =? 0) eqn:Hdone.
  - inversion Hr; subst. apply Z.eqb_eq. exact Hdone.
  - destruct (E57_TARGET_PACKET_SIZE <=? currentPacketSize (writer w)).
    + apply bind_Returns in Hr as (off & w1 & _ & Hr). exact (IH _ Hr).
    + apply bind_Returns in Hr as ([] & w1 & _ & Hr). exact (IH _ Hr).
Qed.

Lemma sum_zero_all_zero (l : list Z) :
  Forall (fun x => 0 <= x) l -> sumZ l = 0 -> Forall (fun x => x = 0) l.
Proof.
  induction 1 as [ | x l Hx Hl IH]; intros Hs; [constructor | ].
  rewrite CountFacts.sumZ_cons in Hs. pose proof (CountFacts.sumZ_nonneg l Hl).
  constructor; [lia | apply IH; lia].
Qed.

(** X14. When [write( n )] returns for [n > 0], the record count has
    grown by [n] in [uint64_t], and the loop has gone on until the records
    left to process, summed over the streams as the loop sums them, were
    none; where that sum does not wrap around, no stream has a record
    left: every [currentRecordIndex] is the new record count. *)
Theorem write_completes_every_stream fuel n (w w' : World E) :
  write fuel n w = (Returns tt, w') ->
  n <> 0 ->
  recordCount_ (writer w') = wrap64 (recordCount_ (writer w) + n)
  /\ totalRecordCount (recordCount_ (writer w')) (bytestreams_ (writer w')) = 0
  /\ (sumZ (map (fun b => wrap64 (recordCount_ (writer w') - currentRecordIndex b))
              (bytestreams_ (writer w'))) < 2 ^ 64 ->
      Forall (fun b => wrap64 (recordCount_ (writer w') - currentRecordIndex b) = 0)
        (bytestreams_ (writer w'))).
Proof.
  intros Hr Hn.
  pose proof (write_cases _ _ _ _ _ Hr) as (Ho & Hc). simpl in Hc.
  destruct (n =? 0) eqn:Hz; [apply Z.eqb_eq in Hz; contradiction | ].
  destruct Hc as (c1 & _ & Hcore).
  assert (Hrec : recordCount_ (writer w') = wrap64 (recordCount_ (writer w) + n))
    by exact (f_equal c_recordCount Hcore).
  rewrite (write_open _ _ _ Ho), Hz in Hr.
  apply bind_Returns in Hr as (sbuf0 & w1 & _ & Hr).
  apply bind_Returns in Hr as (impl0 & w2 & _ & Hr).
  destruct (capacity impl0 <? n); [discriminate | ].
  apply bind_Returns in Hr as ([] & w3 & _ & Hr).
  apply bind_Returns in Hr as ([] & w4 & Hloop & Hr).
  unfold modify_writer, modify in Hr. inversion Hr; subst w'; clear Hr.
  apply writeLoop_Returns in Hloop.
  change (bytestreams_ (writer (set_writer _ w4))) with (bytestreams_ (writer w4)) in *.
  rewrite Hrec.
  split; [reflexivity | ]. split; [exact Hloop | ].
  intros Hsum. unfold totalRecordCount in Hloop.
  set (f := fun b : E => wrap64 (wrap64 (recordCount_ (writer w) + n) - currentRecordIndex b))
    in *.
  assert (Hf : forall x, In x (bytestreams_ (writer w4)) -> 0 <= f x).
  { intros x _. apply wrap64_range. }
  rewrite (fold_wrap64_sum f) in Hloop; [ | lia | exact Hf | lia].
  assert (Hall : Forall (fun x => 0 <= x) (map f (bytestreams_ (writer w4)))).
  { apply Forall_forall. intros x Hx. apply in_map_iff in Hx as (b & <- & _).
    apply wrap64_range. }
  assert (Hs0 : sumZ (map f (bytestreams_ (writer w4))) = 0) by lia.
  pose proof (sum_zero_all_zero _ Hall Hs0) as Hzero.
  apply Forall_forall. intros b Hb. rewrite Forall_forall in Hzero.
  apply Hzero. exact (in_map f _ _ Hb).
Qed.

End Buffers.

(* ===================================================================== *)
(** * What [packetWrite] asks of the encoders *)
(* ===================================================================== *)

Module RequestFacts.

Import F32 F32Facts CountFacts.
Local Open Scope Q_scope.

Lemma inject_Z_pred M : inject_Z (M - 1) == inject_Z M - 1.
Proof.
  unfold Z.sub. rewrite inject_Z_plus, inject_Z_opp. change (inject_Z 1) with 1. ring.
Qed.

Lemma fraction_scaled_le_1 M T :
  (1 <= M <= DATA_PACKET_MAX)%Z -> (M <= T)%Z ->
  div (of_Z (M - 1)) (of_Z T) * ((1 + u) * (1 + u)) <= 1.
Proof.
  intros HM HT.
  assert (HT1 : (1 <= T)%Z) by lia.
  destruct (fraction_bounds M T (proj1 HM) HT1) as (Hf0 & Hfu & _).
  set (f := div (of_Z (M - 1)) (of_Z T)) in *.
  assert (Hm1 : 1 <= inject_Z M).
  { replace 1 with (inject_Z 1) by reflexivity. rewrite <- Zle_Qle. lia. }
  assert (Hm2 : inject_Z M <= 65536).
  { replace 65536 with (inject_Z 65536) by reflexivity. rewrite <- Zle_Qle.
    unfold DATA_PACKET_MAX in HM. lia. }
  assert (HmT : inject_Z M <= inject_Z T) by (rewrite <- Zle_Qle; exact HT).
  assert (Hu2 : 0 <= 1 - u) by (unfold u; lra).
  assert (Hg : 0 <= f * (1 - u)) by (apply Qmult_le_0_compat; assumption).
  assert (H5 : inject_Z M * (f * (1 - u)) <= inject_Z T * (f * (1 - u)))
    by (apply Qmult_le_compat_r; assumption).
  destruct (Qlt_le_dec 1 (f * ((1 + u) * (1 + u)))) as [Hgt | Hle]; [ | exact Hle].
  exfalso.
  assert (Hz : 0 < inject_Z M * (1 - u)).
  { apply Qmult_lt_0_compat; [lra | unfold u; lra]. }
  assert (H6 : 1 * (inject_Z M * (1 - u))
               < f * ((1 + u) * (1 + u)) * (inject_Z M * (1 - u)))
    by (apply Qmult_lt_compat_r; assumption).
  rewrite inject_Z_pred in Hfu. unfold u in *. lra.
Qed.

Lemma floor_mul_bounds f a :
  0 <= f -> (0 <= a)%Z ->
  (0 <= floor (mul f (of_Z a)))%Z
  /\ inject_Z (floor (mul f (of_Z a))) <= f * inject_Z a * ((1 + u) * (1 + u)).
Proof.
  intros Hf Ha.
  pose proof (inject_Z_nonneg a Ha) as Haq.
  destruct (rnd_bounds (inject_Z a) Haq) as (_ & Hahi).
  pose proof (rnd_nonneg (inject_Z a) Haq) as Ha0.
  assert (Hp0 : 0 <= f * of_Z a) by (apply Qmult_le_0_compat; assumption).
  destruct (rnd_bounds (f * of_Z a) Hp0) as (_ & Hphi).
  pose proof (rnd_nonneg (f * of_Z a) Hp0) as Hr0.
  assert (Hup : f * of_Z a <= f * (inject_Z a * (1 + u))).
  { rewrite !(Qmult_comm f). apply Qmult_le_compat_r; assumption. }
  assert (Hu1 : 0 <= 1 + u) by (unfold u; lra).
  assert (Hup' : f * of_Z a * (1 + u) <= f * (inject_Z a * (1 + u)) * (1 + u)).
  { apply Qmult_le_compat_r; assumption. }
  pose proof (Qfloor_le (mul f (of_Z a))) as Hfl.
  unfold floor, mul in *. split.
  - change 0%Z with (Qfloor 0). apply Qfloor_resp_le. exact Hr0.
  - apply Qle_trans with (rnd (f * of_Z a)); [exact Hfl | ].
    apply Qle_trans with (f * of_Z a * (1 + u)); [exact Hphi | ].
    apply Qle_trans with (f * (inject_Z a * (1 + u)) * (1 + u)); [exact Hup' | ].
    apply Qle_lteq. right. ring.
Qed.

Lemma request_defined M T a :
  (1 <= M <= DATA_PACKET_MAX)%Z -> (M <= T)%Z -> (0 <= a <= T)%Z ->
  exists c, countAt (div (of_Z (M - 1)) (of_Z T)) a = Some c /\ (0 <= c <= a)%Z.
Proof.
  intros HM HT Ha.
  assert (HT1 : (1 <= T)%Z) by lia.
  destruct (fraction_bounds M T (proj1 HM) HT1) as (Hf0 & Hfu & _).
  pose proof (fraction_scaled_le_1 M T HM HT) as Hk.
  set (f := div (of_Z (M - 1)) (of_Z T)) in *.
  destruct (floor_mul_bounds f a Hf0 (proj1 Ha)) as (Hx0 & Hxu).
  set (x := floor (mul f (of_Z a))) in *.
  assert (Haq : 0 <= inject_Z a) by (apply inject_Z_nonneg; lia).
  assert (Hka : f * ((1 + u) * (1 + u)) * inject_Z a <= 1 * inject_Z a)
    by (apply Qmult_le_compat_r; assumption).
  assert (Hxa : inject_Z x <= inject_Z a).
  { apply Qle_trans with (f * inject_Z a * ((1 + u) * (1 + u))); [exact Hxu | ].
    apply Qle_trans with (f * ((1 + u) * (1 + u)) * inject_Z a);
      [apply Qle_lteq; right; ring | ].
    apply Qle_trans with (1 * inject_Z a); [exact Hka | ].
    apply Qle_lteq. right. ring. }
  rewrite <- Zle_Qle in Hxa.
  assert (HaT : inject_Z a <= inject_Z T) by (rewrite <- Zle_Qle; lia).
  assert (HfaT : inject_Z a * f <= inject_Z T * f)
    by (apply Qmult_le_compat_r; assumption).
  assert (HX : inject_Z (M - 1) <= 65535).
  { replace 65535 with (inject_Z 65535) by reflexivity. rewrite <- Zle_Qle.
    unfold DATA_PACKET_MAX in HM. lia. }
  assert (Hbig : inject_Z x < 4294967296).
  { eapply Qle_lt_trans; [exact Hxu | ]. unfold u in *. lra. }
  replace 4294967296 with (inject_Z 4294967296) in Hbig by reflexivity.
  rewrite <- Zlt_Qlt in Hbig.
  exists x. split; [ | lia].
  unfold countAt. fold f. fold x. unfold to_unsigned.
  replace (0 <=? x)%Z with true by (symmetry; apply Z.leb_le; exact Hx0).
  replace (x <? 2 ^ 32)%Z with true by (symmetry; apply Z.ltb_lt; exact Hbig).
  reflexivity.
Qed.

End RequestFacts.

Section Requests.
Context {E : Type} `{EncoderLaws E}.

Lemma mapOption_defined {A B} (f : A -> option B) (P : A -> B -> Prop) l :
  Forall (fun a => exists b, f a = Some b /\ P a b) l ->
  exists l', mapOption f l = Some l' /\ Forall2 P l l'.
Proof.
  induction 1 as [ | a l (b & Hb & Hp) _ (l' & Hl & Hall)].
  - exists []. split; [reflexivity | constructor].
  - exists (b :: l'). simpl. rewrite Hb, Hl. split; [reflexivity | ].
    constructor; assumption.
Qed.

(** X15. In [packetWrite], with room for payload in the packet, the
    byte counts are always defined, the conversion of the products to
    [unsigned] never being out of range, and no encoder is asked for more
    bytes than it has available. *)
Theorem count_within_available (wr : Writer E) :
  1 <= maxPayload wr ->
  sumZ (available wr) < 2 ^ 64 ->
  exists count,
    countOf wr = Some count
    /\ Forall2 (fun a c => 0 <= c <= a) (available wr) count.
Proof.
  intros HM Hs. unfold countOf, computeCount.
  destruct (packetMaxPayloadBytes_small wr HM) as (HMw & HM1).
  rewrite HMw, (totalOutputAvailable_sum wr Hs). fold (available wr).
  pose proof (available_nonneg wr) as Hav.
  destruct (sumZ (available wr) <? maxPayload wr) eqn:Hlt.
  - exists (available wr). split; [reflexivity | ].
    clear - Hav. induction Hav as [ | a l Ha _ IH]; constructor; [lia | exact IH].
  - apply Z.ltb_ge in Hlt. rewrite wrap64_small by lia.
    apply mapOption_defined. apply Forall_forall. intros a Ha.
    apply RequestFacts.request_defined; unfold DATA_PACKET_MAX; try lia.
    apply In_le_sumZ; assumption.
Qed.

End Requests.

(* ===================================================================== *)
(** * The data packet [packetWrite] lays out *)
(* ===================================================================== *)

Lemma roundUp4_multiple p : p mod 4 = 0 -> roundUp4 p = p.
Proof. unfold roundUp4. intros Hm. Z.to_euclidean_division_equations. lia. Qed.

Lemma roundUp4_succ p : p mod 4 <> 0 -> roundUp4 (p + 1) = roundUp4 p.
Proof. unfold roundUp4. intros Hm. Z.to_euclidean_division_equations. lia. Qed.

Lemma padPacket_exact fuel p pad r :
  padPacket fuel p (wrap32 p) pad = Returns r ->
  0 <= p <= DATA_PACKET_MAX ->
  fst r = roundUp4 p
  /\ snd r = pad + (roundUp4 p - p)
  /\ (p < DATA_PACKET_MAX -> fst r <= DATA_PACKET_MAX - 4).
Proof.
  revert p pad. induction fuel as [ | fuel IH]; intros p pad; cbn [padPacket];
    rewrite wrap32_mod4; intros Hr Hp.
  - destruct (p mod 4 =? 0) eqn:Hm; [ | discriminate]. apply Z.eqb_eq in Hm.
    inversion Hr; subst r. simpl. unfold DATA_PACKET_MAX in *.
    rewrite wrap32_small by lia. rewrite (roundUp4_multiple _ Hm).
    split; [reflexivity | ]. split; [lia | ]. intros Hlt.
    Z.to_euclidean_division_equations. lia.
  - destruct (p mod 4 =? 0) eqn:Hm.
    + apply Z.eqb_eq in Hm. inversion Hr; subst r. simpl. unfold DATA_PACKET_MAX in *.
      rewrite wrap32_small by lia. rewrite (roundUp4_multiple _ Hm).
      split; [reflexivity | ]. split; [lia | ]. intros Hlt.
      Z.to_euclidean_division_equations. lia.
    + apply Z.eqb_neq in Hm.
      destruct (DATA_PACKET_MAX - 1 <=? p) eqn:Hend; [discriminate | ].
      apply Z.leb_gt in Hend. unfold DATA_PACKET_MAX in *.
      rewrite (wrap32_small p) in Hr by lia.
      destruct (IH _ _ Hr) as (Hf & Hs & Hb); [lia | ].
      rewrite (roundUp4_succ _ Hm) in Hf, Hs.
      split; [exact Hf | ]. split; [lia | ]. intros _. apply Hb. lia.
Qed.

Section PacketLayout.
Context {E : Type} `{EncoderLaws E} `{Host}.

Lemma outputReadAll_exact (cStreams : list E) count p0 r streams' :
  outputReadAll cStreams count p0 = (Returns r, streams') ->
  length count = length cStreams ->
  snd r = p0 + sumZ count.
Proof.
  revert count p0 r streams'.
  induction cStreams as [ | bytestream rest IH]; intros count p0 r streams'; simpl.
  - intros Hr Hlen. inversion Hr; subst. destruct count; [ | discriminate].
    unfold sumZ. simpl. lia.
  - destruct count as [ | n count']; [discriminate | ].
    destruct (VALIDATE_BASIC && (DATA_PACKET_MAX <? p0 + n)); [discriminate | ].
    destruct (outputRead bytestream n) as [[bytes | e | | ] bytestream'];
      try discriminate.
    destruct (DATA_PACKET_MAX <? p0 + n); [discriminate | ].
    destruct (outputReadAll rest count' (p0 + n)) as [o rest'] eqn:Hrest.
    destruct o as [r' | e | | ]; simpl; try discriminate.
    intros Hr Hlen. inversion Hr; subst r streams'. simpl.
    rewrite (IH _ _ _ _ Hrest) by (simpl in Hlen; lia).
    rewrite CountFacts.sumZ_cons. lia.
Qed.

Lemma assembleDataPacket_layout count (w w1 : World E) len :
  assembleDataPacket count w = (Returns len, w1) ->
  DataPacket_verify (dataPacket_ (writer w1)) len = true
  /\ header (dataPacket_ (writer w1))
     = {| packetType := DATA_PACKET; packetFlags := 0;
          packetLogicalLengthMinus1 := wrap16 (wrap32 (len - 1));
          bytestreamCount := wrap16 (size (bytestreams_ (writer w))) |}
  /\ (length count = length (bytestreams_ (writer w)) ->
      Forall (fun c => 0 <= c) count ->
      sizeof_DataPacketHeader
      + size (bytestreams_ (writer w)) * sizeof_uint16_t + sumZ count <= DATA_PACKET_MAX
      /\ len = roundUp4 (sizeof_DataPacketHeader
                         + size (bytestreams_ (writer w)) * sizeof_uint16_t + sumZ count)
      /\ padding (dataPacket_ (writer w1))
         = len - (sizeof_DataPacketHeader
                  + size (bytestreams_ (writer w)) * sizeof_uint16_t + sumZ count)
      /\ (sizeof_DataPacketHeader
          + size (bytestreams_ (writer w)) * sizeof_uint16_t + sumZ count < DATA_PACKET_MAX ->
          len <= DATA_PACKET_MAX - 4)).
Proof.
  unfold assembleDataPacket, modify_writer. intros Hr.
  apply bind_Returns in Hr as (wg & wa & Hm & Hr). inversion Hm; subst wg wa; clear Hm.
  apply bind_Returns in Hr as ([] & wb & Hm & Hr). inversion Hm; subst wb; clear Hm.
  apply bind_Returns in Hr as ([] & wc & Hm & Hr).
  destruct (DATA_PACKET_MAX <? _) eqn:Htab; [discriminate | ].
  inversion Hm; subst wc; clear Hm. apply Z.ltb_ge in Htab.
  apply bind_Returns in Hr as (r & wd & Hm & Hr).
  destruct (outputReadAll _ _ _) as [o streams'] eqn:Hread.
  inversion Hm; subst o wd; clear Hm.
  apply bind_Returns in Hr as ([] & we & Hm & Hr).
  destruct (VALIDATE_BASIC && _); [discriminate | ].
  inversion Hm; subst we; clear Hm.
  apply bind_Returns in Hr as (padded & wf & Hm & Hr).
  unfold lift in Hm. inversion Hm as [[Hpad Hwf]]; subst wf; clear Hm.
  apply bind_Returns in Hr as ([] & wg & Hm & Hr). inversion Hm; subst wg; clear Hm.
  apply bind_Returns in Hr as (wh & wi & Hm & Hr). inversion Hm; subst wh wi; clear Hm.
  apply bind_Returns in Hr as ([] & wj & Hm & Hr).
  destruct (DataPacket_verify _ _) eqn:Hver; [ | discriminate].
  inversion Hm; subst wj; clear Hm.
  inversion Hr; subst len w1; clear Hr.
  split; [exact Hver | ]. split; [reflexivity | ].
  intros Hlen Hc.
  simpl in Hread.
  pose proof (outputReadAll_Returns _ _ _ _ _ Hread Hc Htab) as (_ & Hb).
  assert (Hp : snd r = sizeof_DataPacketHeader
                       + size (bytestreams_ (writer w)) * sizeof_uint16_t + sumZ count).
  { rewrite (outputReadAll_exact _ _ _ _ _ Hread Hlen). reflexivity. }
  set (p := sizeof_DataPacketHeader
            + size (bytestreams_ (writer w)) * sizeof_uint16_t + sumZ count) in *.
  assert (Hp0 : 0 <= p).
  { pose proof (CountFacts.sumZ_nonneg count Hc).
    unfold p, sizeof_DataPacketHeader, sizeof_uint16_t, size. lia. }
  rewrite Hp in Hb, Hpad.
  destruct (padPacket_exact 4%nat p 0 padded Hpad) as (Hf & Hs & Hmax); [lia | ].
  split; [exact Hb | ]. split; [exact Hf | ]. split; [simpl; lia | exact Hmax].
Qed.

Lemma countOf_length (wr : Writer E) count :
  countOf wr = Some count -> length count = length (bytestreams_ wr).
Proof.
  unfold countOf, computeCount.
  destruct (_ <? _).
  - intros Hc. inversion Hc. apply length_map.
  - intros Hc. apply mapOption_Forall2 in Hc. apply Forall2_length in Hc.
    rewrite <- Hc. apply length_map.
Qed.

(** X18. What [packetWrite] returns and what it has done then: with no
    output in the encoders it returns 0 and has done nothing; otherwise, if
    the file has changed at all, one data packet has been written at what
    was the frontier of the file, the frontier has moved behind it, the
    packet has passed [DataPacket::verify] at the length written, the data
    packets are one more, and the value returned is the physical offset of
    the packet. *)
Theorem packetWrite_outcome (w w' : World E) o :
  packetWrite w = (o, w') ->
  (totalOutputAvailable (writer w) = 0 -> o = Returns 0 /\ w' = w)
  /\ ((events (file_ (imf w')) = events (file_ (imf w))
       /\ unusedLogicalStart_ (imf w') = unusedLogicalStart_ (imf w)
       /\ dataPacketsCount_ (writer w') = dataPacketsCount_ (writer w))
      \/ exists pkt len,
           o = Returns (logicalToPhysical (unusedLogicalStart_ (imf w)))
           /\ events (file_ (imf w'))
              = EvWrite (unusedLogicalStart_ (imf w)) (BDataPacket pkt) len
                :: events (file_ (imf w))
           /\ unusedLogicalStart_ (imf w') = wrap64 (unusedLogicalStart_ (imf w) + len)
           /\ DataPacket_verify pkt len = true
           /\ dataPacketsCount_ (writer w') = wrap64 (dataPacketsCount_ (writer w) + 1)).
Proof.
  intros Hr. split.
  - intros Hz. unfold packetWrite in Hr. unfold bind at 1, get in Hr.
    rewrite Hz in Hr. simpl in Hr. inversion Hr. auto.
  - destruct (packetWrite_cases _ _ _ Hr)
      as [Hq | (count & w1 & len & _ & Hasm & Ho & Hcore)].
    + left. split; [exact (f_equal (fun c => events (file_ (c_imf c))) Hq) | ].
      split; [exact (f_equal (fun c => unusedLogicalStart_ (c_imf c)) Hq) | ].
      exact (f_equal c_dataPacketsCount Hq).
    + right. exists (dataPacket_ (writer w1)), len.
      destruct (assembleDataPacket_layout _ _ _ _ Hasm) as (Hver & _).
      split; [exact Ho | ].
      split; [exact (f_equal (fun c => events (file_ (c_imf c))) Hcore) | ].
      split; [exact (f_equal (fun c => unusedLogicalStart_ (c_imf c)) Hcore) | ].
      split; [exact Hver | exact (f_equal c_dataPacketsCount Hcore)].
Qed.

(** X16. With room for payload in the packet, a data packet that
    [packetWrite] writes is laid out as the counts say: the table of stream
    lengths is [count], after the header of 6 bytes and the table come the
    [count.at( i )] bytes of each stream, and 0 to 3 bytes of padding
    round the length up to a multiple of 4; the header names that length
    less 1 and the number of streams.  The packet is never longer than
    65532 bytes. *)
Theorem data_packet_fields (w w' : World E) o pkt len :
  1 <= maxPayload (writer w) ->
  sumZ (available (writer w)) < 2 ^ 64 ->
  packetWrite w = (o, w') ->
  events (file_ (imf w'))
  = EvWrite (unusedLogicalStart_ (imf w)) (BDataPacket pkt) len :: events (file_ (imf w)) ->
  exists count,
    countOf (writer w) = Some count
    /\ bsbLength pkt = count
    /\ len = roundUp4 (sizeof_DataPacketHeader
                       + size (bytestreams_ (writer w)) * sizeof_uint16_t + sumZ count)
    /\ 0 <= padding pkt < 4
    /\ padding pkt = len - (sizeof_DataPacketHeader
                            + size (bytestreams_ (writer w)) * sizeof_uint16_t + sumZ count)
    /\ len <= 65532
    /\ packetType (header pkt) = DATA_PACKET
    /\ packetLogicalLengthMinus1 (header pkt) = len - 1
    /\ bytestreamCount (header pkt) = size (bytestreams_ (writer w)).
Proof.
  intros HM Hs Hr Hev.
  destruct (packetWrite_cases _ _ _ Hr)
    as [Hq | (count & w1 & len' & Hcount & Hasm & _ & Hcore)].
  { exfalso. apply (f_equal (fun c => length (events (file_ (c_imf c))))) in Hq.
    simpl in Hq. rewrite Hev in Hq. simpl in Hq. lia. }
  pose proof (f_equal (fun c => events (file_ (c_imf c))) Hcore) as Hev'.
  simpl in Hev'. rewrite Hev in Hev'. inversion Hev' as [[Hpkt Hlen]].
  subst pkt len'. clear Hev'.
  destruct (countOf_sum _ _ HM Hs Hcount) as (Hc0 & Hsum).
  destruct (assembleDataPacket_layout _ _ _ _ Hasm) as (_ & Hhead & Hlay).
  destruct (assembleDataPacket_Returns _ _ _ _ Hasm) as (Hbsb & Hm4 & Hrange).
  specialize (Hrange Hc0).
  specialize (Hlay (countOf_length _ _ Hcount) Hc0).
  destruct Hlay as (Hp & Hl & Hpad & Hmax).
  unfold maxPayload, DATA_PACKET_MAX, sizeof_DataPacketHeader, sizeof_uint16_t in *.
  assert (Hsize : 0 <= size (bytestreams_ (writer w))) by (unfold size; lia).
  exists count. split; [exact Hcount | ].
  split.
  { rewrite Hbsb. clear - Hc0 Hsum Hsize HM.
    assert (Hall : Forall (fun c => 0 <= c < 2 ^ 16) count).
    { apply Forall_forall. intros c Hin.
      pose proof (In_le_sumZ c count Hc0 Hin). lia. }
    clear - Hall. induction Hall as [ | c l Hc _ IH]; simpl; [reflexivity | ].
    rewrite (wrap16_small _ Hc), IH. reflexivity. }
  split; [exact Hl | ].
  assert (Hlen : len <= 65532) by (apply Hmax; lia).
  split.
  { rewrite Hpad, Hl. unfold roundUp4. Z.to_euclidean_division_equations. lia. }
  split; [exact Hpad | ]. split; [exact Hlen | ].
  rewrite Hhead. simpl. split; [reflexivity | ].
  split.
  - rewrite (wrap32_small (len - 1)) by lia. apply wrap16_small. lia.
  - apply wrap16_small. lia.
Qed.

End PacketLayout.

(* ===================================================================== *)
(** * The theorems at work on the examples *)
(* ===================================================================== *)

Section MoreWitnesses.
Existing Instance sampleHost.

Ltac by_run :=
  first [ vm_compute; reflexivity
        | vm_compute; intros ?; discriminate
        | vm_compute; discriminate
        | vm_compute; intros [] ].

Lemma constructor_failure_keeps_file_witness :
  isOpen_ (writer refused) = false
  /\ imf refused = imf Sample.twoFields
  /\ cVector_ refused = cVector_ Sample.twoFields
  /\ store refused = store Sample.twoFields
  /\ ([0%nat] = [] -> Throws ErrorBuffersNotCompatible = Throws (A := unit) ErrorBadAPIArgument).
Proof.
  apply (constructor_failure_keeps_file [0%nat] Sample.twoFields refused
           (Throws ErrorBuffersNotCompatible)); by_run.
Defined.

Lemma constructor_opens_section_witness :
  [0%nat] <> []
  /\ (exists paths,
        pathNamesIn (store Sample.oneField) [0%nat] = Some paths
        /\ checkBuffers (prototype (cVector_ Sample.oneField)) paths = true)
  /\ isOpen_ (writer Example.opened) = true
  /\ sbufs_ (writer Example.opened) = [0%nat]
  /\ proto_ (writer Example.opened) = prototype (cVector_ Sample.oneField)
  /\ sectionHeaderLogicalStart_ (writer Example.opened)
     = unusedLogicalStart_ (imf Sample.oneField)
  /\ unusedLogicalStart_ (imf Example.opened)
     = wrap64 (unusedLogicalStart_ (imf Sample.oneField) + 32)
  /\ events (file_ (imf Example.opened))
     = EvExtend (wrap64 (unusedLogicalStart_ (imf Sample.oneField) + 32))
       :: events (file_ (imf Sample.oneField))
  /\ writerCount_ (imf Example.opened) = writerCount_ (imf Sample.oneField) + 1
  /\ (recordCount_ (writer Example.opened) = 0
      /\ dataPacketsCount_ (writer Example.opened) = 0
      /\ indexPacketsCount_ (writer Example.opened) = 0
      /\ dataPhysicalOffset_ (writer Example.opened) = 0
      /\ topIndexPhysicalOffset_ (writer Example.opened) = 0
      /\ sectionLogicalLength_ (writer Example.opened) = 0)
  /\ cVector_ Example.opened = cVector_ Sample.oneField
  /\ store Example.opened = store Sample.oneField.
Proof.
  apply (constructor_opens_section [0%nat] Sample.oneField Example.opened). by_run.
Defined.

Lemma constructor_bytestreams_witness :
  length (bytestreams_ (writer openedBackwards)) = length [1%nat; 0%nat]
  /\ StronglySorted byBytestreamNumber (bytestreams_ (writer openedBackwards))
  /\ (VALIDATION_DEEP = true ->
      forall i e, nth_error (bytestreams_ (writer openedBackwards)) i = Some e ->
                  bytestreamNumber e = Z.of_nat i).
Proof.
  apply (constructor_bytestreams [1%nat; 0%nat] Sample.twoFields openedBackwards). by_run.
Defined.

Lemma close_publishes_record_count_witness :
  recordCount (cVector_ Example.closed)
  = wrap64 (recordsWritten [(CallWrite 100 3, Returns tt)])
  /\ binarySectionLogicalStart (cVector_ Example.closed)
     = unusedLogicalStart_ (imf Sample.oneField)
  /\ prototype (cVector_ Example.closed) = prototype (cVector_ Sample.oneField)
  /\ recordCount_ (writer Example.closed)
     = wrap64 (recordsWritten [(CallWrite 100 3, Returns tt)])
  /\ bytestreams_ (writer Example.closed) = []
  /\ writerCount_ (imf Example.closed) = writerCount_ (imf Sample.oneField).
Proof.
  apply (close_publishes_record_count Sample.oneField [(CallWrite 100 3, Returns tt)]
           Example.wrote3 100 Example.closed); [exact wrote3_History | by_run].
Defined.

Lemma closed_section_layout_witness :
  exists packets indexOffset indexPacket sectionHeader,
    events (file_ (imf Example.closed))
    = EvWrite (unusedLogicalStart_ (imf Sample.oneField)) (BSectionHeader sectionHeader) 32
      :: EvWrite indexOffset (BIndexPacket indexPacket) 32
      :: packets ++ EvExtend (wrap64 (unusedLogicalStart_ (imf Sample.oneField) + 32))
                    :: events (file_ (imf Sample.oneField))
    /\ Forall isDataPacket packets
    /\ Packed (wrap64 (unusedLogicalStart_ (imf Sample.oneField) + 32)) packets indexOffset
    /\ unusedLogicalStart_ (imf Example.closed) = wrap64 (indexOffset + 32)
    /\ ip_packetType indexPacket = INDEX_PACKET
    /\ ip_entryCount indexPacket = 1
    /\ ip_packetLogicalLengthMinus1 indexPacket = 31
    /\ map chunkPhysicalOffset (entries indexPacket) = [dataPhysicalOffset sectionHeader]
    /\ dataPacketsCount_ (writer Example.closed) = wrap64 (Z.of_nat (length packets)).
Proof.
  apply (closed_section_layout Sample.oneField [(CallWrite 100 3, Returns tt)]
           Example.wrote3 100 Example.closed); [exact wrote3_History | by_run].
Defined.

Lemma open_section_layout_witness :
  exists packets,
    events (file_ (imf Example.wrote3))
    = packets ++ EvExtend (wrap64 (unusedLogicalStart_ (imf Sample.oneField) + 32))
                 :: events (file_ (imf Sample.oneField))
    /\ Forall isDataPacket packets
    /\ Packed (wrap64 (sectionHeaderLogicalStart_ (writer Example.wrote3) + 32)) packets
         (unusedLogicalStart_ (imf Example.wrote3))
    /\ dataPacketsCount_ (writer Example.wrote3) = wrap64 (Z.of_nat (length packets))
    /\ indexPacketsCount_ (writer Example.wrote3) = 0
    /\ cVector_ Example.wrote3 = cVector_ Sample.oneField
    /\ writerCount_ (imf Example.wrote3) = writerCount_ (imf Sample.oneField) + 1.
Proof.
  apply (open_section_layout Sample.oneField [(CallWrite 100 3, Returns tt)] Example.wrote3).
  exact wrote3_History.
Defined.

Lemma write_only_adds_data_packets_witness :
  (exists packets,
     events (file_ (imf Example2.wrote0)) = packets ++ events (file_ (imf Example.opened))
     /\ Forall isDataPacket packets
     /\ Packed (unusedLogicalStart_ (imf Example.opened)) packets
          (unusedLogicalStart_ (imf Example2.wrote0)))
  /\ cVector_ Example2.wrote0 = cVector_ Example.opened
  /\ writerCount_ (imf Example2.wrote0) = writerCount_ (imf Example.opened)
  /\ isOpen_ (writer Example2.wrote0) = isOpen_ (writer Example.opened)
  /\ sectionHeaderLogicalStart_ (writer Example2.wrote0)
     = sectionHeaderLogicalStart_ (writer Example.opened)
  /\ indexPacketsCount_ (writer Example2.wrote0) = indexPacketsCount_ (writer Example.opened)
  /\ (~ isReturn (Returns tt) ->
      recordCount_ (writer Example2.wrote0) = recordCount_ (writer Example.opened)).
Proof.
  apply (write_only_adds_data_packets (CallWrite 100 0) Example.opened Example2.wrote0
           (Returns tt)).
  by_run.
Defined.

Lemma setBuffers_all_or_nothing_witness :
  ((Returns tt = Returns tt
    /\ rebound = set_writer (set_sbufs [0%nat]) Example.opened
    /\ (sbufs_ (writer Example.opened) <> [] ->
        length [0%nat] = length (sbufs_ (writer Example.opened)))
    /\ exists paths,
         pathNamesIn (store Example.opened) [0%nat] = Some paths
         /\ checkBuffers (proto_ (writer Example.opened)) paths = true)
   \/ (~ isReturn (Returns tt) /\ rebound = Example.opened))
  /\ (accepted Example.opened [0%nat] = true -> Returns tt = Returns tt)
  /\ (sbufs_ (writer Example.opened) <> [] ->
      length [0%nat] <> length (sbufs_ (writer Example.opened)) ->
      Returns tt = Throws ErrorBuffersNotCompatible).
Proof.
  apply (setBuffers_all_or_nothing [0%nat] Example.opened rebound (Returns tt)). by_run.
Defined.

Lemma close_drains_all_output_witness :
  exists wd,
    drain 100 (closing Example.wrote3) = (Returns tt, wd)
    /\ totalOutputAvailable (writer wd) = 0
    /\ closeSection wd = (Returns tt, Example.closed)
    /\ bytestreams_ (writer Example.closed) = [].
Proof.
  apply (close_drains_all_output 100 Example.wrote3 Example.closed); by_run.
Defined.

Lemma write_completes_every_stream_witness :
  recordCount_ (writer Example.wrote3) = wrap64 (recordCount_ (writer Example.opened) + 3)
  /\ totalRecordCount (recordCount_ (writer Example.wrote3))
       (bytestreams_ (writer Example.wrote3)) = 0
  /\ (sumZ (map (fun b => wrap64 (recordCount_ (writer Example.wrote3)
                                  - currentRecordIndex b))
              (bytestreams_ (writer Example.wrote3))) < 2 ^ 64 ->
      Forall (fun b => wrap64 (recordCount_ (writer Example.wrote3)
                               - currentRecordIndex b) = 0)
        (bytestreams_ (writer Example.wrote3))).
Proof.
  apply (write_completes_every_stream 100 3 Example.opened Example.wrote3); by_run.
Defined.

Lemma count_within_available_witness :
  exists count,
    countOf Example.fourStreams = Some count
    /\ Forall2 (fun a c => 0 <= c <= a) (available Example.fourStreams) count.
Proof.
  apply (count_within_available Example.fourStreams); by_run.
Defined.

Lemma packetWrite_outcome_witness :
  (totalOutputAvailable (writer Example.wrote3) = 0 -> Returns 80 = Returns 0 /\ sent = Example.wrote3)
  /\ ((events (file_ (imf sent)) = events (file_ (imf Example.wrote3))
       /\ unusedLogicalStart_ (imf sent) = unusedLogicalStart_ (imf Example.wrote3)
       /\ dataPacketsCount_ (writer sent) = dataPacketsCount_ (writer Example.wrote3))
      \/ exists pkt len,
           Returns 80 = Returns (logicalToPhysical (unusedLogicalStart_ (imf Example.wrote3)))
           /\ events (file_ (imf sent))
              = EvWrite (unusedLogicalStart_ (imf Example.wrote3)) (BDataPacket pkt) len
                :: events (file_ (imf Example.wrote3))
           /\ unusedLogicalStart_ (imf sent)
              = wrap64 (unusedLogicalStart_ (imf Example.wrote3) + len)
           /\ DataPacket_verify pkt len = true
           /\ dataPacketsCount_ (writer sent)
              = wrap64 (dataPacketsCount_ (writer Example.wrote3) + 1)).
Proof.
  apply (packetWrite_outcome Example.wrote3 sent (Returns 80)). by_run.
Defined.

Lemma data_packet_fields_witness :
  exists count,
    countOf (writer Example.wrote3) = Some count
    /\ bsbLength sentPacket = count
    /\ 12 = roundUp4 (sizeof_DataPacketHeader
                      + size (bytestreams_ (writer Example.wrote3)) * sizeof_uint16_t
                      + sumZ count)
    /\ 0 <= padding sentPacket < 4
    /\ padding sentPacket
       = 12 - (sizeof_DataPacketHeader
               + size (bytestreams_ (writer Example.wrote3)) * sizeof_uint16_t + sumZ count)
    /\ 12 <= 65532
    /\ packetType (header sentPacket) = DATA_PACKET
    /\ packetLogicalLengthMinus1 (header sentPacket) = 12 - 1
    /\ bytestreamCount (header sentPacket) = size (bytestreams_ (writer Example.wrote3)).
Proof.
  apply (data_packet_fields Example.wrote3 sent (Returns 80) sentPacket 12); by_run.
Defined.

End MoreWitnesses.

Section ConstructorEncoders.
Context {E : Type} `{Encoder E} `{Host}.

Lemma makeEncoders_made sbufs (w w' : World E) :
  makeEncoders sbufs w = (Returns tt, w') ->
  exists made,
    bytestreams_ (writer w') = bytestreams_ (writer w) ++ made
    /\ Forall2 (encoderFor (store w) (proto_ (writer w))) sbufs made.
Proof.
  revert w. induction sbufs as [ | sbuf rest IH]; intros w Hr.
  - inversion Hr; subst. exists []. rewrite app_nil_r. split; [reflexivity | constructor].
  - cbn [makeEncoders] in Hr. unfold bind at 1, impl in Hr.
    destruct (nth_error (store w) sbuf) as [b | ] eqn:Hb; [ | discriminate].
    unfold bind at 1, get in Hr.
    destruct (findTerminalPosition _ _ _) as [pos | ] eqn:Hpos; [ | discriminate].
    unfold bind at 1, modify_writer, modify in Hr.
    destruct (IH _ Hr) as (made & Hbs & Hall). simpl in Hbs, Hall.
    exists (EncoderFactory (wrap32 pos) (proto_ (writer w)) sbuf (pathName b) :: made).
    split; [rewrite Hbs, <- app_assoc; reflexivity | ].
    constructor; [ | exact Hall].
    exists b, pos. auto.
Qed.

(** X17. When the constructor returns, the encoders of the writer are,
    in some order, the encoders made for the buffers one by one: for each
    buffer the encoder [EncoderFactory] gives for the bytestream whose
    number is the position of the buffer's field in the prototype. *)
Theorem constructor_encoders sbufs (w0 w1 : World E) :
  CompressedVectorWriterImpl sbufs w0 = (Returns tt, w1) ->
  exists made,
    Permutation (bytestreams_ (writer w1)) made
    /\ Forall2 (encoderFor (store w0) (prototype (cVector_ w0))) sbufs made.
Proof.
  intros Hr. destruct (constructor_run _ _ _ Hr) as (we & _ & Hmk & Hs & _).
  destruct (makeEncoders_made _ _ _ Hmk) as (made & Hbs & Hall).
  simpl in Hbs, Hall. exists made. split; [ | exact Hall].
  rewrite Hs, Hbs. apply sort_Permutation.
Qed.

End ConstructorEncoders.

Section EncoderWitness.
Existing Instance sampleHost.

Lemma constructor_encoders_witness :
  exists made,
    Permutation (bytestreams_ (writer openedBackwards)) made
    /\ Forall2 (encoderFor (store Sample.twoFields) (prototype (cVector_ Sample.twoFields)))
         [1%nat; 0%nat] made.
Proof.
  apply (constructor_encoders [1%nat; 0%nat] Sample.twoFields openedBackwards).
  vm_compute. reflexivity.
Defined.

End EncoderWitness.

Section RunsOfTheRest.
Existing Instance sampleHost.

Lemma destructor_never_throws_witness :
  fst (CompressedVectorWriterImpl_destructor 100 Example.wrote3) = Returns tt
  /\ snd (CompressedVectorWriterImpl_destructor 100 Example.wrote3) = Example.closed
  /\ writerCount_ (imf (snd (CompressedVectorWriterImpl_destructor 100 Example.wrote3)))
     = writerCount_ (imf Example.wrote3) - 1
  /\ CompressedVectorWriterImpl_destructor 100 Example.closed = (Returns tt, Example.closed).
Proof.
  destruct (destructor_never_throws 100 Example.wrote3) as (_ & _ & _ & Hopen).
  destruct (destructor_never_throws 100 Example.closed) as (_ & _ & Hclosed & _).
  destruct Hopen as (Hsnd & Hwc & Hret); [vm_compute; reflexivity | ].
  split; [apply Hret; vm_compute; exact I | ].
  split; [exact Hsnd | ]. split; [exact Hwc | ].
  apply Hclosed. vm_compute. reflexivity.
Defined.

Lemma write2_is_setBuffers_then_write_witness :
  write2 100 [0%nat] 3 Example.opened
  = write 100 3 (set_writer (set_sbufs [0%nat]) Example.opened)
  /\ snd (write2 100 [0%nat; 0%nat] 3 Example.opened) = Example.opened
  /\ fst (write2 100 [0%nat; 0%nat] 3 Example.opened) = Throws ErrorBuffersNotCompatible.
Proof.
  destruct (write2_is_setBuffers_then_write 100 [0%nat] 3 Example.opened) as (Hacc & _).
  destruct (write2_is_setBuffers_then_write 100 [0%nat; 0%nat] 3 Example.opened)
    as (_ & Hrefused).
  destruct (Hrefused (Throws ErrorBuffersNotCompatible) Example.opened)
    as (Hsame & _ & Hthrows).
  - vm_compute. reflexivity.
  - vm_compute. intros [].
  - split; [apply Hacc; vm_compute; reflexivity | ].
    split; [exact Hsame | ]. apply Hthrows. reflexivity.
Defined.

End RunsOfTheRest.

Section WideStreams.
Existing Instance sampleHost.


Lemma write_beyond_shared_capacity_witness :
  write 100 11 Example.opened = (Throws ErrorBadAPIArgument, Example.opened).
Proof.
  apply (write_beyond_shared_capacity Example.opened 100 11 0%nat
           (Sample.buffer "x" 10 [1; 2; 3; 4; 5; 6; 7; 8; 9; 10]) 0%nat
           (Sample.buffer "x" 10 [1; 2; 3; 4; 5; 6; 7; 8; 9; 10])).
  - reflexivity.
  - reflexivity.
  - reflexivity.
  - reflexivity.
  - left. reflexivity.
  - reflexivity.
  - reflexivity.
  - reflexivity.
Defined.

End WideStreams.
